(** * SideScore: the score board of [static/app.js]

    A shallow embedding of the match normaliser, the snapshot merger, the
    poller, the follow and filter stores and the two renderers of
    [static/app.js], with the properties of the specification proved (or
    refuted) over it.  The repository holds an older revision of the same
    script; it has the same stores and the same [render] and [toggleFollow],
    but another merger and other row painters.  Its merger is embedded in
    [Module Legacy] and compared with the current one at the end.

    The painters come twice: as the text they write, which is what the
    script paints whenever every value it interpolates has a text, and, in
    [Module Throwing], with the exception a template literal raises for a
    value that has none. *)

From Stdlib Require Import String Ascii List ZArith Bool Lia DecimalString.
Import ListNotations.
Open Scope list_scope.
Open Scope string_scope.
Set Warnings "-register-all".

(** ** JavaScript values

    Every value the script handles comes out of [JSON.parse] (the feed body,
    the stored follow list) or is [undefined] (a property that is not there).
    Numbers of the feed (goals, ids, minutes) are integers. *)

Inductive Json : Type :=
| JNull
| JBool (b : bool)
| JNum (n : Z)
| JStr (s : string)
| JArr (items : list Json)
| JObj (fields : list (string * Json)).

Inductive JsVal : Type :=
| undefined
| J (j : Json).

Coercion J : Json >-> JsVal.

(** Exceptions the script can meet. *)
Inductive Exn : Type :=
| TransportError (msg : string)     (* fetch() rejected *)
| ApiError (status : Z)             (* new Error(`API error ${res.status}`) *)
| SyntaxError                       (* res.json() or JSON.parse rejected the text *)
| TypeError (what : string).        (* property of null/undefined, not a function, not iterable *)

Inductive Result (A : Type) : Type :=
| Ok (a : A)
| Err (e : Exn).
Arguments Ok {A} a.
Arguments Err {A} e.

Definition rbind {A B} (r : Result A) (k : A -> Result B) : Result B :=
  match r with
  | Ok a => k a
  | Err e => Err e
  end.

Declare Scope result_scope.
Delimit Scope result_scope with result.
Notation "'let?' x ':=' r 'in' k" := (rbind r (fun x => k))
  (at level 10, x name, r at level 100, k at level 200) : result_scope.

(** [list.map(fn)] with a callback that may throw: the first exception
    leaves the loop. *)
Fixpoint mapR {A B} (fn : A -> Result B) (l : list A) : Result (list B) :=
  match l with
  | [] => Ok []
  | x :: rest =>
      (let? y := fn x in
       let? ys := mapR fn rest in
       Ok (y :: ys))%result
  end.

Module Js.

(** Truthiness ([if (x)], [x || y], [x ? a : b]). *)
Definition truthy (v : JsVal) : bool :=
  match v with
  | undefined => false
  | J JNull => false
  | J (JBool b) => b
  | J (JNum n) => negb (n =? 0)%Z
  | J (JStr s) => negb (s =? "")
  | J (JArr _) => true
  | J (JObj _) => true
  end.

(** [a || b] *)
Definition or (a b : JsVal) : JsVal := if truthy a then a else b.

(** [a ?? b] *)
Definition nullish (v : JsVal) : bool :=
  match v with
  | undefined | J JNull => true
  | _ => false
  end.
Definition coalesce (a b : JsVal) : JsVal := if nullish a then b else a.

Fixpoint assoc {A} (k : string) (l : list (string * A)) : option A :=
  match l with
  | [] => None
  | (k', v) :: rest => if k' =? k then Some v else assoc k rest
  end.

(** [v.k] for the property names the script reads ([leagues], the league
    keys, [live], [upcoming] and the record fields): none of them lives on
    a prototype, so on anything but an object the result is [undefined];
    on [null] and [undefined] the access throws. *)
Definition prop (v : JsVal) (k : string) : Result JsVal :=
  match v with
  | undefined | J JNull => Err (TypeError ("Cannot read properties of null/undefined: " ++ k))
  | J (JObj fields) =>
      match assoc k fields with
      | Some x => Ok (J x)
      | None => Ok undefined
      end
  | _ => Ok undefined
  end.

(** [v?.k] *)
Definition optprop (v : JsVal) (k : string) : JsVal :=
  match prop v k with
  | Ok x => x
  | Err _ => undefined
  end.

(** [a === b].  Two operands of the script never are the same object:
    they come from separate [JSON.parse] readings (feed against store) or
    are different nodes of one reading, so objects and arrays compare
    unequal. *)
Definition strict_eq (a b : JsVal) : bool :=
  match a, b with
  | undefined, undefined => true
  | J JNull, J JNull => true
  | J (JBool x), J (JBool y) => Bool.eqb x y
  | J (JNum x), J (JNum y) => (x =? y)%Z
  | J (JStr x), J (JStr y) => (x =? y)
  | _, _ => false
  end.

Definition num_to_string (n : Z) : string :=
  NilZero.string_of_int (Z.to_int n).

Definition nat_to_string (n : nat) : string := num_to_string (Z.of_nat n).

Fixpoint join (sep : string) (l : list string) : string :=
  match l with
  | [] => ""
  | [x] => x
  | x :: rest => x ++ sep ++ join sep rest
  end.

(** The text of a value that has one.  An array is its items joined with
    commas, [null] items printing as nothing; an object prints through
    [Object.prototype.toString].  Which values have a text is [printable]
    below; [ToString] is the conversion with its exception. *)
Fixpoint json_to_string (j : Json) : string :=
  match j with
  | JNull => "null"
  | JBool true => "true"
  | JBool false => "false"
  | JNum n => num_to_string n
  | JStr s => s
  | JArr items =>
      join "," (map (fun x => match x with
                              | JNull => ""
                              | _ => json_to_string x
                              end) items)
  | JObj _ => "[object Object]"
  end.

Definition to_string (v : JsVal) : string :=
  match v with
  | undefined => "undefined"
  | J j => json_to_string j
  end.

(** Whether a value converts to a primitive.  An object out of
    [JSON.parse] with a property named [toString] of its own does not: that
    property is never a function, so neither [toString] nor the inherited
    [valueOf] gives a primitive and the conversion throws.  An array
    converts by joining the texts of its items, so it converts when they
    all do. *)
Fixpoint printable_json (j : Json) : bool :=
  match j with
  | JArr items => forallb printable_json items
  | JObj fields =>
      match assoc "toString" fields with
      | Some _ => false
      | None => true
      end
  | _ => true
  end.

Definition printable (v : JsVal) : bool :=
  match v with
  | undefined => true
  | J j => printable_json j
  end.

(** [String(v)] as a template literal [`${v}`] and [new Date(v)] compute
    it: the text, or a TypeError. *)
Definition ToString (v : JsVal) : Result string :=
  if printable v then Ok (to_string v)
  else Err (TypeError "Cannot convert object to primitive value").

(** A text of ASCII characters only.  On such a text [trim], [split],
    [slice], indexing and [toUpperCase] work character by character as
    defined below; beyond ASCII the script's methods know more white space
    and more letters. *)
Fixpoint ascii_text (s : string) : bool :=
  match s with
  | EmptyString => true
  | String c rest => (nat_of_ascii c <? 128)%nat && ascii_text rest
  end.

(** White space of [trim()] and of [/\s+/] among the ASCII characters:
    TAB, LF, VT, FF, CR and SP. *)
Definition is_space (c : ascii) : bool :=
  let n := nat_of_ascii c in
  (((9 <=? n) && (n <=? 13)) || (n =? 32))%nat.

Fixpoint trim_start (s : string) : string :=
  match s with
  | String c rest => if is_space c then trim_start rest else s
  | EmptyString => EmptyString
  end.

Fixpoint rev_string (s acc : string) : string :=
  match s with
  | EmptyString => acc
  | String c rest => rev_string rest (String c acc)
  end.

Definition trim (s : string) : string :=
  rev_string (trim_start (rev_string (trim_start s) "")) "".

(** [x.trim()] on a value: a string is trimmed, anything else has no
    [trim] method. *)
Definition call_trim (v : JsVal) : Result string :=
  match v with
  | J (JStr s) => Ok (trim s)
  | undefined | J JNull => Err (TypeError "Cannot read properties of null/undefined: trim")
  | _ => Err (TypeError "trim is not a function")
  end.

(** [s.split(/\s+/).filter(Boolean)]: the maximal runs of characters that
    are not white space. *)
Fixpoint words_aux (s : string) (cur : string) : list string :=
  match s with
  | EmptyString => if cur =? "" then [] else [rev_string cur ""]
  | String c rest =>
      if is_space c
      then (if cur =? "" then words_aux rest "" else rev_string cur "" :: words_aux rest "")
      else words_aux rest (String c cur)
  end.
Definition words (s : string) : list string := words_aux s "".

(** [toUpperCase] on an ASCII text: the letters a to z. *)
Definition upper_char (c : ascii) : ascii :=
  let n := nat_of_ascii c in
  if ((97 <=? n) && (n <=? 122))%nat then ascii_of_nat (n - 32) else c.

Fixpoint toUpperCase (s : string) : string :=
  match s with
  | EmptyString => EmptyString
  | String c rest => String (upper_char c) (toUpperCase rest)
  end.

(** [s.slice(0, n)] *)
Definition slice0 (n : nat) (s : string) : string := substring 0 n s.

(** [p[0]] of a non-empty word, as text *)
Definition first_char (p : string) : string := substring 0 1 p.

(** [Array.isArray(v)] *)
Definition isArray (v : JsVal) : bool :=
  match v with
  | J (JArr _) => true
  | _ => false
  end.

(** the elements of a value that is an array *)
Definition items (v : JsVal) : list Json :=
  match v with
  | J (JArr l) => l
  | _ => []
  end.

End Js.

(** ** The host's clock functions

    [new Date(text)] and [toLocaleTimeString("en-GB", {hour, minute})] are
    the browser's: which texts are dates and which wall-clock time a date
    shows depend on the engine and on the time zone.  They are an interface
    of the embedding; [utcHost] below is one instance. *)

Class Host : Type := {
  (** [Date.parse(text)]: the time value in milliseconds, [None] for NaN *)
  Date_parse : string -> option Z;
  (** the [HH:mm] text of a valid date *)
  toLocaleTimeString : Z -> string
}.

Inductive Status : Type := LIVE | UPCOMING.

(** The object [toMatchModel] returns, with the [leagueName] property that
    [fetchScores] sets on it afterwards ([undefined] until then). *)
Record Match : Type := mkMatch {
  id : JsVal;
  home : JsVal;
  away : JsVal;
  homeTeam : string;
  awayTeam : string;
  homeGoals : JsVal;
  awayGoals : JsVal;
  status : Status;
  minute : JsVal;
  kickoff : string;
  leagueName : JsVal
}.

Definition set_leagueName (m : Match) (name : JsVal) : Match :=
  mkMatch (id m) (home m) (away m) (homeTeam m) (awayTeam m)
          (homeGoals m) (awayGoals m) (status m) (minute m) (kickoff m) name.

(** [LIVE_DATA]: an object keyed by league id, in insertion order. *)
Definition Snapshot : Type := list (string * list Match).

(** [obj[key] = v] on an object used as a map *)
Fixpoint obj_set {A} (o : list (string * A)) (key : string) (v : A) : list (string * A) :=
  match o with
  | [] => [(key, v)]
  | (k, x) :: rest => if k =? key then (k, v) :: rest else (k, x) :: obj_set rest key v
  end.

Definition LEAGUES : list (string * string) :=
  [("pl", "Premier League"); ("ch", "Championship");
   ("l1", "League One"); ("l2", "League Two")].

Definition leagueNames : list (string * Json) :=
  [("pl", JStr "Premier League"); ("ch", JStr "Championship");
   ("l1", JStr "League One"); ("l2", JStr "League Two")].

Definition LEAGUE_KEYS : list string := ["pl"; "ch"; "l1"; "l2"].

Definition STATUS_eqb (a b : Status) : bool :=
  match a, b with
  | LIVE, LIVE | UPCOMING, UPCOMING => true
  | _, _ => false
  end.

Section Normaliser.
Context {host : Host}.

(** [new Date(v)]: the time value, [None] when it is NaN (an invalid date).
    A string is parsed; [null], booleans and numbers are taken as
    milliseconds; arrays and objects are first converted to a primitive,
    their text, which is then parsed: for an object that does not convert
    the constructor throws. *)
Definition newDate (v : JsVal) : Result (option Z) :=
  match v with
  | undefined => Ok None
  | J JNull => Ok (Some 0%Z)
  | J (JBool b) => Ok (Some (if b then 1 else 0)%Z)
  | J (JNum n) => Ok (if (Z.abs n <=? 8640000000000000)%Z then Some n else None)
  | J (JStr s) => Ok (Date_parse s)
  | J j => (let? text := Js.ToString (J j) in Ok (Date_parse text))%result
  end.

(** [d.toLocaleTimeString("en-GB", { hour: "2-digit", minute: "2-digit" })]:
    an invalid date prints as the text [Invalid Date]. *)
Definition dateToLocaleTimeString (d : option Z) : string :=
  match d with
  | Some t => toLocaleTimeString t
  | None => "Invalid Date"
  end.

Definition isoToLocalKickoff (iso : JsVal) : Result string :=
  if negb (Js.truthy iso) then Ok ""
  else (let? d := newDate iso in Ok (dateToLocaleTimeString d))%result.

Definition toMatchModel (f : JsVal) : Result Match :=
  (let? homeGoals_ := Js.prop f "homeGoals" in
   let hg := Js.coalesce homeGoals_ (JNum 0) in
   let? awayGoals_ := Js.prop f "awayGoals" in
   let ag := Js.coalesce awayGoals_ (JNum 0) in
   let? kickoffISO := Js.prop f "kickoffISO" in
   let? kickoff := isoToLocalKickoff kickoffISO in
   let? f_homeTeam := Js.prop f "homeTeam" in
   let? f_homeName := Js.prop f "homeName" in
   let? f_home := Js.prop f "home" in
   let? homeTeam :=
     Js.call_trim (Js.or (Js.or (Js.or f_homeTeam f_homeName) f_home) (JStr "")) in
   let? f_awayTeam := Js.prop f "awayTeam" in
   let? f_awayName := Js.prop f "awayName" in
   let? f_away := Js.prop f "away" in
   let? awayTeam :=
     Js.call_trim (Js.or (Js.or (Js.or f_awayTeam f_awayName) f_away) (JStr "")) in
   let? isLive := Js.prop f "isLive" in
   let status := if Js.truthy isLive then LIVE else UPCOMING in
   let? f_minute := Js.prop f "minute" in
   let meta :=
     if Js.truthy isLive then Js.or f_minute (JStr "")
     else if negb (kickoff =? "") then J (JStr ("KO " ++ kickoff)) else J (JStr "") in
   let? f_id := Js.prop f "id" in
   Ok (mkMatch f_id f_home f_away homeTeam awayTeam hg ag status meta kickoff undefined))%result.

(** ** The snapshot merger (the loop of [fetchScores]) *)

Definition defaultBucket : Json :=
  JObj [("live", JArr []); ("upcoming", JArr [])].

(** The list the loop picks for one bucket:
    [(Array.isArray(bucket.live) && bucket.live.length) ? bucket.live :
     (Array.isArray(bucket.upcoming) ? bucket.upcoming : [])]. *)
Definition pickList (bucket : JsVal) : Result (list Json) :=
  (let? live := Js.prop bucket "live" in
   if Js.isArray live && negb (Nat.eqb (List.length (Js.items live)) 0)
   then Ok (Js.items live)
   else
     let? upcoming := Js.prop bucket "upcoming" in
     if Js.isArray upcoming then Ok (Js.items upcoming) else Ok [])%result.

(** The callback of [list.map]:
    [f => { const m = toMatchModel(f); m.leagueName = leagueNames[key]; return m; }]. *)
Definition stamp (key : string) (f : Json) : Result Match :=
  (let? m := toMatchModel (J f) in
   Ok (set_leagueName m (Js.optprop (J (JObj leagueNames)) key)))%result.

(** One turn of the [for] loop: the value assigned to [next[key]]. *)
Definition mergeLeague (leagues : JsVal) (key : string) : Result (list Match) :=
  (let bucket := Js.or (Js.optprop leagues key) (J defaultBucket) in
   let? list := pickList bucket in
   mapR (stamp key) list)%result.

(** The [for (const key of [...])] loop, filling [next]. *)
Fixpoint mergeKeys (leagues : JsVal) (keys : list string) (next : Snapshot)
  : Result Snapshot :=
  match keys with
  | [] => Ok next
  | key :: rest =>
      (let? ms := mergeLeague leagues key in
       mergeKeys leagues rest (obj_set next key ms))%result
  end.

(** Steps 4 and 5 of [fetchScores]: from the parsed body to [next]. *)
Definition mergeSnapshot (data : JsVal) : Result Snapshot :=
  let leagues := Js.or (Js.optprop data "leagues") (J (JObj [])) in
  mergeKeys leagues LEAGUE_KEYS [].

End Normaliser.

(** ** The page, the store and the pinned window *)

(** What [localStorage] holds under the follow key.  The script only ever
    hands that text to [JSON.parse] and writes it with [JSON.stringify], so
    the text is kept by its reading: [JsonText j] is a text that parses to
    [j], [Garbled s] a text [s] that [JSON.parse] rejects (the empty text is
    one of these). *)
Inductive StoredText : Type :=
| Garbled (s : string)
| JsonText (j : Json).

(** The two keys of [localStorage] the script uses; [None] is a key that is
    not set ([getItem] gives [null]). *)
Record Storage : Type := mkStorage {
  pinscores_followed_match_ids : option StoredText;   (* STORAGE_KEY *)
  pinscores_league_filter : option string             (* STORAGE_FILTER_KEY *)
}.

(** A [.seg-btn] of the filter bar: its [data-filter] attribute and whether
    it carries the class [is-active]. *)
Record SegBtn : Type := mkSegBtn {
  data_filter : option string;
  is_active : bool
}.

Record Toast : Type := mkToast {
  textContent : string;
  show : bool
}.

(** The elements of the page the script writes: [innerHTML] of [#leagues]
    and [#followedList], the label of [#btnFollowAllLive], the filter bar
    and the toast (the last two may be missing from the page). *)
Record Page : Type := mkPage {
  leaguesEl : string;
  followedEl : string;
  btnFollowAllLive : string;
  leagueFilterEl : option (list SegBtn);
  toastEl : option Toast
}.

(** The picture-in-picture window: whether it is closed and the
    [innerHTML] of its [#pipList] ([None] when the element is not there). *)
Record PipWindow : Type := mkPip {
  closed : bool;
  pipList : option string
}.

(** What the run leaves behind, for the statements only: calls of
    [render] and lines of the console. *)
Inductive Event : Type :=
| EvRender
| EvConsoleLog (counts : list (string * nat))
| EvConsoleError (e : Exn).

Record World : Type := mkWorld {
  LIVE_DATA : Snapshot;
  localStorage : Storage;
  page : Page;
  pipWin : option PipWindow;
  trace : list Event
}.

Definition set_LIVE_DATA (next : Snapshot) (w : World) : World :=
  mkWorld next (localStorage w) (page w) (pipWin w) (trace w).
Definition set_localStorage (s : Storage) (w : World) : World :=
  mkWorld (LIVE_DATA w) s (page w) (pipWin w) (trace w).
Definition set_page (p : Page) (w : World) : World :=
  mkWorld (LIVE_DATA w) (localStorage w) p (pipWin w) (trace w).
Definition set_pipWin (p : option PipWindow) (w : World) : World :=
  mkWorld (LIVE_DATA w) (localStorage w) (page w) p (trace w).
Definition log (e : Event) (w : World) : World :=
  mkWorld (LIVE_DATA w) (localStorage w) (page w) (pipWin w) (trace w ++ [e])%list.

(** ** Statements of the script: state and exceptions *)

Inductive Outcome (A : Type) : Type :=
| Done (a : A) (w : World)
| Raised (e : Exn) (w : World).
Arguments Done {A} a w.
Arguments Raised {A} e w.

Definition M (A : Type) : Type := World -> Outcome A.

Definition ret {A} (a : A) : M A := fun w => Done a w.
Definition bind {A B} (m : M A) (k : A -> M B) : M B :=
  fun w => match m w with
           | Done a w' => k a w'
           | Raised e w' => Raised e w'
           end.
Definition throw {A} (e : Exn) : M A := fun w => Raised e w.
Definition liftR {A} (r : Result A) : M A :=
  fun w => match r with
           | Ok a => Done a w
           | Err e => Raised e w
           end.
Definition try_catch {A} (m : M A) (handler : Exn -> M A) : M A :=
  fun w => match m w with
           | Done a w' => Done a w'
           | Raised e w' => handler e w'
           end.
Definition gets {A} (f : World -> A) : M A := fun w => Done (f w) w.
Definition modify (f : World -> World) : M unit := fun w => Done tt (f w).

Definition final {A} (o : Outcome A) : World :=
  match o with
  | Done _ w => w
  | Raised _ w => w
  end.

Declare Scope js_scope.
Delimit Scope js_scope with js.
Notation "x <- m ;; k" := (bind m (fun x => k))
  (at level 61, m at next level, right associativity) : js_scope.
Notation "m ;;; k" := (bind m (fun _ => k))
  (at level 61, right associativity) : js_scope.

(** ** [Set] of match ids

    A [Set] keeps its elements in insertion order and compares them with
    SameValueZero, which on the values at hand is [===]. *)
Definition JsSet : Type := list JsVal.

Definition set_has (s : JsSet) (x : JsVal) : bool := existsb (Js.strict_eq x) s.
Definition set_add (s : JsSet) (x : JsVal) : JsSet :=
  if set_has s x then s else (s ++ [x])%list.
Definition set_delete (s : JsSet) (x : JsVal) : JsSet :=
  filter (fun y => negb (Js.strict_eq x y)) s.

Fixpoint chars (s : string) : list JsVal :=
  match s with
  | EmptyString => []
  | String c rest => J (JStr (String c EmptyString)) :: chars rest
  end.

(** [new Set(v)]: the elements of an array or the characters of a string,
    nothing for [null] and [undefined]; other values are not iterable. *)
Definition newSet (v : JsVal) : Result JsSet :=
  match v with
  | undefined | J JNull => Ok []
  | J (JArr items) => Ok (fold_left set_add (map J items) [])
  | J (JStr s) => Ok (fold_left set_add (chars s) [])
  | _ => Err (TypeError "value is not iterable")
  end.

(** ** The follow store and the filter store *)

Definition raw_truthy (raw : option StoredText) : bool :=
  match raw with
  | None => false
  | Some (Garbled s) => negb (s =? "")
  | Some (JsonText _) => true
  end.

Definition JSON_parse (raw : option StoredText) : Result Json :=
  match raw with
  | Some (JsonText j) => Ok j
  | _ => Err SyntaxError
  end.

(** The body of the [try] of [loadFollowedSet]. *)
Definition loadFollowedSet_try : M JsSet :=
  (raw <- gets (fun w => pinscores_followed_match_ids (localStorage w)) ;;
   arr <- (if raw_truthy raw then liftR (JSON_parse raw) else ret (JArr [])) ;;
   liftR (newSet (J arr)))%js.

Definition loadFollowedSet : M JsSet :=
  try_catch loadFollowedSet_try (fun _ => ret []).

(** [JSON.stringify] writes an [undefined] element of an array as [null]. *)
Definition jsonify (v : JsVal) : Json :=
  match v with
  | undefined => JNull
  | J j => j
  end.

Definition saveFollowedSet (set : JsSet) : M unit :=
  modify (fun w =>
    set_localStorage
      (mkStorage (Some (JsonText (JArr (map jsonify set))))
                 (pinscores_league_filter (localStorage w))) w).

Definition loadLeagueFilter : M string :=
  gets (fun w =>
    match pinscores_league_filter (localStorage w) with
    | Some s => if negb (s =? "") then s else "all"
    | None => "all"
    end).

Definition saveLeagueFilter (val : string) : M unit :=
  modify (fun w =>
    set_localStorage
      (mkStorage (pinscores_followed_match_ids (localStorage w)) (Some val)) w).

(** ** The renderers *)

(** The literal parts of the markup are written with ['] where the script
    has a double quote; [q] puts the double quotes back. *)
Fixpoint q (s : string) : string :=
  match s with
  | EmptyString => EmptyString
  | String c rest =>
      String (if Ascii.eqb c "'"%char then "034"%char else c) (q rest)
  end.

Record TaggedMatch : Type := mkTagged {
  the_match :> Match;
  leagueId : string
}.

(** [Object.entries(LIVE_DATA).flatMap(...)] *)
Definition allMatches (data : Snapshot) : list TaggedMatch :=
  flat_map (fun entry => map (fun m => mkTagged m (fst entry)) (snd entry)) data.

(** [allMatches().find(m => m.id === id) || null] *)
Definition findMatchById (data : Snapshot) (id_ : JsVal) : option TaggedMatch :=
  find (fun m : TaggedMatch => Js.strict_eq (id m) id_) (allMatches data).

Definition is_live (m : Match) : bool := STATUS_eqb (status m) LIVE.
Definition is_upcoming (m : Match) : bool := STATUS_eqb (status m) UPCOMING.

Definition getAbbr (teamName : JsVal) : Result string :=
  (let? trimmed := Js.call_trim teamName in
   let parts := Js.words trimmed in
   if Nat.eqb (List.length parts) 1
   then Ok (Js.toUpperCase (Js.slice0 3 (hd "" parts)))
   else Ok (Js.toUpperCase (Js.join "" (map Js.first_char (firstn 3 parts)))))%result.

Definition formatScoreline (m : Match) : string :=
  match status m with
  | LIVE => Js.to_string (homeGoals m) ++ " : " ++ Js.to_string (awayGoals m)
  | UPCOMING => "vs"
  end.

Definition formatRightMeta (m : Match) : string :=
  match status m with
  | LIVE => Js.to_string (minute m) ++ "'"
  | UPCOMING => "KO " ++ kickoff m
  end.

(** [[...followed].map(id => findMatchById(id)).filter(Boolean)] *)
Definition followedMatches (data : Snapshot) (followed : JsSet) : list TaggedMatch :=
  flat_map (fun id_ => match findMatchById data id_ with
                       | Some m => [m]
                       | None => []
                       end) followed.

(** [m.homeTeam || m.home] *)
Definition shownHome (m : Match) : JsVal := Js.or (J (JStr (homeTeam m))) (home m).
Definition shownAway (m : Match) : JsVal := Js.or (J (JStr (awayTeam m))) (away m).

Definition followedPill (m : TaggedMatch) : string :=
  let left := Js.to_string (shownHome m) ++ " " ++ formatScoreline m ++ " "
              ++ Js.to_string (shownAway m) in
  let right := formatRightMeta m in
  q "
      <div class='pill'>
        <div>
          <b>" ++ left ++ q "</b>
          <div class='tiny'>" ++ Js.to_string (leagueName m) ++ " • " ++ right ++ q "</div>
        </div>
        <button class='pill-x pill-x-danger' data-unfollow='" ++ Js.to_string (id m)
  ++ q "' title='Unfollow'>×</button>
      </div>
    ".

(** The [innerHTML] that [renderFollowed] assigns to [#followedList]. *)
Definition followedHtml (data : Snapshot) (followed : JsSet) : string :=
  let matches := followedMatches data followed in
  if Nat.eqb (List.length matches) 0
  then q "<div class='empty'>No followed matches. Tap “Follow” on a match to pin it.</div>"
  else Js.join "" (map followedPill matches).

Definition renderMatchRow (m : Match) (lg : string * string) (followed : JsSet) : string :=
  let isFollowed := set_has followed (id m) in
  let homeTeam_ := shownHome m in
  let awayTeam_ := shownAway m in
  let meta :=
    match status m with
    | LIVE => q "<span class='status-live'>LIVE</span> • " ++ Js.to_string (minute m)
    | UPCOMING => Js.to_string (minute m)
    end in
  q "
    <div class='match'>
      <div class='left'>
        <div class='row'>
          <span class='team'>" ++ Js.to_string homeTeam_ ++ q "</span>
          <span class='score'>" ++ formatScoreline m ++ q "</span>
          <span class='team'>" ++ Js.to_string awayTeam_ ++ q "</span>
        </div>
        <div class='meta'>" ++ meta ++ q "</div>
      </div>
        <div class='controls'>
            " ++ (if isFollowed
                  then q "<button class='smallbtn smallbtn-danger' data-unfollow='"
                       ++ Js.to_string (id m) ++ q "'>Unfollow</button>"
                  else q "<button class='smallbtn' data-follow='"
                       ++ Js.to_string (id m) ++ q "'>Follow</button>") ++ q "
        </div>
    </div>
  ".

(** [filter === "all" ? LEAGUES : LEAGUES.filter(l => l.id === filter)] *)
Definition leaguesToShow (filter_ : string) : list (string * string) :=
  if filter_ =? "all" then LEAGUES
  else filter (fun lg => fst lg =? filter_) LEAGUES.

Definition leagueSection (data : Snapshot) (followed : JsSet) (lg : string * string)
  : string :=
  let matches := match Js.assoc (fst lg) data with
                 | Some l => l
                 | None => []
                 end in
  let live := filter is_live matches in
  let upcoming := filter is_upcoming matches in
  let listToShow :=
    if negb (Nat.eqb (List.length live) 0) then live
    else if negb (Nat.eqb (List.length upcoming) 0) then upcoming else [] in
  let badge :=
    if negb (Nat.eqb (List.length live) 0)
    then Js.nat_to_string (List.length live) ++ " live"
    else if negb (Nat.eqb (List.length upcoming) 0)
         then Js.nat_to_string (List.length upcoming) ++ " upcoming"
         else "No live games" in
  let body :=
    if negb (Nat.eqb (List.length listToShow) 0)
    then q "<div class='matches'>"
         ++ Js.join "" (map (fun m => renderMatchRow m lg followed) listToShow)
         ++ "</div>"
    else q "<div class='matches'><div class='empty'>No live games today</div></div>" in
  q "
      <section class='league league--" ++ fst lg ++ q "'>
        <div class='league-head'>
          <h3>" ++ snd lg ++ q "</h3>
          <div class='badge'>" ++ badge ++ q "</div>
        </div>
        " ++ body ++ "
      </section>
    ".

(** The [innerHTML] that [renderLeagues] assigns to [#leagues]. *)
Definition leaguesHtml (data : Snapshot) (followed : JsSet) (filter_ : string) : string :=
  Js.join "" (map (leagueSection data followed) (leaguesToShow filter_)).

Definition pinnedRow (m : TaggedMatch) : Result string :=
  (let? homeAb := getAbbr (home m) in
   let? awayAb := getAbbr (away m) in
   let left := homeAb ++ " " ++ formatScoreline m ++ " " ++ awayAb in
   let right := formatRightMeta m in
   Ok (q "<div class='row'><div class='left'>" ++ left
       ++ q "</div><div class='right'>" ++ right ++ "</div></div>"))%result.

(** The [innerHTML] that [renderPinnedWindow] assigns to [#pipList], when it
    gets that far. *)
Definition pinnedHtml (data : Snapshot) (followed : JsSet) : Result string :=
  let matches := followedMatches data followed in
  if Nat.eqb (List.length matches) 0
  then Ok (q "<div class='empty'>No followed matches</div>")
  else (let? rows := mapR pinnedRow matches in Ok (Js.join "" rows))%result.

Definition set_leaguesEl (html : string) (p : Page) : Page :=
  mkPage html (followedEl p) (btnFollowAllLive p) (leagueFilterEl p) (toastEl p).
Definition set_followedEl (html : string) (p : Page) : Page :=
  mkPage (leaguesEl p) html (btnFollowAllLive p) (leagueFilterEl p) (toastEl p).
Definition set_btnFollowAllLive (text : string) (p : Page) : Page :=
  mkPage (leaguesEl p) (followedEl p) text (leagueFilterEl p) (toastEl p).
Definition set_leagueFilterEl (bar : option (list SegBtn)) (p : Page) : Page :=
  mkPage (leaguesEl p) (followedEl p) (btnFollowAllLive p) bar (toastEl p).
Definition set_toastEl (t : option Toast) (p : Page) : Page :=
  mkPage (leaguesEl p) (followedEl p) (btnFollowAllLive p) (leagueFilterEl p) t.

(** [b.getAttribute("data-filter") === active] *)
Definition attr_is (attr : option string) (active : string) : bool :=
  match attr with
  | Some a => a =? active
  | None => false
  end.

Definition renderFilterControls (active : string) : M unit :=
  modify (fun w =>
    match leagueFilterEl (page w) with
    | None => w
    | Some bar =>
        set_page
          (set_leagueFilterEl
             (Some (map (fun b => mkSegBtn (data_filter b)
                                           (attr_is (data_filter b) active)) bar))
             (page w)) w
    end).

Definition quickActionLabel (data : Snapshot) : string :=
  let liveCount := List.length (filter (fun m : TaggedMatch => is_live m) (allMatches data)) in
  if (0 <? liveCount)%nat
  then "Follow all live (" ++ Js.nat_to_string liveCount ++ ")"
  else "Follow all live".

Definition renderQuickActions : M unit :=
  modify (fun w =>
    set_page (set_btnFollowAllLive (quickActionLabel (LIVE_DATA w)) (page w)) w).

Definition renderFollowed (followed : JsSet) : M unit :=
  modify (fun w =>
    set_page (set_followedEl (followedHtml (LIVE_DATA w) followed) (page w)) w).

Definition renderLeagues (followed : JsSet) (filter_ : string) : M unit :=
  modify (fun w =>
    set_page (set_leaguesEl (leaguesHtml (LIVE_DATA w) followed filter_) (page w)) w).

Definition renderPinnedWindow (followed : JsSet) : M unit :=
  (win <- gets pipWin ;;
   match win with
   | None => ret tt
   | Some pw =>
       if closed pw then ret tt
       else match pipList pw with
            | None => ret tt
            | Some _ =>
                html <- (fun w => liftR (pinnedHtml (LIVE_DATA w) followed) w) ;;
                modify (set_pipWin (Some (mkPip (closed pw) (Some html))))
            end
   end)%js.

Definition render : M unit :=
  (modify (log EvRender) ;;;
   followed <- loadFollowedSet ;;
   filter_ <- loadLeagueFilter ;;
   renderFilterControls filter_ ;;;
   renderQuickActions ;;;
   renderFollowed followed ;;;
   renderLeagues followed filter_ ;;;
   renderPinnedWindow followed)%js.

(** [toggleFollow(matchId, shouldFollow)] *)
Definition toggleFollow (matchId : JsVal) (shouldFollow : bool) : M unit :=
  (set <- loadFollowedSet ;;
   let set' := if shouldFollow then set_add set matchId else set_delete set matchId in
   saveFollowedSet set' ;;;
   render)%js.

(** [toast(msg)]; the timer that hides the toast again is a later event. *)
Definition toast (msg : string) : M unit :=
  modify (fun w =>
    match toastEl (page w) with
    | None => w
    | Some _ => set_page (set_toastEl (Some (mkToast msg true)) (page w)) w
    end).

(** ** The poller *)

(** What [await fetch("/api/scores")] and [await res.json()] come back
    with: the request is rejected (transport failure), or a response
    arrives with a status and a body that is JSON ([Some]) or not. *)
Inductive Fetched : Type :=
| Rejected (msg : string)
| Responded (http_status : Z) (body : option Json).

(** [res.ok]: the status is in the range 200-299. *)
Definition res_ok (http_status : Z) : bool :=
  ((200 <=? http_status) && (http_status <=? 299))%Z.

(** [e.message] *)
Definition message (e : Exn) : string :=
  match e with
  | TransportError msg => msg
  | ApiError st => "API error " ++ Js.num_to_string st
  | SyntaxError => "Unexpected token in JSON"
  | TypeError what => what
  end.

Definition counts (data : Snapshot) : list (string * nat) :=
  map (fun entry => (fst entry, List.length (snd entry))) data.

Section Poller.
Context {host : Host}.

(** [fetchScores], from the moment its two [await]s have settled with
    [res]: before that it neither reads nor writes any state, so the world
    it runs in is the one at that moment. *)
Definition fetchScores (res : Fetched) : M unit :=
  match res with
  | Rejected msg => throw (TransportError msg)
  | Responded http_status body =>
      if negb (res_ok http_status) then throw (ApiError http_status)
      else
        (data <- liftR (match body with
                        | Some j => Ok j
                        | None => Err SyntaxError
                        end) ;;
         next <- liftR (mergeSnapshot (J data)) ;;
         modify (set_LIVE_DATA next) ;;;
         modify (fun w => log (EvConsoleLog (counts (LIVE_DATA w))) w) ;;;
         render)%js
  end.

(** The [catch] block of [run]:
    [console.error(...); toast?.(e?.message || "Fetch failed")]. *)
Definition reportFailure (e : Exn) : M unit :=
  (modify (log (EvConsoleError e)) ;;;
   toast (if negb (message e =? "") then message e else "Fetch failed"))%js.

(** [run] of [startPolling]: one poll cycle. *)
Definition run (res : Fetched) : M unit :=
  try_catch (fetchScores res) reportFailure.

(** [startPolling]: the first cycle and then one per tick of the timer,
    each with what the network answers at that time. *)
Fixpoint startPolling (answers : list Fetched) : M unit :=
  match answers with
  | [] => ret tt
  | res :: later => (run res ;;; startPolling later)%js
  end.

End Poller.

(** How often [render] has been called. *)
Definition renders (w : World) : nat :=
  List.length (filter (fun e => match e with EvRender => true | _ => false end) (trace w)).

(** ** A host for running examples: UTC clock, ISO texts only

    [utc_parse] reads the form [YYYY-MM-DDTHH:mm:ssZ] of the ECMAScript date
    time format and nothing else; [utc_hhmm] prints the time of day in
    UTC. *)

Definition digit (c : ascii) : option Z :=
  let n := nat_of_ascii c in
  if ((48 <=? n) && (n <=? 57))%nat then Some (Z.of_nat (n - 48)) else None.

Fixpoint number (s : string) (acc : Z) : option Z :=
  match s with
  | EmptyString => Some acc
  | String c rest =>
      match digit c with
      | Some d => number rest (10 * acc + d)%Z
      | None => None
      end
  end.

(** Days from 1970-01-01 to the given civil date. *)
Definition days_from_civil (y m d : Z) : Z :=
  let y' := (if m <=? 2 then y - 1 else y)%Z in
  let era := (y' / 400)%Z in
  let yoe := (y' - era * 400)%Z in
  let mp := ((m + 9) mod 12)%Z in
  let doy := ((153 * mp + 2) / 5 + d - 1)%Z in
  let doe := (yoe * 365 + yoe / 4 - yoe / 100 + doy)%Z in
  (era * 146097 + doe - 719468)%Z.

Definition utc_parse (s : string) : option Z :=
  if negb (Nat.eqb (String.length s) 20) then None
  else if negb ((substring 4 1 s =? "-") && (substring 7 1 s =? "-")
                && (substring 10 1 s =? "T") && (substring 13 1 s =? ":")
                && (substring 16 1 s =? ":") && (substring 19 1 s =? "Z"))
  then None
  else
    match number (substring 0 4 s) 0, number (substring 5 2 s) 0,
          number (substring 8 2 s) 0, number (substring 11 2 s) 0,
          number (substring 14 2 s) 0, number (substring 17 2 s) 0 with
    | Some y, Some mo, Some d, Some h, Some mi, Some sec =>
        if ((1 <=? mo) && (mo <=? 12) && (1 <=? d) && (d <=? 31)
            && (h <=? 23) && (mi <=? 59) && (sec <=? 59))%Z
        then Some ((((days_from_civil y mo d * 24 + h) * 60 + mi) * 60 + sec) * 1000)%Z
        else None
    | _, _, _, _, _, _ => None
    end.

Definition two_digits (n : Z) : string :=
  (if (n <? 10)%Z then "0" else "") ++ Js.num_to_string n.

Definition utc_hhmm (t : Z) : string :=
  two_digits ((t / 3600000) mod 24)%Z ++ ":" ++ two_digits ((t / 60000) mod 60)%Z.

Definition utcHost : Host := {|
  Date_parse := utc_parse;
  toLocaleTimeString := utc_hhmm
|}.

(** ** The merger of the older revision of the script

    The older revision reads the feed without the guards of the current one:
    [data.leagues], [leagues[key]] and [bucket.live] are plain property
    reads, the list is [(bucket.live && bucket.live.length) ? bucket.live :
    (bucket.upcoming || [])], and its [toMatchModel] keeps no team names and
    no kickoff. *)
Module Legacy.

Record Match : Type := mkMatch {
  id : JsVal;
  home : JsVal;
  away : JsVal;
  homeGoals : JsVal;
  awayGoals : JsVal;
  status : Status;
  minute : JsVal
}.

(** [v.length] *)
Definition length_of (v : JsVal) : Result JsVal :=
  match v with
  | J (JArr l) => Ok (J (JNum (Z.of_nat (List.length l))))
  | J (JStr s) => Ok (J (JNum (Z.of_nat (String.length s))))
  | _ => Js.prop v "length"
  end.

Section Merger.
Context {host : Host}.

Definition toMatchModel (f : JsVal) : Result Match :=
  (let? homeGoals_ := Js.prop f "homeGoals" in
   let hg := Js.coalesce homeGoals_ (JNum 0) in
   let? awayGoals_ := Js.prop f "awayGoals" in
   let ag := Js.coalesce awayGoals_ (JNum 0) in
   let? isLive := Js.prop f "isLive" in
   let status := if Js.truthy isLive then LIVE else UPCOMING in
   let? meta :=
     (if Js.truthy isLive
      then (let? f_minute := Js.prop f "minute" in Ok (Js.or f_minute (JStr "")))
      else
        (let? kickoffISO := Js.prop f "kickoffISO" in
         let? shown := isoToLocalKickoff kickoffISO in
         if negb (shown =? "")
         then (let? kickoffISO' := Js.prop f "kickoffISO" in
               let? shown' := isoToLocalKickoff kickoffISO' in
               Ok (J (JStr ("KO " ++ shown'))))
         else Ok (J (JStr "")))) in
   let? f_id := Js.prop f "id" in
   let? f_home := Js.prop f "home" in
   let? f_away := Js.prop f "away" in
   Ok (mkMatch f_id f_home f_away hg ag status meta))%result.

Definition pickList (bucket : JsVal) : Result JsVal :=
  (let? live := Js.prop bucket "live" in
   let? cond := (if Js.truthy live then length_of live else Ok live) in
   if Js.truthy cond then Ok live
   else
     let? upcoming := Js.prop bucket "upcoming" in
     Ok (Js.or upcoming (J (JArr []))))%result.

(** [list.map(toMatchModel)]: only an array has [map]. *)
Definition call_map (lst : JsVal) : Result (list Match) :=
  match lst with
  | J (JArr items) => mapR (fun f => toMatchModel (J f)) items
  | undefined | J JNull => Err (TypeError "Cannot read properties of null/undefined: map")
  | _ => Err (TypeError "list.map is not a function")
  end.

Definition mergeLeague (leagues : JsVal) (key : string) : Result (list Match) :=
  (let? bucket := Js.prop leagues key in
   let? lst := pickList bucket in
   call_map lst)%result.

Fixpoint mergeKeys (leagues : JsVal) (keys : list string)
  (next : list (string * list Match)) : Result (list (string * list Match)) :=
  match keys with
  | [] => Ok next
  | key :: rest =>
      (let? ms := mergeLeague leagues key in
       mergeKeys leagues rest (obj_set next key ms))%result
  end.

Definition mergeSnapshot (data : JsVal) : Result (list (string * list Match)) :=
  (let? leagues := Js.prop data "leagues" in
   mergeKeys leagues LEAGUE_KEYS [])%result.

End Merger.
End Legacy.

(** ** The merger in the words of the specification

    For each of the fixed league ids: the live array if it is a non-empty
    array, otherwise the upcoming array if there is one, otherwise the
    empty list; each record normalised and stamped with its league. *)

Definition bucketOf (data : JsVal) (key : string) : JsVal :=
  Js.optprop (Js.optprop data "leagues") key.

Definition chosenList (live upcoming : JsVal) : list Json :=
  match live with
  | J (JArr (f :: rest)) => f :: rest
  | _ =>
      match upcoming with
      | J (JArr items) => items
      | _ => []
      end
  end.

Definition chosenFor (data : JsVal) (key : string) : list Json :=
  chosenList (Js.optprop (bucketOf data key) "live")
             (Js.optprop (bucketOf data key) "upcoming").

Definition spec_merge {host : Host} (data : JsVal) : Result Snapshot :=
  (let? pl := mapR (stamp "pl") (chosenFor data "pl") in
   let? ch := mapR (stamp "ch") (chosenFor data "ch") in
   let? l1 := mapR (stamp "l1") (chosenFor data "l1") in
   let? l2 := mapR (stamp "l2") (chosenFor data "l2") in
   Ok [("pl", pl); ("ch", ch); ("l1", l1); ("l2", l2)])%result.

(** A bucket the feed got wrong: not there, not an object, or an object
    with neither [live] nor [upcoming] an array. *)
Definition malformed (bucket : JsVal) : bool :=
  match bucket with
  | J (JObj _) =>
      negb (Js.isArray (Js.optprop bucket "live"))
      && negb (Js.isArray (Js.optprop bucket "upcoming"))
  | _ => true
  end.

(** The persisted Followed Set: what [loadFollowedSet] reads back. *)
Definition followedOf (w : World) : JsSet :=
  match loadFollowedSet w with
  | Done s _ => s
  | Raised _ _ => []
  end.

Definition filterOf (w : World) : string :=
  match loadLeagueFilter w with
  | Done s _ => s
  | Raised _ _ => ""
  end.

(** What the two surfaces show: the three regions and the filter bar of the
    page, and the list of the pinned window. *)
Definition surfaces (w : World)
  : string * string * string * option (list SegBtn) * option PipWindow :=
  (leaguesEl (page w), followedEl (page w), btnFollowAllLive (page w),
   leagueFilterEl (page w), pipWin w).

(** The filter bar after [renderFilterControls(active)]. *)
Definition highlighted (active : string) (bar : option (list SegBtn))
  : option (list SegBtn) :=
  match bar with
  | None => None
  | Some l =>
      Some (map (fun b => mkSegBtn (data_filter b) (attr_is (data_filter b) active)) l)
  end.

(** The world once [render] has written the page, before it turns to the
    pinned window. *)
Definition painted (w : World) : World :=
  mkWorld (LIVE_DATA w) (localStorage w)
          (mkPage (leaguesHtml (LIVE_DATA w) (followedOf w) (filterOf w))
                  (followedHtml (LIVE_DATA w) (followedOf w))
                  (quickActionLabel (LIVE_DATA w))
                  (highlighted (filterOf w) (leagueFilterEl (page w)))
                  (toastEl (page w)))
          (pipWin w) (trace w ++ [EvRender])%list.

(** The pinned window is open and has its list element. *)
Definition pinned_open (w : World) : bool :=
  match pipWin w with
  | Some pw => negb (closed pw) && match pipList pw with Some _ => true | None => false end
  | None => false
  end.

(** The fetch of a poll cycle raises: the request is rejected or the
    response is not a 2xx one. *)
Definition fetch_failed (res : Fetched) : Prop :=
  match res with
  | Rejected _ => True
  | Responded http_status _ => res_ok http_status = false
  end.

(** No two elements of the list are the same value: the shape of every
    [Set] spread into an array. *)
Fixpoint distinct (s : JsSet) : Prop :=
  match s with
  | [] => True
  | x :: rest => set_has rest x = false /\ distinct rest
  end.

Definition defined (v : JsVal) : Prop := v <> undefined.

(** Set equality of two follow sets. *)
Definition same_set (a b : JsSet) : Prop :=
  forall x, set_has a x = set_has b x.

(** Values that can be a match id in the store: what a [data-follow]
    attribute or a JSON scalar gives. *)
Definition is_key (v : JsVal) : bool :=
  match v with
  | J JNull | J (JBool _) | J (JNum _) | J (JStr _) => true
  | _ => false
  end.

(** ** Sample data for the closed examples *)
Module Sample.

Definition m1 : Json :=
  JObj [("id", JStr "m1"); ("home", JStr "Arsenal"); ("away", JStr "Chelsea FC");
        ("homeGoals", JNum 1); ("awayGoals", JNum 0); ("isLive", JBool true);
        ("minute", JStr "23")].

Definition m2 : Json :=
  JObj [("id", JStr "m2"); ("homeTeam", JStr " Leyton Orient "); ("away", JStr "Wigan");
        ("kickoffISO", JStr "2024-03-09T15:00:00Z")].

Definition m3 : Json :=
  JObj [("id", JStr "m3"); ("home", JStr "Luton"); ("away", JStr "Derby County");
        ("kickoffISO", JStr "not a date")].

(** Premier League with a live and an upcoming match, League One with an
    upcoming one, Championship with a number where the bucket should be,
    League Two missing. *)
Definition feed : Json :=
  JObj [("leagues",
         JObj [("pl", JObj [("live", JArr [m1]); ("upcoming", JArr [m3])]);
               ("l1", JObj [("upcoming", JArr [m2])]);
               ("ch", JNum 5)])].

Definition emptySnapshot : Snapshot := [("pl", []); ("ch", []); ("l1", []); ("l2", [])].

Definition page0 : Page :=
  mkPage "" "" ""
         (Some [mkSegBtn (Some "all") false; mkSegBtn (Some "pl") false;
                mkSegBtn (Some "ch") false])
         (Some (mkToast "" false)).

(** The page as loaded, with [m1] and the vanished [m9] followed and the
    pinned window open. *)
Definition w0 : World :=
  mkWorld emptySnapshot
          (mkStorage (Some (JsonText (JArr [JStr "m1"; JStr "m9"]))) None)
          page0 (Some (mkPip false (Some ""))) [].

Definition next0 : Snapshot :=
  match @mergeSnapshot utcHost (J feed) with
  | Ok next => next
  | Err _ => []
  end.

(** The same page after a first successful poll. *)
Definition w1 : World := final (@run utcHost (Responded 200 (Some feed)) w0).


End Sample.

(** ** The handlers of the page *)

(** The click handler of [#btnFollowAllLive]. *)
Definition onFollowAllLive : M unit :=
  (live <- gets (fun w => filter (fun m : TaggedMatch => is_live m)
                                 (allMatches (LIVE_DATA w))) ;;
   if Nat.eqb (List.length live) 0
   then toast "No live matches right now"
   else
     set <- loadFollowedSet ;;
     let set' := fold_left (fun s (m : TaggedMatch) => set_add s (id m)) live set in
     saveFollowedSet set' ;;;
     toast ("Following " ++ Js.nat_to_string (List.length live) ++ " live match"
            ++ (if Nat.eqb (List.length live) 1 then "" else "es")) ;;;
     render)%js.

(** The click handler of the filter bar.  [target] is the [data-filter]
    attribute of the closest element that has one ([None] when the click
    was not on such an element). *)
Definition onFilterClick (target : option string) : M unit :=
  match target with
  | None => ret tt
  | Some val => (saveLeagueFilter val ;;; render)%js
  end.

(** A text every character of which the HTML parser takes literally
    inside a double-quoted attribute value: no double quote (it ends the
    value), no ampersand (it may start a character reference), no CR (the
    parser reads it as LF) and no NUL (read as U+FFFD). *)
Fixpoint attr_safe (s : string) : bool :=
  match s with
  | EmptyString => true
  | String c rest =>
      negb (Ascii.eqb c "034"%char) && negb (Ascii.eqb c "&"%char)
      && negb (Ascii.eqb c "013"%char) && negb (Ascii.eqb c "000"%char)
      && attr_safe rest
  end.

(** What [getAttribute] answers for an attribute written as [name="text"]
    in markup assigned to [innerHTML]: the text itself when it is
    [attr_safe].  What the parser makes of any other text is not modelled
    ([None]). *)
Definition written_attribute (text : string) : option string :=
  if attr_safe text then Some text else None.

(** The [data-follow] (or [data-unfollow]) attribute of the button in the
    row [renderMatchRow] writes for [m]: that of the text of [m.id].  There
    is no row when the id has no text. *)
Definition row_attribute (m : Match) : option string :=
  match Js.ToString (id m) with
  | Ok text => written_attribute text
  | Err _ => None
  end.

(** The handlers [renderLeagues] binds to the buttons of the rows, on a
    button whose attribute reads [attr]:
    [toggleFollow(btn.getAttribute("data-follow"), true)] and
    [toggleFollow(btn.getAttribute("data-unfollow"), false)]. *)
Definition onRowFollow (attr : string) : M unit :=
  toggleFollow (J (JStr attr)) true.
Definition onRowUnfollow (attr : string) : M unit :=
  toggleFollow (J (JStr attr)) false.

(** ** The pinned window's buttons

    Besides the world, the two handlers use [btnClosePin.disabled] and
    [alert]. *)
Record Browser : Type := mkBrowser {
  world : World;
  btnClosePin_disabled : bool;
  alerts : list string
}.

(** What the click on [#btnOpenPin] meets: no [documentPictureInPicture] in
    [window], a rejected [requestWindow], or a window. *)
Inductive PipRequest : Type :=
| NoCapability
| RequestRejected (e : Exn)
| WindowGranted.

Definition could_not_open : string :=
  "Could not open pinned window. Make sure this was triggered by a click and you're on localhost/https.".

(** The click handler of [#btnClosePin]; the [pagehide] handler of the
    window does the same two assignments. *)
Definition onClosePin (b : Browser) : Browser :=
  mkBrowser (set_pipWin None (world b)) true (alerts b).

Definition onPagehide (b : Browser) : Browser :=
  mkBrowser (set_pipWin None (world b)) true (alerts b).

(** ** The painters with their exceptions

    A template literal converts every value it interpolates with
    [Js.ToString], which throws for a value that does not convert to a
    primitive; the painters above write the text of the values and are the
    script's painters on snapshots whose values all have one
    ([printable_snapshot] below).  The painters of this module also stop
    where the script stops: each conversion is made in the order of the
    template, and an exception leaves the painter before it assigns
    [innerHTML]. *)
Module Throwing.

Definition formatScoreline (m : Match) : Result string :=
  match status m with
  | LIVE =>
      (let? hg := Js.ToString (homeGoals m) in
       let? ag := Js.ToString (awayGoals m) in
       Ok (hg ++ " : " ++ ag))%result
  | UPCOMING => Ok "vs"
  end.

Definition formatRightMeta (m : Match) : Result string :=
  match status m with
  | LIVE => (let? mi := Js.ToString (minute m) in Ok (mi ++ "'"))%result
  | UPCOMING => Ok ("KO " ++ kickoff m)
  end.

Definition followedPill (m : TaggedMatch) : Result string :=
  (let? home_ := Js.ToString (shownHome m) in
   let? score := formatScoreline m in
   let? away_ := Js.ToString (shownAway m) in
   let left := home_ ++ " " ++ score ++ " " ++ away_ in
   let? right := formatRightMeta m in
   let? league := Js.ToString (leagueName m) in
   let? id_ := Js.ToString (id m) in
   Ok (q "
      <div class='pill'>
        <div>
          <b>" ++ left ++ q "</b>
          <div class='tiny'>" ++ league ++ " • " ++ right ++ q "</div>
        </div>
        <button class='pill-x pill-x-danger' data-unfollow='" ++ id_
  ++ q "' title='Unfollow'>×</button>
      </div>
    "))%result.

Definition followedHtml (data : Snapshot) (followed : JsSet) : Result string :=
  let matches := followedMatches data followed in
  if Nat.eqb (List.length matches) 0
  then Ok (q "<div class='empty'>No followed matches. Tap “Follow” on a match to pin it.</div>")
  else (let? pills := mapR followedPill matches in Ok (Js.join "" pills))%result.

Definition renderMatchRow (m : Match) (lg : string * string) (followed : JsSet)
  : Result string :=
  (let isFollowed := set_has followed (id m) in
   let homeTeam_ := shownHome m in
   let awayTeam_ := shownAway m in
   let? minute_ := Js.ToString (minute m) in
   let meta :=
     match status m with
     | LIVE => q "<span class='status-live'>LIVE</span> • " ++ minute_
     | UPCOMING => minute_
     end in
   let? home_ := Js.ToString homeTeam_ in
   let? score := formatScoreline m in
   let? away_ := Js.ToString awayTeam_ in
   let? id_ := Js.ToString (id m) in
   Ok (q "
    <div class='match'>
      <div class='left'>
        <div class='row'>
          <span class='team'>" ++ home_ ++ q "</span>
          <span class='score'>" ++ score ++ q "</span>
          <span class='team'>" ++ away_ ++ q "</span>
        </div>
        <div class='meta'>" ++ meta ++ q "</div>
      </div>
        <div class='controls'>
            " ++ (if isFollowed
                  then q "<button class='smallbtn smallbtn-danger' data-unfollow='"
                       ++ id_ ++ q "'>Unfollow</button>"
                  else q "<button class='smallbtn' data-follow='"
                       ++ id_ ++ q "'>Follow</button>") ++ q "
        </div>
    </div>
  "))%result.

Definition leagueSection (data : Snapshot) (followed : JsSet) (lg : string * string)
  : Result string :=
  let matches := match Js.assoc (fst lg) data with
                 | Some l => l
                 | None => []
                 end in
  let live := filter is_live matches in
  let upcoming := filter is_upcoming matches in
  let listToShow :=
    if negb (Nat.eqb (List.length live) 0) then live
    else if negb (Nat.eqb (List.length upcoming) 0) then upcoming else [] in
  let badge :=
    if negb (Nat.eqb (List.length live) 0)
    then Js.nat_to_string (List.length live) ++ " live"
    else if negb (Nat.eqb (List.length upcoming) 0)
         then Js.nat_to_string (List.length upcoming) ++ " upcoming"
         else "No live games" in
  (let? body :=
     (if negb (Nat.eqb (List.length listToShow) 0)
      then (let? rows := mapR (fun m => renderMatchRow m lg followed) listToShow in
            Ok (q "<div class='matches'>" ++ Js.join "" rows ++ "</div>"))
      else Ok (q "<div class='matches'><div class='empty'>No live games today</div></div>")) in
   Ok (q "
      <section class='league league--" ++ fst lg ++ q "'>
        <div class='league-head'>
          <h3>" ++ snd lg ++ q "</h3>
          <div class='badge'>" ++ badge ++ q "</div>
        </div>
        " ++ body ++ "
      </section>
    "))%result.

Definition leaguesHtml (data : Snapshot) (followed : JsSet) (filter_ : string)
  : Result string :=
  (let? sections := mapR (leagueSection data followed) (leaguesToShow filter_) in
   Ok (Js.join "" sections))%result.

Definition pinnedRow (m : TaggedMatch) : Result string :=
  (let? homeAb := getAbbr (home m) in
   let? score := formatScoreline m in
   let? awayAb := getAbbr (away m) in
   let left := homeAb ++ " " ++ score ++ " " ++ awayAb in
   let? right := formatRightMeta m in
   Ok (q "<div class='row'><div class='left'>" ++ left
       ++ q "</div><div class='right'>" ++ right ++ "</div></div>"))%result.

Definition pinnedHtml (data : Snapshot) (followed : JsSet) : Result string :=
  let matches := followedMatches data followed in
  if Nat.eqb (List.length matches) 0
  then Ok (q "<div class='empty'>No followed matches</div>")
  else (let? rows := mapR pinnedRow matches in Ok (Js.join "" rows))%result.

Definition renderFollowed (followed : JsSet) : M unit :=
  (html <- (fun w => liftR (followedHtml (LIVE_DATA w) followed) w) ;;
   modify (fun w => set_page (set_followedEl html (page w)) w))%js.

Definition renderLeagues (followed : JsSet) (filter_ : string) : M unit :=
  (html <- (fun w => liftR (leaguesHtml (LIVE_DATA w) followed filter_) w) ;;
   modify (fun w => set_page (set_leaguesEl html (page w)) w))%js.

Definition renderPinnedWindow (followed : JsSet) : M unit :=
  (win <- gets pipWin ;;
   match win with
   | None => ret tt
   | Some pw =>
       if closed pw then ret tt
       else match pipList pw with
            | None => ret tt
            | Some _ =>
                html <- (fun w => liftR (pinnedHtml (LIVE_DATA w) followed) w) ;;
                modify (set_pipWin (Some (mkPip (closed pw) (Some html))))
            end
   end)%js.

Definition render : M unit :=
  (modify (log EvRender) ;;;
   followed <- loadFollowedSet ;;
   filter_ <- loadLeagueFilter ;;
   renderFilterControls filter_ ;;;
   renderQuickActions ;;;
   renderFollowed followed ;;;
   renderLeagues followed filter_ ;;;
   renderPinnedWindow followed)%js.

(** The click handler of [#btnClearFollows]. *)
Definition onClearFollows : M unit :=
  (saveFollowedSet [] ;;;
   toast "Cleared followed matches" ;;;
   render)%js.

(** The click handler of [#btnOpenPin], from the moment [requestWindow] has
    settled.  The body written into the new window holds an empty
    [#pipList]. *)
Definition onOpenPin (r : PipRequest) (b : Browser) : Browser :=
  match r with
  | NoCapability =>
      mkBrowser (world b) (btnClosePin_disabled b)
                (alerts b ++ ["Document PiP not supported. Use Chrome."])%list
  | RequestRejected e =>
      mkBrowser (log (EvConsoleError e) (world b)) (btnClosePin_disabled b)
                (alerts b ++ [could_not_open])%list
  | WindowGranted =>
      match render (set_pipWin (Some (mkPip false (Some ""))) (world b)) with
      | Done _ w' => mkBrowser w' false (alerts b)
      | Raised e w' =>
          mkBrowser (log (EvConsoleError e) w') false (alerts b ++ [could_not_open])%list
      end
  end.

End Throwing.

(** ** The painters of the older revision

    The objects in [LIVE_DATA] of the older revision are the ones its
    [toMatchModel] returns, with exactly these seven properties; reading any
    other property of them gives [undefined]. *)
Module LegacyPaint.

Definition read (m : Legacy.Match) (k : string) : JsVal :=
  if k =? "id" then Legacy.id m
  else if k =? "home" then Legacy.home m
  else if k =? "away" then Legacy.away m
  else if k =? "homeGoals" then Legacy.homeGoals m
  else if k =? "awayGoals" then Legacy.awayGoals m
  else if k =? "status"
       then J (JStr (match Legacy.status m with LIVE => "LIVE" | UPCOMING => "UPCOMING" end))
  else if k =? "minute" then Legacy.minute m
  else undefined.

Definition formatScoreline (m : Legacy.Match) : string :=
  if Js.strict_eq (read m "status") (J (JStr "LIVE"))
  then Js.to_string (read m "homeScore") ++ " : " ++ Js.to_string (read m "awayScore")
  else "vs".

Definition formatRightMeta (m : Legacy.Match) : string :=
  if Js.strict_eq (read m "status") (J (JStr "LIVE"))
  then Js.to_string (read m "minute") ++ "'"
  else if Js.strict_eq (read m "status") (J (JStr "UPCOMING"))
       then "KO " ++ Js.to_string (read m "kickoff")
       else "".

End LegacyPaint.

(** The current match object seen with the properties the older revision
    keeps. *)
Definition as_legacy (m : Match) : Legacy.Match :=
  Legacy.mkMatch (id m) (home m) (away m) (homeGoals m) (awayGoals m)
                 (status m) (minute m).

(** ** Auxiliary notions for the statements *)

(** A match every property of which has a text: the painters put the id,
    the goals, the minute, the league name and, for want of a team name,
    [home] and [away] into template literals, which throws for a value
    that does not convert.  The painters above compute the markup of
    snapshots whose matches are of this kind. *)
Definition printable_match (m : Match) : bool :=
  Js.printable (id m) && Js.printable (home m) && Js.printable (away m)
  && Js.printable (homeGoals m) && Js.printable (awayGoals m)
  && Js.printable (minute m) && Js.printable (leagueName m).

Definition printable_snapshot (data : Snapshot) : bool :=
  forallb (fun entry : string * list Match => forallb printable_match (snd entry)) data.

(** The world once [render] has read the store and written the filter bar
    and the quick action, before it paints the followed region. *)
Definition prepared (w : World) : World :=
  mkWorld (LIVE_DATA w) (localStorage w)
          (mkPage (leaguesEl (page w)) (followedEl (page w))
                  (quickActionLabel (LIVE_DATA w))
                  (highlighted (filterOf w) (leagueFilterEl (page w)))
                  (toastEl (page w)))
          (pipWin w) (trace w ++ [EvRender])%list.

Definition starts_with_space (s : string) : bool :=
  match s with
  | String c _ => Js.is_space c
  | EmptyString => false
  end.

Definition ends_with_space (s : string) : bool :=
  starts_with_space (Js.rev_string s "").

(** The first truthy of three values, else the empty text:
    [a || b || c || ""]. *)
Definition first_truthy (a b c : JsVal) : JsVal :=
  Js.or (Js.or (Js.or a b) c) (J (JStr "")).

Definition is_string (v : JsVal) : bool :=
  match v with
  | J (JStr _) => true
  | _ => false
  end.

(** The snapshot a poll answer installs, if it installs one. *)
Definition installs {host : Host} (res : Fetched) : option Snapshot :=
  match res with
  | Responded st (Some data) =>
      if res_ok st
      then match mergeSnapshot (J data) with
           | Ok next => Some next
           | Err _ => None
           end
      else None
  | _ => None
  end.

(** The snapshot of the last answer that installed one. *)
Fixpoint lastGood {host : Host} (answers : list Fetched) (current : Snapshot) : Snapshot :=
  match answers with
  | [] => current
  | res :: later =>
      lastGood later (match installs res with
                      | Some next => next
                      | None => current
                      end)
  end.

Definition goodAnswers {host : Host} (answers : list Fetched) : nat :=
  List.length (filter (fun res => match installs res with
                                  | Some _ => true
                                  | None => false
                                  end) answers).

(** The number of LIVE matches a league's list holds. *)
Definition liveIn (entry : string * list Match) : nat :=
  List.length (filter is_live (snd entry)).

(** The markup of a league section with a given badge and body, and the
    two bodies: the template of [renderLeagues], for stating what a section
    shows. *)
Definition sectionMarkup (lg : string * string) (badge body : string) : string :=
  q "
      <section class='league league--" ++ fst lg ++ q "'>
        <div class='league-head'>
          <h3>" ++ snd lg ++ q "</h3>
          <div class='badge'>" ++ badge ++ q "</div>
        </div>
        " ++ body ++ "
      </section>
    ".

Definition rowsMarkup (rows : list Match) (lg : string * string) (followed : JsSet)
  : string :=
  q "<div class='matches'>"
  ++ Js.join "" (map (fun m => renderMatchRow m lg followed) rows) ++ "</div>".

Definition noGamesMarkup : string :=
  q "<div class='matches'><div class='empty'>No live games today</div></div>".

(** A feed as the endpoint documents it: [leagues] is an object with a
    bucket object for each of the four leagues, whose [live] and [upcoming]
    are arrays or absent. *)
Definition tidy_field (v : JsVal) : bool :=
  match v with
  | undefined => true
  | J (JArr _) => true
  | _ => false
  end.

Definition tidy_bucket (b : JsVal) : bool :=
  match b with
  | J (JObj _) => tidy_field (Js.optprop b "live") && tidy_field (Js.optprop b "upcoming")
  | _ => false
  end.

Definition tidy_feed (data : JsVal) : bool :=
  match Js.optprop data "leagues" with
  | J (JObj _) => forallb (fun key => tidy_bucket (bucketOf data key)) LEAGUE_KEYS
  | _ => false
  end.

(** More sample data. *)
Module Sample2.

(** A match whose id is a number. *)
Definition m7 : Json :=
  JObj [("id", JNum 7); ("home", JStr "Stockport"); ("away", JStr "Bolton");
        ("isLive", JBool true); ("minute", JStr "61")].

(** A record with the team under [homeName] and padded with blanks, and a
    live flag without goals. *)
Definition m4 : Json :=
  JObj [("id", JStr "m4"); ("homeName", JStr "  Port Vale ");
        ("away", JStr "Crewe"); ("isLive", JNum 1)].

(** A record whose team name is a number. *)
Definition m5 : Json :=
  JObj [("id", JStr "m5"); ("home", JNum 12); ("away", JStr "Barnet")].

(** All four leagues present. *)
Definition fullFeed : Json :=
  JObj [("leagues",
         JObj [("pl", JObj [("live", JArr [Sample.m1]); ("upcoming", JArr [Sample.m3])]);
               ("ch", JObj [("live", JArr []); ("upcoming", JArr [Sample.m2])]);
               ("l1", JObj [("upcoming", JArr [])]);
               ("l2", JObj [("live", JArr [m7])])])].

Definition w2 : World := final (@run utcHost (Responded 200 (Some fullFeed)) Sample.w0).

Definition browser0 : Browser := mkBrowser (set_pipWin None w2) true [].

(** The rows of [m7] and of [Sample.m1] in [w2]. *)
Definition row7 : Match :=
  mkMatch (J (JNum 7)) (J (JStr "Stockport")) (J (JStr "Bolton")) "Stockport" "Bolton"
          (J (JNum 0)) (J (JNum 0)) LIVE (J (JStr "61")) "" (J (JStr "League Two")).

Definition row1 : Match :=
  mkMatch (J (JStr "m1")) (J (JStr "Arsenal")) (J (JStr "Chelsea FC")) "Arsenal"
          "Chelsea FC" (J (JNum 1)) (J (JNum 0)) LIVE (J (JStr "23")) ""
          (J (JStr "Premier League")).

(** A feed that names its teams under [homeTeam] only, with that match
    followed and the pinned window open. *)
Definition feedNames : Json :=
  JObj [("leagues", JObj [("l1", JObj [("upcoming", JArr [Sample.m2])])])].

Definition w3 : World :=
  final (@run utcHost (Responded 200 (Some feedNames))
           (set_localStorage (mkStorage (Some (JsonText (JArr [JStr "m2"]))) None)
                             Sample.w0)).

End Sample2.

(** * Properties *)

(** ** Values *)

Lemma strict_eq_sym (a b : JsVal) : Js.strict_eq a b = Js.strict_eq b a.
Proof.
  destruct a as [|[]], b as [|[]]; simpl; try reflexivity.
  - destruct b, b0; reflexivity.
  - apply Z.eqb_sym.
  - apply String.eqb_sym.
Qed.

Lemma strict_eq_true (a b : JsVal) : Js.strict_eq a b = true -> a = b.
Proof.
  destruct a as [|[]], b as [|[]]; simpl; try discriminate; try reflexivity; intros E.
  - apply Bool.eqb_prop in E. now subst.
  - apply Z.eqb_eq in E. now subst.
  - apply String.eqb_eq in E. now subst.
Qed.

Lemma strict_eq_key_refl (v : JsVal) : is_key v = true -> Js.strict_eq v v = true.
Proof.
  destruct v as [|[]]; simpl; try discriminate; intros _; try reflexivity.
  - apply Bool.eqb_reflx.
  - apply Z.eqb_refl.
  - apply String.eqb_refl.
Qed.

Lemma prop_defined (f : JsVal) (k : string) :
  Js.nullish f = false -> Js.prop f k = Ok (Js.optprop f k).
Proof.
  unfold Js.optprop. destruct f as [|[]]; simpl; try discriminate; intros _; try reflexivity.
  destruct (Js.assoc k fields); reflexivity.
Qed.

Lemma prop_nullish (f : JsVal) (k : string) :
  Js.nullish f = true -> exists e, Js.prop f k = Err e.
Proof.
  destruct f as [|[]]; simpl; try discriminate; intros _; eexists; reflexivity.
Qed.

Lemma truthy_not_nullish (v : JsVal) : Js.truthy v = true -> Js.nullish v = false.
Proof. destruct v as [|[]]; simpl; try discriminate; reflexivity. Qed.

Lemma optprop_falsy (v : JsVal) (k : string) :
  Js.truthy v = false -> Js.optprop v k = undefined.
Proof.
  destruct v as [|[]]; simpl; try discriminate; reflexivity.
Qed.

Lemma mapR_ok_map {A B C} (fn : A -> Result B) (g : B -> C) (h : A -> C) :
  (forall x y, fn x = Ok y -> g y = h x) ->
  forall l ys, mapR fn l = Ok ys -> map g ys = map h l.
Proof.
  intros Hfn. induction l as [|x l IH]; simpl; intros ys E.
  - injection E as <-. reflexivity.
  - destruct (fn x) as [y|e] eqn:Ex; simpl in E; [|discriminate].
    destruct (mapR fn l) as [ys'|e] eqn:El; simpl in E; [|discriminate].
    injection E as <-. simpl. f_equal; auto.
Qed.

Lemma mapR_length {A B} (fn : A -> Result B) :
  forall l ys, mapR fn l = Ok ys -> List.length ys = List.length l.
Proof.
  induction l as [|x l IH]; simpl; intros ys E.
  - injection E as <-. reflexivity.
  - destruct (fn x) as [y|e]; simpl in E; [|discriminate].
    destruct (mapR fn l) as [ys'|e]; simpl in E; [|discriminate].
    injection E as <-. simpl. f_equal; auto.
Qed.

Lemma mapR_stops {A B} (fn : A -> Result B) (l : list A) (x : A) :
  In x l -> (exists e, fn x = Err e) -> exists e, mapR fn l = Err e.
Proof.
  intros Hin [e He]. induction l as [|y l IH]; [contradiction|].
  cbn [mapR]. destruct (fn y) as [b|e'] eqn:Ey; cbn [rbind]; [|now exists e'].
  destruct Hin as [->|Hin]; [congruence|].
  destruct (IH Hin) as [e'' ->]. now exists e''.
Qed.

(** Proof steps that come back: the date and the two [trim()] calls of
    [toMatchModel], and the four leagues of the merge loop. *)
Ltac both_trims_ok :=
  destruct (Js.call_trim _); [|discriminate]; cbn [rbind];
  destruct (Js.call_trim _); [|discriminate]; cbn [rbind].

Ltac kickoff_ok :=
  let shown := fresh "shown" in
  let Eshown := fresh "Eshown" in
  destruct (isoToLocalKickoff _) as [shown|] eqn:Eshown; [|discriminate]; cbn [rbind].

Ltac league_ok H name :=
  match type of H with
  | context [mapR (stamp name) ?l] =>
      let E := fresh "Eleague" in
      destruct (mapR (stamp name) l) eqn:E; [|discriminate]; cbn [rbind] in H
  end.

(** ** The normaliser *)

Section NormaliserFacts.
Context {host : Host}.

(** On a record that is not [null], [toMatchModel] can only stop at the
    date of the kickoff or at one of the two [trim()] calls. *)
Lemma toMatchModel_defined (f : JsVal) :
  Js.nullish f = false ->
  toMatchModel f =
  (let isLive := Js.optprop f "isLive" in
   let? kickoff_ := isoToLocalKickoff (Js.optprop f "kickoffISO") in
   let? homeTeam_ :=
     Js.call_trim (Js.or (Js.or (Js.or (Js.optprop f "homeTeam") (Js.optprop f "homeName"))
                                (Js.optprop f "home")) (JStr "")) in
   let? awayTeam_ :=
     Js.call_trim (Js.or (Js.or (Js.or (Js.optprop f "awayTeam") (Js.optprop f "awayName"))
                                (Js.optprop f "away")) (JStr "")) in
   Ok (mkMatch (Js.optprop f "id") (Js.optprop f "home") (Js.optprop f "away")
         homeTeam_ awayTeam_
         (Js.coalesce (Js.optprop f "homeGoals") (JNum 0))
         (Js.coalesce (Js.optprop f "awayGoals") (JNum 0))
         (if Js.truthy isLive then LIVE else UPCOMING)
         (if Js.truthy isLive then Js.or (Js.optprop f "minute") (JStr "")
          else if negb (kickoff_ =? "") then J (JStr ("KO " ++ kickoff_)) else J (JStr ""))
         kickoff_ undefined))%result.
Proof.
  intros Hf. unfold toMatchModel.
  rewrite !(prop_defined f _ Hf). cbn [rbind].
  destruct (isoToLocalKickoff _); [|reflexivity]. cbn [rbind].
  destruct (Js.call_trim _); [|reflexivity]. cbn [rbind].
  destruct (Js.call_trim _); reflexivity.
Qed.

Lemma toMatchModel_null (f : JsVal) :
  Js.nullish f = true -> exists e, toMatchModel f = Err e.
Proof.
  intros Hf. unfold toMatchModel.
  destruct (prop_nullish f "homeGoals" Hf) as [e ->]. now exists e.
Qed.

Lemma toMatchModel_id (f : JsVal) (m : Match) :
  toMatchModel f = Ok m -> id m = Js.optprop f "id".
Proof.
  destruct (Js.nullish f) eqn:Hf.
  - destruct (toMatchModel_null f Hf) as [e ->]. discriminate.
  - rewrite (toMatchModel_defined f Hf). cbn zeta. kickoff_ok. both_trims_ok.
    intros E. injection E as <-. reflexivity.
Qed.

Lemma stamp_id (key : string) (f : Json) (m : Match) :
  stamp key f = Ok m -> id m = Js.optprop (J f) "id".
Proof.
  unfold stamp. destruct (toMatchModel (J f)) as [m0|e] eqn:E; [|discriminate].
  cbn [rbind]. intros E'. injection E' as <-.
  apply toMatchModel_id in E. exact E.
Qed.

(** ** The merger *)

Lemma leagues_or_empty (v : JsVal) (key : string) :
  Js.optprop (Js.or v (J (JObj []))) key = Js.optprop v key.
Proof.
  unfold Js.or. destruct (Js.truthy v) eqn:T; [reflexivity|].
  rewrite (optprop_falsy v key T). reflexivity.
Qed.

Lemma pickList_chosen (b : JsVal) :
  pickList (Js.or b (J defaultBucket))
  = Ok (chosenList (Js.optprop b "live") (Js.optprop b "upcoming")).
Proof.
  unfold Js.or. destruct (Js.truthy b) eqn:T.
  - unfold pickList.
    rewrite !(prop_defined b _ (truthy_not_nullish b T)). cbn [rbind].
    destruct (Js.optprop b "live") as [|[| | | |[|x l]|]]; cbn;
      destruct (Js.optprop b "upcoming") as [|[]]; reflexivity.
  - rewrite !(optprop_falsy b _ T). reflexivity.
Qed.

Lemma mergeLeague_chosen (data : JsVal) (key : string) :
  mergeLeague (Js.or (Js.optprop data "leagues") (J (JObj []))) key
  = mapR (stamp key) (chosenFor data key).
Proof.
  unfold mergeLeague. rewrite leagues_or_empty.
  fold (bucketOf data key). rewrite pickList_chosen. reflexivity.
Qed.

Lemma mergeSnapshot_spec (data : JsVal) : mergeSnapshot data = spec_merge data.
Proof.
  unfold mergeSnapshot, spec_merge, LEAGUE_KEYS. cbn [mergeKeys].
  rewrite !mergeLeague_chosen.
  destruct (mapR (stamp "pl") _); [|reflexivity]. cbn [rbind].
  destruct (mapR (stamp "ch") _); [|reflexivity]. cbn [rbind].
  destruct (mapR (stamp "l1") _); [|reflexivity]. cbn [rbind].
  destruct (mapR (stamp "l2") _); reflexivity.
Qed.

Lemma spec_merge_lookup (data : JsVal) (next : Snapshot) (key : string) :
  spec_merge data = Ok next -> In key LEAGUE_KEYS ->
  exists ms, Js.assoc key next = Some ms
             /\ mapR (stamp key) (chosenFor data key) = Ok ms.
Proof.
  unfold spec_merge. intros E Hk.
  league_ok E "pl". league_ok E "ch". league_ok E "l1". league_ok E "l2".
  injection E as <-.
  simpl in Hk. destruct Hk as [<-|[<-|[<-|[<-|[]]]]]; eexists; split; try reflexivity; assumption.
Qed.

End NormaliserFacts.

Section MergerClaims.
Context {host : Host}.

(** C1. For every feed and every fixed league id, the merger takes the
    live array when it is a non-empty array, otherwise the upcoming array
    when there is one, otherwise the empty list: [mergeSnapshot] is the
    merger of the specification's words; a non-empty live array is taken
    whatever the bucket holds under [upcoming]; and the matches of a league
    are those of the chosen list, in its order. *)
Theorem merger_takes_live_else_upcoming (data : JsVal) :
  mergeSnapshot data = spec_merge data
  /\ (forall fields f rest,
        Js.assoc "live" fields = Some (JArr (f :: rest)) ->
        pickList (J (JObj fields)) = Ok (f :: rest))
  /\ (forall next key,
        mergeSnapshot data = Ok next -> In key LEAGUE_KEYS ->
        exists ms,
          Js.assoc key next = Some ms
          /\ mapR (stamp key) (chosenFor data key) = Ok ms
          /\ List.length ms = List.length (chosenFor data key)
          /\ map id ms = map (fun f => Js.optprop (J f) "id") (chosenFor data key)).
Proof.
  split; [apply mergeSnapshot_spec|]. split.
  - intros fields f rest E. unfold pickList. cbn. rewrite E. reflexivity.
  - intros next key E Hk. rewrite mergeSnapshot_spec in E.
    destruct (spec_merge_lookup data next key E Hk) as [ms [Ha Hm]].
    exists ms. repeat split; try assumption.
    + eapply mapR_length; eassumption.
    + eapply mapR_ok_map; [|eassumption]. intros x y. apply stamp_id.
Qed.

Lemma malformed_chosen_nil (data : JsVal) (key : string) :
  malformed (bucketOf data key) = true -> chosenFor data key = [].
Proof.
  unfold chosenFor. destruct (bucketOf data key) as [|[]]; try reflexivity.
  unfold malformed. intros Hm. apply andb_prop in Hm. destruct Hm as [Hl Hu].
  destruct (Js.optprop _ "live") as [|[]]; try discriminate;
    destruct (Js.optprop _ "upcoming") as [|[]]; try discriminate; reflexivity.
Qed.

(** C6. A league whose bucket is missing or malformed (the key is absent,
    the bucket is not an object, or neither [live] nor [upcoming] is an
    array) gets the empty list, without an exception; the snapshot is
    still produced, with the lists of the other leagues, whenever the
    records of those other leagues can be normalised. *)
Theorem malformed_bucket_degrades_to_empty (data : JsVal) (key : string) :
  In key LEAGUE_KEYS ->
  malformed (bucketOf data key) = true ->
  mergeLeague (Js.or (Js.optprop data "leagues") (J (JObj []))) key = Ok []
  /\ (forall next, mergeSnapshot data = Ok next -> Js.assoc key next = Some [])
  /\ ((forall k, In k LEAGUE_KEYS -> k <> key ->
         exists ms, mapR (stamp k) (chosenFor data k) = Ok ms) ->
      exists next,
        mergeSnapshot data = Ok next
        /\ forall k ms, In k LEAGUE_KEYS ->
             mapR (stamp k) (chosenFor data k) = Ok ms -> Js.assoc k next = Some ms).
Proof.
  intros Hk Hm. pose proof (malformed_chosen_nil data key Hm) as Hnil.
  split; [|split].
  - rewrite mergeLeague_chosen, Hnil. reflexivity.
  - intros next E. rewrite mergeSnapshot_spec in E.
    destruct (spec_merge_lookup data next key E Hk) as [ms [Ha Hs]].
    rewrite Hnil in Hs. injection Hs as <-. exact Ha.
  - intros Hothers.
    assert (Hall : forall k, In k LEAGUE_KEYS ->
                     exists ms, mapR (stamp k) (chosenFor data k) = Ok ms).
    { intros k Hin. destruct (string_dec k key) as [->|Hne].
      - rewrite Hnil. now exists [].
      - auto. }
    destruct (Hall "pl") as [pl Epl]; [simpl; auto|].
    destruct (Hall "ch") as [ch Ech]; [simpl; auto|].
    destruct (Hall "l1") as [l1 El1]; [simpl; auto|].
    destruct (Hall "l2") as [l2 El2]; [simpl; auto 6|].
    exists [("pl", pl); ("ch", ch); ("l1", l1); ("l2", l2)]. split.
    + rewrite mergeSnapshot_spec. unfold spec_merge.
      rewrite Epl, Ech, El1, El2. reflexivity.
    + intros k ms Hin Es. simpl in Hin.
      destruct Hin as [<-|[<-|[<-|[<-|[]]]]]; simpl; congruence.
Qed.

(** A bucket with only one of the two fields wrong still uses the other:
    a [live] that is no array falls back on the [upcoming] array. *)
Lemma live_not_array_uses_upcoming (fields : list (string * Json)) (items : list Json) :
  Js.isArray (Js.optprop (J (JObj fields)) "live") = false ->
  Js.assoc "upcoming" fields = Some (JArr items) ->
  pickList (J (JObj fields)) = Ok items.
Proof.
  unfold pickList, Js.optprop. cbn. intros Hl Hu. rewrite Hu.
  destruct (Js.assoc "live" fields) as [[]|]; cbn in *; try discriminate; reflexivity.
Qed.

(** What the error policy does not cover: a [null] among the records of a
    chosen list stops the whole merge. *)
Lemma null_record_aborts_snapshot (data : JsVal) (key : string) :
  In key LEAGUE_KEYS -> In JNull (chosenFor data key) ->
  exists e, mergeSnapshot data = Err e.
Proof.
  intros Hk Hnull.
  assert (Hs : exists e, mapR (stamp key) (chosenFor data key) = Err e).
  { apply (mapR_stops _ _ JNull Hnull). eexists; reflexivity. }
  rewrite mergeSnapshot_spec. unfold spec_merge.
  destruct Hs as [e He].
  destruct (mapR (stamp "pl") _) eqn:Epl; cbn [rbind]; [|eexists; reflexivity].
  destruct (mapR (stamp "ch") _) eqn:Ech; cbn [rbind]; [|eexists; reflexivity].
  destruct (mapR (stamp "l1") _) eqn:El1; cbn [rbind]; [|eexists; reflexivity].
  destruct (mapR (stamp "l2") _) eqn:El2; cbn [rbind]; [|eexists; reflexivity].
  simpl in Hk. destruct Hk as [<-|[<-|[<-|[<-|[]]]]]; congruence.
Qed.

End MergerClaims.

Lemma merger_takes_live_else_upcoming_witness :
  exists ms,
    Js.assoc "pl" Sample.next0 = Some ms
    /\ mapR (@stamp utcHost "pl") (chosenFor (J Sample.feed) "pl") = Ok ms
    /\ List.length ms = List.length (chosenFor (J Sample.feed) "pl")
    /\ map id ms = map (fun f => Js.optprop (J f) "id") (chosenFor (J Sample.feed) "pl").
Proof.
  apply (proj2 (proj2 (@merger_takes_live_else_upcoming utcHost (J Sample.feed)))).
  - reflexivity.
  - simpl. auto.
Defined.

Lemma malformed_bucket_degrades_to_empty_witness :
  @mergeLeague utcHost (Js.or (Js.optprop (J Sample.feed) "leagues") (J (JObj []))) "ch" = Ok []
  /\ Js.assoc "ch" Sample.next0 = Some []
  /\ exists next,
       @mergeSnapshot utcHost (J Sample.feed) = Ok next
       /\ forall k ms, In k LEAGUE_KEYS ->
            mapR (@stamp utcHost k) (chosenFor (J Sample.feed) k) = Ok ms ->
            Js.assoc k next = Some ms.
Proof.
  destruct (@malformed_bucket_degrades_to_empty utcHost (J Sample.feed) "ch")
    as [A [B C]].
  - simpl. auto.
  - reflexivity.
  - split; [exact A|]. split; [apply B; reflexivity|].
    apply C. intros k Hin _. simpl in Hin.
    destruct Hin as [<-|[<-|[<-|[<-|[]]]]]; eexists; reflexivity.
Defined.

(** ** The stores *)

Lemma followedOf_stored (w : World) :
  followedOf w =
  match pinscores_followed_match_ids (localStorage w) with
  | Some (JsonText j) =>
      match newSet (J j) with
      | Ok s => s
      | Err _ => []
      end
  | _ => []
  end.
Proof.
  unfold followedOf, loadFollowedSet, try_catch, loadFollowedSet_try, bind, gets, liftR, ret.
  destruct (pinscores_followed_match_ids (localStorage w)) as [[s|j]|]; cbn.
  - destruct (s =? ""); reflexivity.
  - destruct j; reflexivity.
  - reflexivity.
Qed.

Lemma loadFollowedSet_done (w : World) : loadFollowedSet w = Done (followedOf w) w.
Proof.
  unfold followedOf, loadFollowedSet, try_catch, loadFollowedSet_try, bind, gets, liftR, ret.
  destruct (pinscores_followed_match_ids (localStorage w)) as [[s|j]|]; cbn.
  - destruct (s =? ""); reflexivity.
  - destruct j; reflexivity.
  - reflexivity.
Qed.

Lemma followedOf_same_storage (w1 w2 : World) :
  localStorage w1 = localStorage w2 -> followedOf w1 = followedOf w2.
Proof. intros E. rewrite !followedOf_stored, E. reflexivity. Qed.

Lemma filterOf_same_storage (w1 w2 : World) :
  localStorage w1 = localStorage w2 -> filterOf w1 = filterOf w2.
Proof. intros E. unfold filterOf, loadLeagueFilter, gets. rewrite E. reflexivity. Qed.

(** ** The renderer *)

Lemma render_unfold (w : World) :
  render w =
  if pinned_open w
  then match pinnedHtml (LIVE_DATA w) (followedOf w) with
       | Ok html => Done tt (set_pipWin (Some (mkPip false (Some html))) (painted w))
       | Err e => Raised e (painted w)
       end
  else Done tt (painted w).
Proof.
  unfold render, bind at 1. unfold modify at 1.
  unfold bind at 1. rewrite loadFollowedSet_done.
  rewrite (followedOf_same_storage (log EvRender w) w eq_refl).
  unfold bind, loadLeagueFilter, gets, renderFilterControls, renderQuickActions,
    renderFollowed, renderLeagues, renderPinnedWindow, modify, ret, liftR, pinned_open.
  destruct w as [data st pg pip tr]. cbn.
  unfold painted, filterOf, loadLeagueFilter, gets. cbn.
  destruct pg as [le fe bt bar ts]. cbn.
  destruct bar as [bar|]; cbn;
    destruct pip as [[[|] [pl|]]|]; cbn; try reflexivity;
    unfold bind; cbn; destruct (pinnedHtml data _); reflexivity.
Qed.

Lemma highlighted_twice (active : string) (bar : option (list SegBtn)) :
  highlighted active (highlighted active bar) = highlighted active bar.
Proof.
  destruct bar as [l|]; [|reflexivity]. simpl. f_equal.
  rewrite map_map. reflexivity.
Qed.

(** Painting again a world that differs from a painted one only in the
    pinned window writes the same page. *)
Lemma page_painted_again (w w1 : World) :
  LIVE_DATA w1 = LIVE_DATA w ->
  localStorage w1 = localStorage w ->
  page w1 = page (painted w) ->
  page (painted w1) = page (painted w).
Proof.
  intros Hd Hs Hp. unfold painted at 1. cbn [page].
  rewrite Hd, (followedOf_same_storage w1 w Hs), (filterOf_same_storage w1 w Hs), Hp.
  unfold painted. cbn [page leagueFilterEl toastEl].
  rewrite highlighted_twice. reflexivity.
Qed.

Lemma render_frame (w : World) :
  LIVE_DATA (final (render w)) = LIVE_DATA w
  /\ localStorage (final (render w)) = localStorage w
  /\ trace (final (render w)) = (trace w ++ [EvRender])%list
  /\ page (final (render w)) = page (painted w).
Proof.
  rewrite render_unfold. destruct (pinned_open w).
  - destruct (pinnedHtml _ _); cbn; auto.
  - cbn. auto.
Qed.

(** C3. Calling [render] twice in a row, with the snapshot, the follow set
    and the filter unchanged, leaves after the second call exactly what the
    first call left on both surfaces (the three regions and the filter bar
    of the page, the list of the pinned window); the second call ends the
    way the first did (normally, or with the same exception), and neither
    touches the snapshot or the store. *)
Theorem render_twice_same_output (w : World) :
  surfaces (final (render (final (render w)))) = surfaces (final (render w))
  /\ (forall e, (exists w', render w = Raised e w')
                <-> (exists w', render (final (render w)) = Raised e w'))
  /\ LIVE_DATA (final (render (final (render w)))) = LIVE_DATA w
  /\ localStorage (final (render (final (render w)))) = localStorage w.
Proof.
  rewrite (render_unfold w).
  destruct (pinned_open w) eqn:Hopen.
  - destruct (pinnedHtml (LIVE_DATA w) (followedOf w)) as [html|e] eqn:Hpin; cbn [final].
    + set (w1 := set_pipWin _ (painted w)).
      assert (Hp : page (painted w1) = page (painted w))
        by (apply page_painted_again; reflexivity).
      rewrite (render_unfold w1).
      replace (pinned_open w1) with true by reflexivity.
      replace (LIVE_DATA w1) with (LIVE_DATA w) by reflexivity.
      rewrite (followedOf_same_storage w1 w eq_refl), Hpin. cbn [final].
      repeat split.
      * unfold surfaces. cbn [page pipWin set_pipWin]. rewrite Hp. reflexivity.
      * intros [w' E]. discriminate.
      * intros [w' E]. discriminate.
    + assert (Hp : page (painted (painted w)) = page (painted w))
        by (apply page_painted_again; reflexivity).
      rewrite (render_unfold (painted w)).
      replace (pinned_open (painted w)) with (pinned_open w) by reflexivity.
      rewrite Hopen.
      replace (LIVE_DATA (painted w)) with (LIVE_DATA w) by reflexivity.
      rewrite (followedOf_same_storage (painted w) w eq_refl), Hpin. cbn [final].
      repeat split.
      * unfold surfaces. rewrite Hp. reflexivity.
      * intros [w' E]. injection E as -> _. eexists; reflexivity.
      * intros [w' E]. injection E as -> _. eexists; reflexivity.
  - cbn [final].
    assert (Hp : page (painted (painted w)) = page (painted w))
      by (apply page_painted_again; reflexivity).
    rewrite (render_unfold (painted w)).
    replace (pinned_open (painted w)) with (pinned_open w) by reflexivity.
    rewrite Hopen. cbn [final].
    repeat split.
    + unfold surfaces. rewrite Hp. reflexivity.
    + intros [w' E]. discriminate.
    + intros [w' E]. discriminate.
Qed.

(** ** The poller *)

Lemma renders_log (e : Event) (w : World) :
  renders (log e w) = (renders w + match e with EvRender => 1 | _ => 0 end)%nat.
Proof.
  unfold renders, log. cbn [trace].
  rewrite filter_app, length_app. destruct e; reflexivity.
Qed.

Lemma renders_trace (w w' : World) (e : Event) :
  trace w' = (trace w ++ [e])%list ->
  renders w' = (renders w + match e with EvRender => 1 | _ => 0 end)%nat.
Proof.
  unfold renders. intros ->. rewrite filter_app, length_app. destruct e; reflexivity.
Qed.

(** The [catch] block only logs and shows the toast. *)
Lemma reportFailure_frame (e : Exn) (w : World) :
  exists w',
    reportFailure e w = Done tt w'
    /\ LIVE_DATA w' = LIVE_DATA w
    /\ localStorage w' = localStorage w
    /\ pipWin w' = pipWin w
    /\ trace w' = (trace w ++ [EvConsoleError e])%list
    /\ leaguesEl (page w') = leaguesEl (page w)
    /\ followedEl (page w') = followedEl (page w)
    /\ btnFollowAllLive (page w') = btnFollowAllLive (page w)
    /\ leagueFilterEl (page w') = leagueFilterEl (page w).
Proof.
  unfold reportFailure, toast, bind, modify.
  destruct w as [data st pg pip tr]. cbn.
  destruct (toastEl pg); eexists; (split; [reflexivity|]); cbn; repeat split.
Qed.

Section PollerClaims.
Context {host : Host}.

Lemma fetchScores_failed (res : Fetched) (w : World) :
  fetch_failed res -> exists e, fetchScores res w = Raised e w.
Proof.
  destruct res as [msg|st body]; cbn; intros Hf.
  - eexists; reflexivity.
  - rewrite Hf. eexists; reflexivity.
Qed.

Lemma fetchScores_installed (st : Z) (data : Json) (next : Snapshot) (w : World) :
  res_ok st = true ->
  mergeSnapshot (J data) = Ok next ->
  fetchScores (Responded st (Some data)) w
  = render (log (EvConsoleLog (counts next)) (set_LIVE_DATA next w)).
Proof.
  intros Hok Hm. unfold fetchScores. rewrite Hok. cbn [negb].
  unfold bind, liftR, modify. rewrite Hm. reflexivity.
Qed.

Lemma run_failed (res : Fetched) (w : World) :
  fetch_failed res ->
  LIVE_DATA (final (run res w)) = LIVE_DATA w
  /\ renders (final (run res w)) = renders w
  /\ localStorage (final (run res w)) = localStorage w
  /\ pipWin (final (run res w)) = pipWin w
  /\ leaguesEl (page (final (run res w))) = leaguesEl (page w)
  /\ followedEl (page (final (run res w))) = followedEl (page w)
  /\ btnFollowAllLive (page (final (run res w))) = btnFollowAllLive (page w)
  /\ leagueFilterEl (page (final (run res w))) = leagueFilterEl (page w).
Proof.
  intros Hf. unfold run, try_catch.
  destruct (fetchScores_failed res w Hf) as [e ->].
  destruct (reportFailure_frame e w) as [w' [-> [Hd [Hs [Hp [Ht H]]]]]].
  cbn [final]. rewrite (renders_trace w w' _ Ht). cbn.
  repeat split; try tauto. lia.
Qed.

Lemma run_installed (st : Z) (data : Json) (next : Snapshot) (w : World) :
  res_ok st = true ->
  mergeSnapshot (J data) = Ok next ->
  LIVE_DATA (final (run (Responded st (Some data)) w)) = next
  /\ renders (final (run (Responded st (Some data)) w)) = S (renders w).
Proof.
  intros Hok Hm. unfold run, try_catch.
  rewrite (fetchScores_installed st data next w Hok Hm).
  set (w2 := log _ (set_LIVE_DATA next w)).
  destruct (render_frame w2) as [Hd [_ [Ht _]]].
  assert (Hr2 : renders w2 = renders w).
  { unfold w2. rewrite renders_log. unfold renders. cbn. lia. }
  destruct (render w2) as [[] w3|e w3]; cbn [final] in *.
  - split; [exact Hd|]. rewrite (renders_trace w2 w3 _ Ht). lia.
  - destruct (reportFailure_frame e w3) as [w' [-> [Hd' [_ [_ [Ht' _]]]]]].
    cbn [final]. split; [rewrite Hd', Hd; reflexivity|].
    rewrite (renders_trace w3 w' _ Ht'), (renders_trace w2 w3 _ Ht). lia.
Qed.

Lemma run_returns (res : Fetched) (w : World) : exists w', run res w = Done tt w'.
Proof.
  unfold run, try_catch. destruct (fetchScores res w) as [[] w'|e w'].
  - eexists; reflexivity.
  - destruct (reportFailure_frame e w') as [w'' [-> _]]. eexists; reflexivity.
Qed.

(** Whatever the network answers, a poll cycle either keeps the snapshot
    and does not render, or installs the merged snapshot and renders
    once. *)
Lemma run_keeps_or_installs (res : Fetched) (w : World) :
  (LIVE_DATA (final (run res w)) = LIVE_DATA w
   /\ renders (final (run res w)) = renders w)
  \/ (exists st data next,
        res = Responded st (Some data) /\ res_ok st = true
        /\ mergeSnapshot (J data) = Ok next
        /\ LIVE_DATA (final (run res w)) = next
        /\ renders (final (run res w)) = S (renders w)).
Proof.
  destruct res as [msg|st [data|]].
  - left. destruct (run_failed (Rejected msg) w I) as [A [B _]]. auto.
  - destruct (res_ok st) eqn:Hok.
    + destruct (mergeSnapshot (J data)) as [next|e] eqn:Hm.
      * right. exists st, data, next.
        destruct (run_installed st data next w Hok Hm) as [A B]. auto.
      * left. unfold run, try_catch, fetchScores. rewrite Hok. cbn [negb].
        unfold bind, liftR. rewrite Hm.
        destruct (reportFailure_frame e w) as [w' [-> [Hd [_ [_ [Ht _]]]]]].
        cbn [final]. rewrite (renders_trace w w' _ Ht). split; [exact Hd|lia].
    + left. destruct (run_failed (Responded st (Some data)) w Hok) as [A [B _]]. auto.
  - destruct (res_ok st) eqn:Hok.
    + left. unfold run, try_catch, fetchScores. rewrite Hok. cbn [negb].
      unfold bind, liftR.
      destruct (reportFailure_frame SyntaxError w) as [w' [-> [Hd [_ [_ [Ht _]]]]]].
      cbn [final]. rewrite (renders_trace w w' _ Ht). split; [exact Hd|lia].
    + left. destruct (run_failed (Responded st None) w Hok) as [A [B _]]. auto.
Qed.

(** No failure ends the polling: every cycle of [startPolling] returns. *)
Lemma startPolling_returns (answers : list Fetched) (w : World) :
  exists w', startPolling answers w = Done tt w'.
Proof.
  revert w. induction answers as [|res later IH]; intros w; cbn [startPolling].
  - eexists; reflexivity.
  - unfold bind. destruct (run_returns res w) as [w1 ->]. apply IH.
Qed.

(** C2. A poll cycle whose fetch raises (the request is rejected or the
    response is not a 2xx one) leaves the snapshot exactly as it was and
    does not call [render]: the exception is caught, and only the console
    and the toast change.  A poll cycle whose fetch succeeds (a 2xx
    response with a body the merger accepts) installs the new snapshot and
    calls [render] once.  Either way the cycle itself never raises. *)
Theorem failed_poll_keeps_snapshot (res : Fetched) (w : World) :
  (fetch_failed res ->
     LIVE_DATA (final (run res w)) = LIVE_DATA w
     /\ renders (final (run res w)) = renders w
     /\ localStorage (final (run res w)) = localStorage w
     /\ pipWin (final (run res w)) = pipWin w
     /\ leaguesEl (page (final (run res w))) = leaguesEl (page w)
     /\ followedEl (page (final (run res w))) = followedEl (page w)
     /\ btnFollowAllLive (page (final (run res w))) = btnFollowAllLive (page w)
     /\ leagueFilterEl (page (final (run res w))) = leagueFilterEl (page w))
  /\ (forall st data next,
        res = Responded st (Some data) -> res_ok st = true ->
        mergeSnapshot (J data) = Ok next ->
        LIVE_DATA (final (run res w)) = next
        /\ renders (final (run res w)) = S (renders w))
  /\ (exists w', run res w = Done tt w').
Proof.
  split; [|split].
  - apply run_failed.
  - intros st data next -> Hok Hm. apply run_installed; assumption.
  - apply run_returns.
Qed.

End PollerClaims.

Lemma failed_poll_keeps_snapshot_witness :
  (LIVE_DATA (final (@run utcHost (Responded 503 None) Sample.w1)) = LIVE_DATA Sample.w1
   /\ renders (final (@run utcHost (Responded 503 None) Sample.w1)) = renders Sample.w1)
  /\ (LIVE_DATA (final (@run utcHost (Responded 200 (Some Sample.feed)) Sample.w0))
      = Sample.next0
      /\ renders (final (@run utcHost (Responded 200 (Some Sample.feed)) Sample.w0))
         = S (renders Sample.w0)).
Proof.
  split.
  - destruct (proj1 (@failed_poll_keeps_snapshot utcHost (Responded 503 None) Sample.w1))
      as [A [B _]]; [reflexivity|]. split; assumption.
  - apply (proj1 (proj2 (@failed_poll_keeps_snapshot utcHost
                           (Responded 200 (Some Sample.feed)) Sample.w0))
             200%Z Sample.feed Sample.next0); reflexivity.
Defined.

(** ** The kickoff text *)

Lemma assoc_obj_set_other {A} (fields : list (string * A)) (k k' : string) (v : A) :
  k <> k' -> Js.assoc k (obj_set fields k' v) = Js.assoc k fields.
Proof.
  intros Hne. induction fields as [|[k0 x] rest IH]; simpl.
  - destruct (k' =? k) eqn:E; [|reflexivity].
    apply String.eqb_eq in E. congruence.
  - destruct (k0 =? k') eqn:E0; simpl.
    + destruct (k0 =? k) eqn:E1; [|reflexivity].
      apply String.eqb_eq in E0, E1. congruence.
    + rewrite IH. reflexivity.
Qed.

Lemma optprop_obj_set_other (fields : list (string * Json)) (k k' : string) (v : Json) :
  k <> k' ->
  Js.optprop (J (JObj (obj_set fields k' v))) k = Js.optprop (J (JObj fields)) k.
Proof.
  intros Hne. unfold Js.optprop, Js.prop.
  rewrite (assoc_obj_set_other fields k k' v Hne). reflexivity.
Qed.

Lemma optprop_obj_set_same (fields : list (string * Json)) (k : string) (v : Json) :
  Js.optprop (J (JObj (obj_set fields k v))) k = J v.
Proof.
  unfold Js.optprop, Js.prop.
  induction fields as [|[k0 x] rest IH]; cbn [obj_set Js.assoc].
  - rewrite String.eqb_refl. reflexivity.
  - destruct (k0 =? k) eqn:E; cbn [Js.assoc]; rewrite E; [reflexivity|exact IH].
Qed.

(** A value that does not convert to a primitive is an object or an array,
    hence truthy. *)
Lemma unprintable_truthy (v : JsVal) : Js.printable v = false -> Js.truthy v = true.
Proof. destruct v as [|[]]; simpl; try discriminate; reflexivity. Qed.

Section KickoffClaims.
Context {host : Host}.

(** [new Date(v)] throws exactly for a value that does not convert. *)
Lemma newDate_raises (v : JsVal) :
  (exists e, newDate v = Err e) <-> Js.printable v = false.
Proof.
  unfold newDate, Js.ToString.
  destruct v as [|[| | | |items|fields]]; cbn [Js.printable Js.printable_json];
    try (split; [intros [e He]; discriminate|discriminate]).
  - change (forallb Js.printable_json items) with (Js.printable (J (JArr items))).
    destruct (Js.printable (J (JArr items))); cbn [rbind].
    + split; [intros [e He]; discriminate|discriminate].
    + split; [reflexivity|]. intros _. eexists; reflexivity.
  - change (match Js.assoc "toString" fields with Some _ => false | None => true end)
      with (Js.printable (J (JObj fields))).
    destruct (Js.printable (J (JObj fields))); cbn [rbind].
    + split; [intros [e He]; discriminate|discriminate].
    + split; [reflexivity|]. intros _. eexists; reflexivity.
Qed.

Lemma isoToLocalKickoff_raises (iso : JsVal) :
  (exists e, isoToLocalKickoff iso = Err e) <-> Js.printable iso = false.
Proof.
  unfold isoToLocalKickoff. destruct (Js.printable iso) eqn:P.
  - split; [|discriminate]. intros [e He].
    destruct (Js.truthy iso); cbn [negb] in He; [|discriminate].
    destruct (newDate iso) as [d|e'] eqn:N; [discriminate|].
    assert (H : exists e0, newDate iso = Err e0) by (now exists e').
    apply newDate_raises in H. congruence.
  - split; [reflexivity|]. intros _.
    rewrite (unprintable_truthy iso P). cbn [negb].
    destruct (proj2 (newDate_raises iso) P) as [e ->]. now exists e.
Qed.

(** A timestamp the host cannot read prints as [Invalid Date]. *)
Lemma isoToLocalKickoff_invalid (iso : JsVal) :
  Js.truthy iso = true -> newDate iso = Ok None ->
  isoToLocalKickoff iso = Ok "Invalid Date".
Proof.
  intros T N. unfold isoToLocalKickoff. rewrite T, N. reflexivity.
Qed.

Lemma toMatchModel_upcoming (f : JsVal) (m : Match) :
  toMatchModel f = Ok m -> status m = UPCOMING ->
  isoToLocalKickoff (Js.optprop f "kickoffISO") = Ok (kickoff m)
  /\ minute m = (if negb (kickoff m =? "")
                 then J (JStr ("KO " ++ kickoff m)) else J (JStr "")).
Proof.
  destruct (Js.nullish f) eqn:Hf.
  - destruct (toMatchModel_null f Hf) as [e ->]. discriminate.
  - rewrite (toMatchModel_defined f Hf). cbn zeta. kickoff_ok. both_trims_ok.
    intros E. injection E as <-. cbn [status kickoff minute].
    destruct (Js.truthy (Js.optprop f "isLive")); [discriminate|].
    intros _. split; reflexivity.
Qed.

(** Whether a record fails to normalise depends on its timestamp only
    through whether the timestamp converts to a primitive. *)
Lemma toMatchModel_fails_by_timestamp (fields : list (string * Json)) (ts : Json) :
  (exists e, toMatchModel (J (JObj (obj_set fields "kickoffISO" ts))) = Err e)
  <-> (Js.printable (J ts) = false
       \/ exists e, toMatchModel (J (JObj (obj_set fields "kickoffISO" JNull))) = Err e).
Proof.
  rewrite (toMatchModel_defined (J (JObj (obj_set fields "kickoffISO" ts))) eq_refl).
  rewrite (toMatchModel_defined (J (JObj (obj_set fields "kickoffISO" JNull))) eq_refl).
  cbn zeta.
  rewrite !optprop_obj_set_same.
  rewrite !(optprop_obj_set_other fields _ "kickoffISO" ts) by discriminate.
  rewrite !(optprop_obj_set_other fields _ "kickoffISO" JNull) by discriminate.
  change (isoToLocalKickoff (J JNull)) with (Ok (A:=string) ""). cbn [rbind].
  destruct (Js.printable (J ts)) eqn:P.
  - destruct (isoToLocalKickoff (J ts)) as [shown|e0] eqn:Ek.
    + cbn [rbind].
      destruct (Js.call_trim _); cbn [rbind].
      * destruct (Js.call_trim _); cbn [rbind].
        -- split; [intros [e He]; discriminate|].
           intros [H|[e He]]; discriminate.
        -- split; intros _; [right|]; eexists; reflexivity.
      * split; intros _; [right|]; eexists; reflexivity.
    + assert (H : exists e, isoToLocalKickoff (J ts) = Err e) by (now exists e0).
      apply isoToLocalKickoff_raises in H. congruence.
  - destruct (proj2 (isoToLocalKickoff_raises (J ts)) P) as [e0 ->]. cbn [rbind].
    split; intros _; [left; reflexivity|eexists; reflexivity].
Qed.

(** C4, as the code has it.  For a record normalised as UPCOMING the kickoff
    text is the host's local time of the date read from the record's
    timestamp, shown behind [KO]; it is empty when the timestamp is absent
    or empty; for a timestamp the host cannot read it is the text
    [Invalid Date].  The timestamp of a record that normalises converts to
    a primitive, and normalisation fails because of the timestamp exactly
    when it does not (an object with a [toString] property of its own, or
    an array holding one): a record with the timestamp [ts] fails when [ts]
    does not convert or when the same record without a timestamp fails. *)
Theorem upcoming_kickoff_text (f : JsVal) (m : Match) :
  toMatchModel f = Ok m -> status m = UPCOMING ->
  isoToLocalKickoff (Js.optprop f "kickoffISO") = Ok (kickoff m)
  /\ (Js.truthy (Js.optprop f "kickoffISO") = false ->
        kickoff m = "" /\ minute m = J (JStr ""))
  /\ (forall t, Js.truthy (Js.optprop f "kickoffISO") = true ->
        newDate (Js.optprop f "kickoffISO") = Ok (Some t) ->
        kickoff m = toLocaleTimeString t)
  /\ (Js.truthy (Js.optprop f "kickoffISO") = true ->
        newDate (Js.optprop f "kickoffISO") = Ok None ->
        kickoff m = "Invalid Date" /\ minute m = J (JStr "KO Invalid Date"))
  /\ Js.printable (Js.optprop f "kickoffISO") = true
  /\ (forall fields ts,
        (exists e, toMatchModel (J (JObj (obj_set fields "kickoffISO" ts))) = Err e)
        <-> (Js.printable (J ts) = false
             \/ exists e,
                  toMatchModel (J (JObj (obj_set fields "kickoffISO" JNull))) = Err e)).
Proof.
  intros E U. destruct (toMatchModel_upcoming f m E U) as [Hk Hm].
  split; [exact Hk|]. split; [|split; [|split; [|split]]].
  - intros T. unfold isoToLocalKickoff in Hk. rewrite T in Hk. cbn in Hk.
    injection Hk as Hk. rewrite Hm, <- Hk. split; reflexivity.
  - intros t T N. unfold isoToLocalKickoff in Hk. rewrite T, N in Hk.
    cbn in Hk. injection Hk as Hk. symmetry. exact Hk.
  - intros T N. rewrite (isoToLocalKickoff_invalid _ T N) in Hk.
    injection Hk as Hk. rewrite Hm, <- Hk. split; reflexivity.
  - destruct (Js.printable (Js.optprop f "kickoffISO")) eqn:P; [reflexivity|].
    destruct (proj2 (isoToLocalKickoff_raises _) P) as [e He]. congruence.
  - apply toMatchModel_fails_by_timestamp.
Qed.

End KickoffClaims.

Lemma upcoming_kickoff_text_witness :
  exists m, @toMatchModel utcHost (J Sample.m2) = Ok m
            /\ kickoff m = "15:00" /\ minute m = J (JStr "KO 15:00").
Proof.
  destruct (@toMatchModel utcHost (J Sample.m2)) as [m|e] eqn:E; [|discriminate E].
  exists m. split; [reflexivity|].
  assert (U : status m = UPCOMING).
  { vm_compute in E. injection E as <-. reflexivity. }
  destruct (@upcoming_kickoff_text utcHost (J Sample.m2) m E U) as [Hk _].
  assert (Hm := proj2 (@toMatchModel_upcoming utcHost (J Sample.m2) m E U)).
  assert (K : @isoToLocalKickoff utcHost (Js.optprop (J Sample.m2) "kickoffISO")
              = Ok "15:00") by reflexivity.
  rewrite K in Hk. injection Hk as Hk.
  rewrite Hm, <- Hk. split; reflexivity.
Defined.

(** C4 as stated fails: a record whose timestamp is not a date is
    normalised as UPCOMING with the kickoff text [Invalid Date], shown as
    [KO Invalid Date]. *)
Lemma unparseable_kickoff_is_not_empty :
  Js.optprop (J Sample.m3) "kickoffISO" = J (JStr "not a date")
  /\ @newDate utcHost (J (JStr "not a date")) = Ok None
  /\ exists m, @toMatchModel utcHost (J Sample.m3) = Ok m
               /\ status m = UPCOMING
               /\ kickoff m = "Invalid Date"
               /\ minute m = J (JStr "KO Invalid Date")
               /\ kickoff m <> "".
Proof.
  split; [reflexivity|]. split; [reflexivity|].
  eexists. split; [reflexivity|]. repeat split. discriminate.
Qed.

(** ** The filter store *)






(** ** The follow store *)



(** ** Sets of ids *)

Lemma set_has_app (a b : JsSet) (x : JsVal) :
  set_has (a ++ b)%list x = set_has a x || set_has b x.
Proof. unfold set_has. apply existsb_app. Qed.

Lemma set_has_cons (y : JsVal) (s : JsSet) (x : JsVal) :
  set_has (y :: s) x = Js.strict_eq x y || set_has s x.
Proof. reflexivity. Qed.

Lemma distinct_snoc (s : JsSet) (x : JsVal) :
  distinct s -> set_has s x = false -> distinct (s ++ [x])%list.
Proof.
  induction s as [|y r IH]; cbn [distinct app]; intros D H.
  - auto.
  - destruct D as [Hy Dr]. rewrite set_has_cons in H.
    apply orb_false_elim in H. destruct H as [Hxy Hr].
    split; [|auto].
    rewrite set_has_app, Hy, set_has_cons, strict_eq_sym, Hxy. reflexivity.
Qed.

Lemma distinct_add (s : JsSet) (x : JsVal) : distinct s -> distinct (set_add s x).
Proof.
  intros D. unfold set_add. destruct (set_has s x) eqn:H; [exact D|].
  apply distinct_snoc; assumption.
Qed.

Lemma distinct_fold_add (l acc : JsSet) :
  distinct acc -> distinct (fold_left set_add l acc).
Proof.
  revert acc. induction l as [|x l IH]; simpl; intros acc D; [exact D|].
  apply IH, distinct_add, D.
Qed.

Lemma distinct_app_has (a b : JsSet) (x : JsVal) :
  distinct (a ++ x :: b)%list -> set_has a x = false.
Proof.
  induction a as [|y a IH]; cbn [distinct app]; intros D; [reflexivity|].
  destruct D as [Hy Da]. rewrite set_has_cons, (IH Da).
  rewrite set_has_app, set_has_cons in Hy.
  apply orb_false_elim in Hy. destruct Hy as [_ Hy].
  apply orb_false_elim in Hy. destruct Hy as [Hyx _].
  rewrite strict_eq_sym, Hyx. reflexivity.
Qed.

(** Spreading a set into an array and making a set of it again gives the
    set back. *)
Lemma fold_add_distinct (l acc : JsSet) :
  distinct (acc ++ l)%list -> fold_left set_add l acc = (acc ++ l)%list.
Proof.
  revert acc. induction l as [|x l IH]; simpl; intros acc D.
  - rewrite app_nil_r. reflexivity.
  - unfold set_add at 2. rewrite (distinct_app_has acc l x D).
    rewrite IH; rewrite <- app_assoc; [reflexivity|exact D].
Qed.

Lemma forall_fold_add (P : JsVal -> Prop) (l acc : JsSet) :
  Forall P acc -> Forall P l -> Forall P (fold_left set_add l acc).
Proof.
  revert acc. induction l as [|x l IH]; simpl; intros acc Ha Hl; [exact Ha|].
  inversion Hl; subst. apply IH; [|assumption].
  unfold set_add. destruct (set_has acc x); [exact Ha|].
  apply Forall_app. split; [exact Ha|]. constructor; [assumption|constructor].
Qed.

Lemma forall_defined_map_J (items : list Json) : Forall defined (map J items).
Proof. induction items; simpl; constructor; [discriminate|assumption]. Qed.

Lemma forall_defined_chars (s : string) : Forall defined (chars s).
Proof. induction s; simpl; constructor; [discriminate|assumption]. Qed.

Lemma newSet_canonical (v : JsVal) (s : JsSet) :
  newSet v = Ok s -> distinct s /\ Forall defined s.
Proof.
  destruct v as [|[]]; simpl; intros E; try discriminate; injection E as <-.
  - split; constructor.
  - split; constructor.
  - split; [apply distinct_fold_add; exact I|].
    apply forall_fold_add; [constructor|apply forall_defined_chars].
  - split; [apply distinct_fold_add; exact I|].
    apply forall_fold_add; [constructor|apply forall_defined_map_J].
Qed.

(** What [loadFollowedSet] reads is a list of distinct values, none of them
    [undefined]. *)
Lemma followedOf_canonical (w : World) :
  distinct (followedOf w) /\ Forall defined (followedOf w).
Proof.
  rewrite followedOf_stored.
  destruct (pinscores_followed_match_ids (localStorage w)) as [[s|j]|];
    try (split; constructor).
  destruct (newSet (J j)) as [s|e] eqn:E; [|split; constructor].
  apply (newSet_canonical _ _ E).
Qed.

Lemma map_J_jsonify (s : JsSet) : Forall defined s -> map J (map jsonify s) = s.
Proof.
  induction s as [|x s IH]; simpl; intros H; [reflexivity|].
  inversion H; subst. rewrite IH by assumption.
  destruct x; [exfalso; apply H2; reflexivity|reflexivity].
Qed.

(** Saving a set and loading it again. *)
Lemma followedOf_saved (s : JsSet) (w : World) :
  distinct s -> Forall defined s ->
  followedOf (final (saveFollowedSet s w)) = s.
Proof.
  intros D F. rewrite followedOf_stored. cbn.
  rewrite (map_J_jsonify s F). apply (fold_add_distinct s []). exact D.
Qed.

Lemma distinct_delete (s : JsSet) (x : JsVal) : distinct s -> distinct (set_delete s x).
Proof.
  unfold set_delete. induction s as [|y r IH]; cbn [distinct filter]; intros D; [exact I|].
  destruct D as [Hy Dr]. destruct (negb (Js.strict_eq x y)); cbn [distinct]; [|auto].
  split; [|auto].
  clear - Hy. induction r as [|z r IH]; cbn [filter]; [reflexivity|].
  rewrite set_has_cons in Hy.
  apply orb_false_elim in Hy. destruct Hy as [Hz Hr].
  destruct (negb (Js.strict_eq x z)); [rewrite set_has_cons, Hz|]; auto.
Qed.

Lemma forall_delete (P : JsVal -> Prop) (s : JsSet) (x : JsVal) :
  Forall P s -> Forall P (set_delete s x).
Proof.
  unfold set_delete. intros H. apply Forall_forall. intros y Hy.
  apply filter_In in Hy. destruct Hy as [Hy _].
  revert y Hy. apply Forall_forall. exact H.
Qed.

Lemma forall_add (P : JsVal -> Prop) (s : JsSet) (x : JsVal) :
  Forall P s -> P x -> Forall P (set_add s x).
Proof.
  intros H Hx. unfold set_add. destruct (set_has s x); [exact H|].
  apply Forall_app. split; [exact H|]. constructor; [exact Hx|constructor].
Qed.

Lemma delete_absent (s : JsSet) (x : JsVal) : set_has s x = false -> set_delete s x = s.
Proof.
  unfold set_delete. induction s as [|y r IH]; cbn [filter]; intros H; [reflexivity|].
  rewrite set_has_cons in H.
  apply orb_false_elim in H. destruct H as [Hy Hr].
  rewrite Hy. cbn [negb]. f_equal. auto.
Qed.

Lemma add_present (s : JsSet) (x : JsVal) : set_has s x = true -> set_add s x = s.
Proof. intros H. unfold set_add. rewrite H. reflexivity. Qed.

Lemma delete_added (s : JsSet) (x : JsVal) :
  is_key x = true -> set_has s x = false -> set_delete (set_add s x) x = s.
Proof.
  intros K H. unfold set_add. rewrite H. unfold set_delete.
  rewrite filter_app. fold (set_delete s x). rewrite (delete_absent s x H).
  cbn [filter]. rewrite (strict_eq_key_refl x K). cbn [negb]. apply app_nil_r.
Qed.

Lemma has_after_add (s : JsSet) (x : JsVal) :
  is_key x = true -> set_has (set_add s x) x = true.
Proof.
  intros K. unfold set_add. destruct (set_has s x) eqn:H; [exact H|].
  rewrite set_has_app, set_has_cons, (strict_eq_key_refl x K).
  apply orb_true_r.
Qed.

Lemma is_key_defined (x : JsVal) : is_key x = true -> defined x.
Proof. intros K E. subst. discriminate. Qed.

(** [toggleFollow] leaves in the store the set it saved: [render] does not
    write the store. *)
Lemma toggleFollow_storage (matchId : JsVal) (shouldFollow : bool) (w : World) :
  localStorage (final (toggleFollow matchId shouldFollow w))
  = localStorage
      (final (saveFollowedSet
                (if shouldFollow then set_add (followedOf w) matchId
                 else set_delete (followedOf w) matchId) w)).
Proof.
  unfold toggleFollow. unfold bind at 1. rewrite loadFollowedSet_done.
  unfold bind. unfold saveFollowedSet at 1, modify at 1.
  match goal with |- context [render ?x] => destruct (render_frame x) as [_ [Hs _]]; rewrite Hs end.
  reflexivity.
Qed.

Lemma followedOf_toggled (matchId : JsVal) (shouldFollow : bool) (w : World) :
  (shouldFollow = true -> defined matchId) ->
  followedOf (final (toggleFollow matchId shouldFollow w))
  = if shouldFollow then set_add (followedOf w) matchId
    else set_delete (followedOf w) matchId.
Proof.
  intros Hdef. destruct (followedOf_canonical w) as [D F].
  rewrite (followedOf_same_storage _ _ (toggleFollow_storage matchId shouldFollow w)).
  apply followedOf_saved; destruct shouldFollow.
  - apply distinct_add, D.
  - apply distinct_delete, D.
  - apply forall_add; auto.
  - apply forall_delete, F.
Qed.

(** C7, as the code has it.  Following a match id that is not yet in the
    follow set and then unfollowing it puts the persisted set back to what it
    was, element for element (so also as a set).  In general the two steps
    leave the set without the id: an id that was followed before is gone
    afterwards. *)
Theorem follow_then_unfollow_restores (w : World) (matchId : JsVal) :
  is_key matchId = true ->
  followedOf (final (toggleFollow matchId false (final (toggleFollow matchId true w))))
  = set_delete (followedOf w) matchId
  /\ (set_has (followedOf w) matchId = false ->
        followedOf (final (toggleFollow matchId false
                             (final (toggleFollow matchId true w))))
        = followedOf w
        /\ same_set (followedOf (final (toggleFollow matchId false
                                          (final (toggleFollow matchId true w)))))
                    (followedOf w)).
Proof.
  intros K.
  assert (E : followedOf (final (toggleFollow matchId false
                                   (final (toggleFollow matchId true w))))
              = set_delete (followedOf w) matchId).
  { rewrite followedOf_toggled by discriminate.
    rewrite followedOf_toggled by (intros _; apply is_key_defined, K).
    destruct (set_has (followedOf w) matchId) eqn:H.
    - rewrite (add_present _ _ H). reflexivity.
    - rewrite (delete_added _ _ K H), (delete_absent _ _ H). reflexivity. }
  split; [exact E|].
  intros H. rewrite E, (delete_absent _ _ H). split; [reflexivity|].
  intros x. reflexivity.
Qed.

Lemma follow_then_unfollow_restores_witness :
  followedOf (final (toggleFollow (J (JStr "m2")) false
                       (final (toggleFollow (J (JStr "m2")) true Sample.w1))))
  = followedOf Sample.w1.
Proof.
  destruct (follow_then_unfollow_restores Sample.w1 (J (JStr "m2")) eq_refl) as [_ H].
  apply H. reflexivity.
Defined.

(** C7 as stated fails for an id that is already followed: with [m1] and
    [m9] in the store, following [m1] and then unfollowing it leaves [m9]
    alone. *)
Lemma follow_then_unfollow_loses_followed_id :
  followedOf Sample.w1 = [J (JStr "m1"); J (JStr "m9")]
  /\ followedOf (final (toggleFollow (J (JStr "m1")) false
                          (final (toggleFollow (J (JStr "m1")) true Sample.w1))))
     = [J (JStr "m9")]
  /\ ~ same_set
         (followedOf (final (toggleFollow (J (JStr "m1")) false
                               (final (toggleFollow (J (JStr "m1")) true Sample.w1)))))
         (followedOf Sample.w1).
Proof.
  split; [reflexivity|]. split; [reflexivity|].
  intros H. specialize (H (J (JStr "m1"))). vm_compute in H. discriminate H.
Qed.

(** C10. Following an id that is already in the follow set leaves the
    persisted set as it was, and so does unfollowing an id that is not in
    it; for an id as the buttons pass it (a string, or any JSON scalar),
    following twice is the same as following once and unfollowing twice
    the same as unfollowing once. *)
Theorem follow_and_unfollow_idempotent (w : World) (matchId : JsVal) :
  (set_has (followedOf w) matchId = true ->
     followedOf (final (toggleFollow matchId true w)) = followedOf w)
  /\ (set_has (followedOf w) matchId = false ->
        followedOf (final (toggleFollow matchId false w)) = followedOf w)
  /\ (is_key matchId = true ->
        followedOf (final (toggleFollow matchId true
                             (final (toggleFollow matchId true w))))
        = followedOf (final (toggleFollow matchId true w))
        /\ followedOf (final (toggleFollow matchId false
                                (final (toggleFollow matchId false w))))
           = followedOf (final (toggleFollow matchId false w))).
Proof.
  destruct (followedOf_canonical w) as [D F].
  split; [|split].
  - intros H.
    rewrite (followedOf_same_storage _ _ (toggleFollow_storage matchId true w)).
    rewrite (add_present _ _ H). apply followedOf_saved; assumption.
  - intros H. rewrite followedOf_toggled by discriminate.
    apply delete_absent, H.
  - intros K. split.
    + rewrite (followedOf_toggled matchId true (final _))
        by (intros _; apply is_key_defined, K).
      apply add_present.
      rewrite followedOf_toggled by (intros _; apply is_key_defined, K).
      apply has_after_add, K.
    + rewrite (followedOf_toggled matchId false (final _)) by discriminate.
      apply delete_absent.
      rewrite followedOf_toggled by discriminate.
      unfold set_delete, set_has.
      destruct (existsb _ _) eqn:E; [|reflexivity].
      apply existsb_exists in E. destruct E as [y [Hy Hxy]].
      apply filter_In in Hy. destruct Hy as [_ Hy].
      rewrite Hxy in Hy. discriminate.
Qed.

Lemma follow_and_unfollow_idempotent_witness :
  followedOf (final (toggleFollow (J (JStr "m1")) true Sample.w1)) = followedOf Sample.w1
  /\ followedOf (final (toggleFollow (J (JStr "m2")) false Sample.w1))
     = followedOf Sample.w1
  /\ followedOf (final (toggleFollow (J (JStr "m2")) true
                          (final (toggleFollow (J (JStr "m2")) true Sample.w1))))
     = followedOf (final (toggleFollow (J (JStr "m2")) true Sample.w1)).
Proof.
  split; [|split].
  - apply (proj1 (follow_and_unfollow_idempotent Sample.w1 (J (JStr "m1")))).
    reflexivity.
  - apply (proj1 (proj2 (follow_and_unfollow_idempotent Sample.w1 (J (JStr "m2"))))).
    reflexivity.
  - apply (proj2 (proj2 (follow_and_unfollow_idempotent Sample.w1 (J (JStr "m2"))))).
    reflexivity.
Defined.

(** ** Followed ids that are not in the snapshot *)






(** ** The older merger against the current one *)

Section LegacyFacts.
Context {host : Host}.

(** On a bucket that is an object whose [live] and [upcoming] are arrays
    or absent, the older revision picks the same list. *)
Lemma legacy_pickList_agrees (fields : list (string * Json)) :
  (Js.optprop (J (JObj fields)) "live" = undefined
   \/ Js.isArray (Js.optprop (J (JObj fields)) "live") = true) ->
  (Js.optprop (J (JObj fields)) "upcoming" = undefined
   \/ Js.isArray (Js.optprop (J (JObj fields)) "upcoming") = true) ->
  Legacy.pickList (J (JObj fields))
  = Ok (J (JArr (chosenList (Js.optprop (J (JObj fields)) "live")
                            (Js.optprop (J (JObj fields)) "upcoming")))).
Proof.
  intros Hl Hu. unfold Legacy.pickList.
  rewrite !(prop_defined (J (JObj fields)) _ eq_refl). cbn [rbind].
  destruct (Js.optprop (J (JObj fields)) "live") as [|[| | | |[|x l]|]];
    try (destruct Hl as [Hl|Hl]; discriminate Hl); cbn;
    destruct (Js.optprop (J (JObj fields)) "upcoming") as [|[]];
    try (destruct Hu as [Hu|Hu]; discriminate Hu); reflexivity.
Qed.

Lemma legacy_mergeKeys_stops (leagues : JsVal) (key : string) (keys : list string) :
  In key keys ->
  (exists e, Legacy.mergeLeague leagues key = Err e) ->
  forall next, exists e, Legacy.mergeKeys leagues keys next = Err e.
Proof.
  intros Hin [e He]. induction keys as [|k rest IH]; [contradiction|].
  intros next. cbn [Legacy.mergeKeys].
  destruct (Legacy.mergeLeague leagues k) as [ms|e'] eqn:Ek; cbn [rbind].
  - destruct Hin as [->|Hin]; [congruence|]. apply IH, Hin.
  - now exists e'.
Qed.

(** The older revision has no fallback for a league that the feed leaves
    out: reading [live] of the missing bucket throws, and no snapshot is
    produced. *)
Lemma legacy_missing_bucket_aborts (leagues : list (string * Json))
  (rest : list (string * Json)) (key : string) :
  In key LEAGUE_KEYS ->
  Js.assoc key leagues = None ->
  exists e, Legacy.mergeSnapshot (J (JObj (("leagues", JObj leagues) :: rest))) = Err e.
Proof.
  intros Hin Hnone. unfold Legacy.mergeSnapshot. cbn [Js.prop Js.assoc].
  replace ("leagues" =? "leagues") with true by reflexivity. cbn [rbind].
  apply (legacy_mergeKeys_stops _ key _ Hin).
  unfold Legacy.mergeLeague. cbn [Js.prop]. rewrite Hnone. cbn.
  eexists; reflexivity.
Qed.

End LegacyFacts.

Example legacy_aborts_on_sample_feed :
  exists e, @Legacy.mergeSnapshot utcHost (J Sample.feed) = Err e.
Proof. eexists; reflexivity. Qed.

Example current_merges_sample_feed :
  map (fun entry => (fst entry, List.length (snd entry))) Sample.next0
  = [("pl", 1%nat); ("ch", 0%nat); ("l1", 1%nat); ("l2", 0%nat)].
Proof. reflexivity. Qed.

(** ** The sample page, painted *)

Example abbreviations :
  getAbbr (J (JStr "Arsenal")) = Ok "ARS"
  /\ getAbbr (J (JStr "  West Ham  United FC ")) = Ok "WHU"
  /\ getAbbr (J (JStr "Chelsea FC")) = Ok "CF"
  /\ getAbbr (J (JStr "")) = Ok ""
  /\ exists e, getAbbr undefined = Err e.
Proof. repeat split. eexists; reflexivity. Qed.

Example sample_page_after_first_poll :
  btnFollowAllLive (page Sample.w1) = "Follow all live (1)"
  /\ map (fun m : TaggedMatch => (Js.to_string (id m), leagueId m))
         (followedMatches (LIVE_DATA Sample.w1) (followedOf Sample.w1))
     = [("m1", "pl")]
  /\ pipWin Sample.w1
     = Some (mkPip false
               (Some (q "<div class='row'><div class='left'>ARS 1 : 0 CF</div>"
                      ++ q "<div class='right'>" ++ "23'</div></div>")))
  /\ renders Sample.w1 = 1%nat.
Proof. repeat split. Qed.

(** * Further properties of the script *)

(** ** Texts *)

Lemma append_nil_r (s : string) : s ++ "" = s.
Proof. induction s as [|c s IH]; simpl; [reflexivity|now rewrite IH]. Qed.

Lemma append_assoc (a b c : string) : (a ++ b) ++ c = a ++ (b ++ c).
Proof. induction a as [|x a IH]; simpl; [reflexivity|now rewrite IH]. Qed.

Lemma length_append (a b : string) :
  String.length (a ++ b) = (String.length a + String.length b)%nat.
Proof. induction a as [|x a IH]; simpl; [reflexivity|now rewrite IH]. Qed.

Lemma rev_string_acc (s acc : string) :
  Js.rev_string s acc = Js.rev_string s "" ++ acc.
Proof.
  revert acc. induction s as [|c s IH]; intros acc; simpl; [reflexivity|].
  rewrite (IH (String c acc)), (IH (String c "")), append_assoc. reflexivity.
Qed.

Lemma rev_string_append (a b : string) :
  Js.rev_string (a ++ b) "" = Js.rev_string b "" ++ Js.rev_string a "".
Proof.
  induction a as [|c a IH]; simpl; [now rewrite append_nil_r|].
  rewrite (rev_string_acc (a ++ b)), IH, (rev_string_acc a (String c "")).
  apply append_assoc.
Qed.

Lemma rev_string_involutive (s : string) :
  Js.rev_string (Js.rev_string s "") "" = s.
Proof.
  induction s as [|c s IH]; simpl; [reflexivity|].
  rewrite (rev_string_acc s), rev_string_append, IH. reflexivity.
Qed.

Lemma trim_start_head (s : string) : starts_with_space (Js.trim_start s) = false.
Proof.
  induction s as [|c s IH]; simpl; [reflexivity|].
  destruct (Js.is_space c) eqn:E; [exact IH|]. simpl. exact E.
Qed.

Lemma trim_start_fixed (s : string) :
  starts_with_space s = false -> Js.trim_start s = s.
Proof. destruct s as [|c s]; simpl; [reflexivity|]. now intros ->. Qed.

Lemma trim_start_split (s : string) : exists p, s = p ++ Js.trim_start s.
Proof.
  induction s as [|c s [p IH]]; simpl.
  - now exists "".
  - destruct (Js.is_space c).
    + exists (String c p). simpl. now rewrite <- IH.
    + now exists "".
Qed.

Lemma trim_no_leading_space (s : string) : starts_with_space (Js.trim s) = false.
Proof.
  unfold Js.trim.
  set (t := Js.trim_start s). set (v := Js.rev_string t "").
  destruct (trim_start_split v) as [p Hv].
  assert (Ht : t = Js.rev_string (Js.trim_start v) "" ++ Js.rev_string p "").
  { rewrite <- rev_string_append, <- Hv. unfold v.
    now rewrite rev_string_involutive. }
  destruct (Js.rev_string (Js.trim_start v) "") as [|c x] eqn:E; [reflexivity|].
  simpl. pose proof (trim_start_head s) as H. fold t in H. rewrite Ht in H.
  exact H.
Qed.

Lemma trim_no_trailing_space (s : string) : ends_with_space (Js.trim s) = false.
Proof.
  unfold ends_with_space, Js.trim. rewrite rev_string_involutive.
  apply trim_start_head.
Qed.

Lemma trim_idempotent (s : string) : Js.trim (Js.trim s) = Js.trim s.
Proof.
  pose proof (trim_no_leading_space s) as H.
  unfold Js.trim at 1. rewrite (trim_start_fixed _ H).
  unfold Js.trim. rewrite rev_string_involutive.
  rewrite (trim_start_fixed _ (trim_start_head _)). reflexivity.
Qed.

Lemma call_trim_ok (v : JsVal) :
  (exists s, Js.call_trim v = Ok s) <-> is_string v = true.
Proof.
  destruct v as [|[]]; simpl; split; intros H;
    try discriminate; try (destruct H; discriminate); auto.
  eexists; reflexivity.
Qed.

Lemma rev_string_ascii (s acc : string) :
  Js.ascii_text (Js.rev_string s acc) = Js.ascii_text s && Js.ascii_text acc.
Proof.
  revert acc. induction s as [|c s IH]; intros acc; cbn [Js.rev_string Js.ascii_text].
  - reflexivity.
  - rewrite IH. cbn [Js.ascii_text].
    destruct (nat_of_ascii c <? 128)%nat; cbn [andb];
      [reflexivity|now rewrite andb_false_r].
Qed.

Lemma trim_start_ascii (s : string) :
  Js.ascii_text s = true -> Js.ascii_text (Js.trim_start s) = true.
Proof.
  induction s as [|c s IH]; cbn [Js.trim_start]; [reflexivity|].
  intros A. destruct (Js.is_space c); [|exact A].
  cbn [Js.ascii_text] in A. apply andb_prop in A. apply IH, A.
Qed.

Lemma trim_ascii (s : string) :
  Js.ascii_text s = true -> Js.ascii_text (Js.trim s) = true.
Proof.
  intros A. unfold Js.trim.
  rewrite rev_string_ascii. cbn [Js.ascii_text]. rewrite andb_true_r.
  apply trim_start_ascii. rewrite rev_string_ascii. cbn [Js.ascii_text].
  rewrite andb_true_r. apply trim_start_ascii, A.
Qed.

Lemma call_trim_err (v : JsVal) :
  (exists e, Js.call_trim v = Err e) <-> is_string v = false.
Proof.
  destruct v as [|[]]; simpl; split; intros H;
    try discriminate; try (destruct H; discriminate); auto; eexists; reflexivity.
Qed.

(** ** The normaliser, further *)

Section NormaliserExtras.
Context {host : Host}.

(** X1. [toMatchModel] raises exactly when the record is [null] (or
    [undefined]), when its timestamp does not convert to a primitive
    ([new Date] throws), or when the first truthy of its home names, or of
    its away names, is not a string: a number or an object as team name
    stops the normaliser, a missing name does not. *)
Theorem normaliser_fails_exactly_when (f : JsVal) :
  (exists e, toMatchModel f = Err e)
  <-> (Js.nullish f = true
       \/ Js.printable (Js.optprop f "kickoffISO") = false
       \/ is_string (first_truthy (Js.optprop f "homeTeam") (Js.optprop f "homeName")
                                  (Js.optprop f "home")) = false
       \/ is_string (first_truthy (Js.optprop f "awayTeam") (Js.optprop f "awayName")
                                  (Js.optprop f "away")) = false).
Proof.
  destruct (Js.nullish f) eqn:Hf.
  - split; [auto|]. intros _. apply toMatchModel_null, Hf.
  - rewrite (toMatchModel_defined f Hf). cbn zeta. unfold first_truthy.
    destruct (isoToLocalKickoff (Js.optprop f "kickoffISO")) as [shown|e0] eqn:Ek;
      cbn [rbind].
    + assert (Hk : Js.printable (Js.optprop f "kickoffISO") = true).
      { destruct (Js.printable (Js.optprop f "kickoffISO")) eqn:P; [reflexivity|].
        destruct (proj2 (isoToLocalKickoff_raises _) P) as [e He]. congruence. }
      destruct (Js.call_trim (Js.or (Js.or (Js.or (Js.optprop f "homeTeam") _) _) _))
        as [h|e1] eqn:Eh; cbn [rbind].
      * assert (Hh : is_string (Js.or (Js.or (Js.or (Js.optprop f "homeTeam")
                                  (Js.optprop f "homeName")) (Js.optprop f "home"))
                                  (J (JStr ""))) = true)
          by (apply call_trim_ok; eauto).
        destruct (Js.call_trim (Js.or (Js.or (Js.or (Js.optprop f "awayTeam") _) _) _))
          as [a|e2] eqn:Ea; cbn [rbind].
        -- assert (Ha : is_string (Js.or (Js.or (Js.or (Js.optprop f "awayTeam")
                                    (Js.optprop f "awayName")) (Js.optprop f "away"))
                                    (J (JStr ""))) = true)
             by (apply call_trim_ok; eauto).
           split; [intros [e He]; discriminate|].
           intros [H|[H|[H|H]]]; congruence.
        -- split; [|intros _; eauto]. intros _. right. right. right.
           apply call_trim_err. eauto.
      * split; [|intros _; eauto]. intros _. right. right. left.
        apply call_trim_err. eauto.
    + split; [|intros _; eauto]. intros _. right. left.
      apply isoToLocalKickoff_raises. eauto.
Qed.

(** X2. A normalised match never carries [null] or [undefined] goals
    (absent goals are 0, present ones are kept as they are), its status
    is LIVE exactly when the record's [isLive] is truthy, whatever the goals
    and the clock say, and its minute text is either truthy or the empty
    text, never [undefined]. *)
Theorem normalised_match_is_filled (f : JsVal) (m : Match) :
  toMatchModel f = Ok m ->
  Js.nullish (homeGoals m) = false
  /\ Js.nullish (awayGoals m) = false
  /\ (Js.nullish (Js.optprop f "homeGoals") = true -> homeGoals m = J (JNum 0))
  /\ (Js.nullish (Js.optprop f "homeGoals") = false ->
        homeGoals m = Js.optprop f "homeGoals")
  /\ (status m = LIVE <-> Js.truthy (Js.optprop f "isLive") = true)
  /\ (Js.truthy (minute m) = true \/ minute m = J (JStr ""))
  /\ (status m = LIVE -> minute m = Js.or (Js.optprop f "minute") (J (JStr ""))).
Proof.
  destruct (Js.nullish f) eqn:Hf.
  - destruct (toMatchModel_null f Hf) as [e ->]. discriminate.
  - rewrite (toMatchModel_defined f Hf). cbn zeta. kickoff_ok. both_trims_ok.
    intros E. injection E as <-.
    cbn [homeGoals awayGoals status minute]. unfold Js.coalesce.
    repeat split.
    + destruct (Js.nullish (Js.optprop f "homeGoals")) eqn:E; [reflexivity|exact E].
    + destruct (Js.nullish (Js.optprop f "awayGoals")) eqn:E; [reflexivity|exact E].
    + intros ->. reflexivity.
    + intros ->. reflexivity.
    + destruct (Js.truthy (Js.optprop f "isLive")); intros; congruence.
    + destruct (Js.truthy (Js.optprop f "isLive")); intros; congruence.
    + destruct (Js.truthy (Js.optprop f "isLive")).
      * unfold Js.or. destruct (Js.truthy (Js.optprop f "minute")) eqn:T; auto.
      * destruct (negb _); [left; reflexivity|right; reflexivity].
    + destruct (Js.truthy (Js.optprop f "isLive")); intros; congruence.
Qed.

(** X3. The team names of a normalised match come from the first truthy
    of [homeTeam], [homeName], [home] (of [awayTeam], [awayName], [away]),
    which is a string.  When that string is ASCII text, the name is the
    string with the white space around it removed: it is ASCII text that
    neither starts nor ends with white space, and trimming it again changes
    nothing.  The name is empty when the record names no team. *)
Theorem team_names_are_trimmed (f : JsVal) (m : Match) :
  toMatchModel f = Ok m ->
  exists hs as_,
    first_truthy (Js.optprop f "homeTeam") (Js.optprop f "homeName")
                 (Js.optprop f "home") = J (JStr hs)
    /\ first_truthy (Js.optprop f "awayTeam") (Js.optprop f "awayName")
                    (Js.optprop f "away") = J (JStr as_)
    /\ (Js.ascii_text hs = true ->
          homeTeam m = Js.trim hs
          /\ Js.ascii_text (homeTeam m) = true
          /\ starts_with_space (homeTeam m) = false
          /\ ends_with_space (homeTeam m) = false
          /\ Js.trim (homeTeam m) = homeTeam m)
    /\ (Js.ascii_text as_ = true ->
          awayTeam m = Js.trim as_
          /\ Js.ascii_text (awayTeam m) = true
          /\ starts_with_space (awayTeam m) = false
          /\ ends_with_space (awayTeam m) = false
          /\ Js.trim (awayTeam m) = awayTeam m)
    /\ (Js.truthy (Js.optprop f "homeTeam") = false ->
        Js.truthy (Js.optprop f "homeName") = false ->
        Js.truthy (Js.optprop f "home") = false -> homeTeam m = "")
    /\ (Js.truthy (Js.optprop f "awayTeam") = false ->
        Js.truthy (Js.optprop f "awayName") = false ->
        Js.truthy (Js.optprop f "away") = false -> awayTeam m = "").
Proof.
  destruct (Js.nullish f) eqn:Hf.
  - destruct (toMatchModel_null f Hf) as [e ->]. discriminate.
  - rewrite (toMatchModel_defined f Hf). cbn zeta. kickoff_ok.
    fold (first_truthy
      (Js.optprop f "homeTeam") (Js.optprop f "homeName") (Js.optprop f "home")).
    fold (first_truthy
      (Js.optprop f "awayTeam") (Js.optprop f "awayName") (Js.optprop f "away")).
    destruct (first_truthy (Js.optprop f "homeTeam") _ _) as [|[| | |hs| |]] eqn:Eh;
      cbn [Js.call_trim rbind]; try discriminate.
    destruct (first_truthy (Js.optprop f "awayTeam") _ _) as [|[| | |as_| |]] eqn:Ea;
      cbn [Js.call_trim rbind]; try discriminate.
    intros E. injection E as <-. cbn [homeTeam awayTeam].
    exists hs, as_. split; [reflexivity|]. split; [reflexivity|].
    split; [|split; [|split]].
    + intros A. split; [reflexivity|]. split; [apply trim_ascii, A|].
      split; [apply trim_no_leading_space|].
      split; [apply trim_no_trailing_space|apply trim_idempotent].
    + intros A. split; [reflexivity|]. split; [apply trim_ascii, A|].
      split; [apply trim_no_leading_space|].
      split; [apply trim_no_trailing_space|apply trim_idempotent].
    + intros T1 T2 T3. unfold first_truthy, Js.or in Eh.
      rewrite T1, T2, T3 in Eh. injection Eh as <-. reflexivity.
    + intros T1 T2 T3. unfold first_truthy, Js.or in Ea.
      rewrite T1, T2, T3 in Ea. injection Ea as <-. reflexivity.
Qed.

End NormaliserExtras.

Lemma normalised_match_is_filled_witness :
  exists m, @toMatchModel utcHost (J Sample2.m4) = Ok m
            /\ homeGoals m = J (JNum 0) /\ status m = LIVE /\ minute m = J (JStr "").
Proof.
  destruct (@toMatchModel utcHost (J Sample2.m4)) as [m|e] eqn:E; [|discriminate E].
  exists m. split; [reflexivity|].
  destruct (@normalised_match_is_filled utcHost (J Sample2.m4) m E)
    as [_ [_ [G [_ [S [_ M]]]]]].
  split; [apply G; reflexivity|]. split; [apply S; reflexivity|].
  rewrite M; [reflexivity|apply S; reflexivity].
Defined.

Lemma team_names_are_trimmed_witness :
  exists m, @toMatchModel utcHost (J Sample2.m4) = Ok m
            /\ homeTeam m = "Port Vale" /\ awayTeam m = "Crewe".
Proof.
  destruct (@toMatchModel utcHost (J Sample2.m4)) as [m|e] eqn:E; [|discriminate E].
  exists m. split; [reflexivity|].
  destruct (@team_names_are_trimmed utcHost (J Sample2.m4) m E)
    as [hs [as_ [Hs [Hs' [Hh [Ha _]]]]]].
  vm_compute in Hs, Hs'. injection Hs as <-. injection Hs' as <-.
  destruct (Hh eq_refl) as [-> _]. destruct (Ha eq_refl) as [-> _].
  split; reflexivity.
Defined.

Example number_as_team_name_stops_normaliser :
  exists e, @toMatchModel utcHost (J Sample2.m5) = Err e.
Proof. eexists; reflexivity. Qed.

(** ** Abbreviations *)

Lemma upper_char_twice (c : ascii) : Js.upper_char (Js.upper_char c) = Js.upper_char c.
Proof. destruct c as [[] [] [] [] [] [] [] []]; reflexivity. Qed.

Lemma toUpperCase_twice (s : string) : Js.toUpperCase (Js.toUpperCase s) = Js.toUpperCase s.
Proof.
  induction s as [|c s IH]; simpl; [reflexivity|].
  now rewrite upper_char_twice, IH.
Qed.

Lemma toUpperCase_length (s : string) : String.length (Js.toUpperCase s) = String.length s.
Proof. induction s as [|c s IH]; simpl; [reflexivity|now rewrite IH]. Qed.

Lemma substring0_length (n : nat) (s : string) :
  (String.length (substring 0 n s) <= n)%nat.
Proof.
  revert s. induction n as [|n IH]; intros [|c s]; simpl; try lia.
  specialize (IH s). lia.
Qed.

Lemma join_cons (sep x y : string) (rest : list string) :
  Js.join sep (x :: y :: rest) = x ++ sep ++ Js.join sep (y :: rest).
Proof. reflexivity. Qed.

Lemma initials_length (parts : list string) :
  (String.length (Js.join "" (map Js.first_char parts)) <= List.length parts)%nat.
Proof.
  induction parts as [|x [|y rest] IH].
  - simpl. lia.
  - simpl. pose proof (substring0_length 1 x). unfold Js.first_char. lia.
  - cbn [map] in *. rewrite join_cons, !length_append. cbn [String.length List.length] in *.
    pose proof (substring0_length 1 x). unfold Js.first_char at 1. lia.
Qed.

Lemma initials3_length (parts : list string) :
  (String.length (Js.join "" (map Js.first_char (firstn 3 parts))) <= 3)%nat.
Proof.
  apply (Nat.le_trans _ (List.length (firstn 3 parts))).
  - apply initials_length.
  - apply firstn_le_length.
Qed.

Lemma upper_char_ascii (c : ascii) :
  (nat_of_ascii c <? 128)%nat = true -> (nat_of_ascii (Js.upper_char c) <? 128)%nat = true.
Proof. destruct c as [[] [] [] [] [] [] [] []]; vm_compute; intros H; exact H || reflexivity. Qed.

Lemma toUpperCase_ascii (s : string) :
  Js.ascii_text s = true -> Js.ascii_text (Js.toUpperCase s) = true.
Proof.
  induction s as [|c s IH]; cbn [Js.toUpperCase Js.ascii_text]; [reflexivity|].
  intros A. apply andb_prop in A. destruct A as [Ac As].
  rewrite (upper_char_ascii c Ac), (IH As). reflexivity.
Qed.

Lemma substring0_ascii (n : nat) (s : string) :
  Js.ascii_text s = true -> Js.ascii_text (substring 0 n s) = true.
Proof.
  revert s. induction n as [|n IH]; intros [|c s]; cbn [substring Js.ascii_text];
    try reflexivity.
  intros A. apply andb_prop in A. destruct A as [Ac As].
  rewrite Ac, (IH s As). reflexivity.
Qed.

Lemma append_ascii (a b : string) :
  Js.ascii_text (a ++ b) = Js.ascii_text a && Js.ascii_text b.
Proof.
  induction a as [|c a IH]; cbn [append Js.ascii_text]; [reflexivity|].
  rewrite IH. now rewrite andb_assoc.
Qed.

Lemma words_aux_ascii (s cur : string) :
  Js.ascii_text s = true -> Js.ascii_text cur = true ->
  Forall (fun p => Js.ascii_text p = true) (Js.words_aux s cur).
Proof.
  revert cur. induction s as [|c s IH]; intros cur As Ac; cbn [Js.words_aux].
  - destruct (cur =? ""); constructor; [|constructor].
    rewrite rev_string_ascii, Ac. reflexivity.
  - cbn [Js.ascii_text] in As. apply andb_prop in As. destruct As as [Hc Hs].
    destruct (Js.is_space c).
    + destruct (cur =? "").
      * apply IH; [exact Hs|reflexivity].
      * constructor; [rewrite rev_string_ascii, Ac; reflexivity|].
        apply IH; [exact Hs|reflexivity].
    + apply IH; [exact Hs|]. cbn [Js.ascii_text]. rewrite Hc, Ac. reflexivity.
Qed.

Lemma initials_ascii (parts : list string) :
  Forall (fun p => Js.ascii_text p = true) parts ->
  Js.ascii_text (Js.join "" (map Js.first_char parts)) = true.
Proof.
  induction parts as [|x [|y rest] IH]; intros F.
  - reflexivity.
  - cbn [map Js.join]. apply substring0_ascii. now inversion F.
  - cbn [map] in *. rewrite join_cons, !append_ascii. inversion F; subst.
    unfold Js.first_char at 1. rewrite (substring0_ascii 1 x) by assumption.
    cbn [Js.ascii_text andb]. apply IH. assumption.
Qed.

Lemma Forall_firstn {A} (P : A -> Prop) (n : nat) (l : list A) :
  Forall P l -> Forall P (firstn n l).
Proof.
  revert l. induction n as [|n IH]; intros [|x l] F; cbn [firstn]; try constructor.
  - now inversion F.
  - apply IH. now inversion F.
Qed.

(** X4. [getAbbr] answers exactly for strings (anything else has no
    [trim]).  For a name that is ASCII text its answer is ASCII text of at
    most three characters and holds no lower-case letter (upper-casing it
    again changes nothing). *)
Theorem abbreviation_is_short_and_upper (teamName : JsVal) :
  ((exists r, getAbbr teamName = Ok r) <-> is_string teamName = true)
  /\ (forall s r, teamName = J (JStr s) -> Js.ascii_text s = true ->
        getAbbr teamName = Ok r ->
        (String.length r <= 3)%nat /\ Js.toUpperCase r = r /\ Js.ascii_text r = true).
Proof.
  unfold getAbbr. split.
  - destruct teamName as [|[]]; cbn [Js.call_trim rbind is_string]; split; intros H;
      try discriminate; try (destruct H; discriminate); auto.
    destruct (Nat.eqb _ 1); eexists; reflexivity.
  - intros s r -> A. cbn [Js.call_trim rbind].
    pose proof (words_aux_ascii (Js.trim s) "" (trim_ascii s A) eq_refl) as F.
    fold (Js.words (Js.trim s)) in F.
    destruct (Nat.eqb (List.length (Js.words (Js.trim s))) 1); intros E; injection E as <-;
      rewrite toUpperCase_length, toUpperCase_twice; (split; [|split; [reflexivity|]]).
    + apply substring0_length.
    + apply toUpperCase_ascii, substring0_ascii.
      destruct (Js.words (Js.trim s)) as [|x rest]; [reflexivity|now inversion F].
    + exact (initials3_length (Js.words (Js.trim s))).
    + apply toUpperCase_ascii, initials_ascii.
      exact (Forall_firstn _ 3 _ F).
Qed.

Lemma abbreviation_is_short_and_upper_witness :
  getAbbr (J (JStr "  west  bromwich albion fc")) = Ok "WBA"
  /\ (String.length "WBA" <= 3)%nat /\ Js.toUpperCase "WBA" = "WBA".
Proof.
  split; [reflexivity|].
  destruct (proj2 (abbreviation_is_short_and_upper (J (JStr "  west  bromwich albion fc")))
              "  west  bromwich albion fc" "WBA" eq_refl eq_refl eq_refl) as [L [U _]].
  split; [exact L|exact U].
Defined.

(** ** The merged snapshot *)

Lemma mapR_in {A B} (fn : A -> Result B) (l : list A) (ys : list B) (y : B) :
  mapR fn l = Ok ys -> In y ys -> exists x, In x l /\ fn x = Ok y.
Proof.
  revert ys. induction l as [|x l IH]; cbn [mapR]; intros ys E Hy.
  - injection E as <-. contradiction.
  - destruct (fn x) as [b|e] eqn:Ex; cbn [rbind] in E; [|discriminate].
    destruct (mapR fn l) as [bs|e] eqn:El; cbn [rbind] in E; [|discriminate].
    injection E as <-. destruct Hy as [<-|Hy].
    + exists x. split; [left; reflexivity|exact Ex].
    + destruct (IH bs eq_refl Hy) as [x' [Hin Hx']]. exists x'. split; [right|]; assumption.
Qed.

Section SnapshotExtras.
Context {host : Host}.

Lemma stamp_leagueName (key : string) (f : Json) (m : Match) :
  stamp key f = Ok m -> leagueName m = Js.optprop (J (JObj leagueNames)) key.
Proof.
  unfold stamp. destruct (toMatchModel (J f)); cbn [rbind]; [|discriminate].
  intros E. injection E as <-. reflexivity.
Qed.

(** X5. A snapshot the merger produces has exactly the four league keys, in
    the fixed order, and every match in it carries the display name of the
    league it is listed under. *)
Theorem merged_snapshot_is_keyed_and_stamped (data : JsVal) (next : Snapshot) :
  mergeSnapshot data = Ok next ->
  map fst next = LEAGUE_KEYS
  /\ forall tm : TaggedMatch, In tm (allMatches next) ->
       exists name, In (leagueId tm, name) LEAGUES
                    /\ leagueName tm = J (JStr name).
Proof.
  rewrite mergeSnapshot_spec. unfold spec_merge. intros E.
  league_ok E "pl". league_ok E "ch". league_ok E "l1". league_ok E "l2".
  injection E as <-. split; [reflexivity|].
  intros tm Htm. unfold allMatches in Htm. apply in_flat_map in Htm.
  destruct Htm as [[key ms] [Hentry Hm]]. apply in_map_iff in Hm.
  destruct Hm as [m [<- Hm]]. cbn [leagueId the_match fst snd] in *.
  destruct Hentry as [E|[E|[E|[E|[]]]]]; injection E as <- <-;
    (match goal with
     | H : mapR (stamp ?k) _ = Ok ?l, Hin : In m ?l |- _ =>
         destruct (mapR_in _ _ _ _ H Hin) as [f [_ Hf]];
         apply stamp_leagueName in Hf; rewrite Hf
     end);
    eexists; (split; [|reflexivity]); simpl; auto 6.
Qed.

End SnapshotExtras.

Lemma merged_snapshot_is_keyed_and_stamped_witness :
  map fst Sample.next0 = LEAGUE_KEYS
  /\ map (fun tm : TaggedMatch => (leagueId tm, leagueName tm)) (allMatches Sample.next0)
     = [("pl", J (JStr "Premier League")); ("l1", J (JStr "League One"))].
Proof.
  destruct (@merged_snapshot_is_keyed_and_stamped utcHost (J Sample.feed) Sample.next0
              eq_refl) as [A _].
  split; [exact A|reflexivity].
Defined.

(** ** Looking a match up *)

(** X6. [findMatchById] answers [null] exactly when no match of any league
    has that id; otherwise it answers a match with that id, tagged with a
    league of the snapshot that lists it. *)
Theorem find_match_by_id_is_exact (data : Snapshot) (id_ : JsVal) :
  (findMatchById data id_ = None
   <-> forall key ms m, In (key, ms) data -> In m ms -> Js.strict_eq (id m) id_ = false)
  /\ (forall tm, findMatchById data id_ = Some tm ->
        Js.strict_eq (id tm) id_ = true
        /\ exists ms, In (leagueId tm, ms) data /\ In (the_match tm) ms).
Proof.
  unfold findMatchById, allMatches. split; [split|].
  - intros H key ms m Hentry Hm.
    apply (find_none _ _ H (mkTagged m key)).
    apply in_flat_map. exists (key, ms). split; [exact Hentry|].
    apply in_map_iff. exists m. split; [reflexivity|exact Hm].
  - intros H. destruct (find _ _) as [tm|] eqn:E; [|reflexivity].
    apply find_some in E. destruct E as [Hin Heq].
    apply in_flat_map in Hin. destruct Hin as [[key ms] [Hentry Hm]].
    apply in_map_iff in Hm. destruct Hm as [m [<- Hm]].
    cbn [the_match] in Heq. rewrite (H key ms m Hentry Hm) in Heq. discriminate.
  - intros tm E. apply find_some in E. destruct E as [Hin Heq].
    split; [exact Heq|].
    apply in_flat_map in Hin. destruct Hin as [[key ms] [Hentry Hm]].
    apply in_map_iff in Hm. destruct Hm as [m [<- Hm]].
    exists ms. split; assumption.
Qed.

(** ** The quick action and the league sections *)

Lemma live_count_sums (data : Snapshot) :
  List.length (filter (fun m : TaggedMatch => is_live m) (allMatches data))
  = list_sum (map liveIn data).
Proof.
  unfold allMatches. induction data as [|[key ms] rest IH]; [reflexivity|].
  cbn [flat_map]. rewrite filter_app, length_app, IH.
  change (list_sum (map liveIn ((key, ms) :: rest)))
    with (liveIn (key, ms) + list_sum (map liveIn rest))%nat.
  f_equal. unfold liveIn. cbn [snd fst]. clear.
  induction ms as [|m ms IH]; [reflexivity|].
  cbn [map filter the_match]. destruct (is_live m); cbn [List.length]; rewrite IH; reflexivity.
Qed.

(** X7. The label of the quick-action button counts the LIVE matches of
    every league of the snapshot, whatever the league filter: the count is
    the sum of the leagues' live counts, and the label carries no count
    exactly when no league has a live match. *)
Theorem quick_action_counts_every_league (data : Snapshot) :
  (list_sum (map liveIn data) = 0%nat -> quickActionLabel data = "Follow all live")
  /\ ((0 < list_sum (map liveIn data))%nat ->
        quickActionLabel data
        = "Follow all live (" ++ Js.nat_to_string (list_sum (map liveIn data)) ++ ")")
  /\ (forall w val,
        btnFollowAllLive (page (final (onFilterClick (Some val) w)))
        = quickActionLabel (LIVE_DATA w)).
Proof.
  unfold quickActionLabel. rewrite live_count_sums. split; [|split].
  - intros ->. reflexivity.
  - intros H. apply Nat.ltb_lt in H. rewrite H. reflexivity.
  - intros w val. unfold onFilterClick, bind, saveLeagueFilter, modify.
    match goal with |- context [render ?x] =>
      destruct (render_frame x) as [_ [_ [_ Hp]]]; rewrite Hp end.
    unfold painted. cbn [page btnFollowAllLive LIVE_DATA set_localStorage].
    unfold quickActionLabel. rewrite live_count_sums. reflexivity.
Qed.

Lemma filter_twice {A} (p : A -> bool) (l : list A) : filter p (filter p l) = filter p l.
Proof.
  induction l as [|x l IH]; simpl; [reflexivity|].
  destruct (p x) eqn:E; simpl; [rewrite E, IH|]; auto.
Qed.

Lemma no_upcoming_among_live (ms : list Match) : filter is_upcoming (filter is_live ms) = [].
Proof.
  induction ms as [|m ms IH]; simpl; [reflexivity|].
  destruct (is_live m) eqn:E; simpl; [|exact IH].
  unfold is_live, is_upcoming in *. destruct (status m); [simpl; exact IH|discriminate].
Qed.

Lemma all_upcoming_without_live (ms : list Match) :
  filter is_live ms = [] -> filter is_upcoming ms = ms.
Proof.
  induction ms as [|m ms IH]; simpl; [reflexivity|].
  unfold is_live, is_upcoming in *. destruct (status m); simpl; [discriminate|].
  intros H. now rewrite IH.
Qed.

Lemma length_zero_nil {A} (l : list A) : Nat.eqb (List.length l) 0 = true -> l = [].
Proof. destruct l; [reflexivity|discriminate]. Qed.

(** X8. What a league section shows.  As soon as the league's list holds a
    LIVE match, the section is that of the LIVE matches alone: the UPCOMING
    ones of the same list are not shown.  A list without a LIVE match is
    shown whole, under the badge [n upcoming].  A league with no list or an
    empty one gets the badge [No live games] and the empty-state body. *)
Theorem section_shows_live_or_all_upcoming (data : Snapshot) (followed : JsSet)
  (lg : string * string) :
  (forall ms, Js.assoc (fst lg) data = Some ms -> filter is_live ms <> [] ->
     leagueSection data followed lg
     = sectionMarkup lg (Js.nat_to_string (List.length (filter is_live ms)) ++ " live")
                     (rowsMarkup (filter is_live ms) lg followed))
  /\ (forall ms, Js.assoc (fst lg) data = Some ms -> filter is_live ms = [] -> ms <> [] ->
        leagueSection data followed lg
        = sectionMarkup lg (Js.nat_to_string (List.length ms) ++ " upcoming")
                        (rowsMarkup ms lg followed))
  /\ (Js.assoc (fst lg) data = None \/ Js.assoc (fst lg) data = Some [] ->
        leagueSection data followed lg = sectionMarkup lg "No live games" noGamesMarkup).
Proof.
  unfold leagueSection, sectionMarkup, rowsMarkup, noGamesMarkup. split; [|split].
  - intros ms -> Hlive. cbv zeta.
    destruct (filter is_live ms) as [|m rest] eqn:E; [contradiction|].
    reflexivity.
  - intros ms -> Hlive Hms. cbv zeta.
    rewrite Hlive, (all_upcoming_without_live ms Hlive).
    destruct ms as [|m rest]; [contradiction|]. reflexivity.
  - intros [-> | ->]; reflexivity.
Qed.

Lemma section_shows_live_or_all_upcoming_witness :
  leagueSection Sample.next0 [] ("pl", "Premier League")
  = sectionMarkup ("pl", "Premier League") "1 live"
      (rowsMarkup (filter is_live (match Js.assoc "pl" Sample.next0 with
                                   | Some ms => ms
                                   | None => []
                                   end))
                  ("pl", "Premier League") [])
  /\ leagueSection Sample.next0 [] ("l2", "League Two")
     = sectionMarkup ("l2", "League Two") "No live games" noGamesMarkup.
Proof.
  destruct (section_shows_live_or_all_upcoming Sample.next0 [] ("pl", "Premier League"))
    as [A _].
  destruct (section_shows_live_or_all_upcoming Sample.next0 [] ("l2", "League Two"))
    as [_ [_ C]].
  split.
  - eapply eq_trans; [apply A; [reflexivity|discriminate]|reflexivity].
  - apply C. right. reflexivity.
Defined.

(** ** When [render] raises *)

Lemma mapR_err_iff {A B} (fn : A -> Result B) (l : list A) :
  (exists e, mapR fn l = Err e) <-> (exists x, In x l /\ exists e, fn x = Err e).
Proof.
  split.
  - induction l as [|x l IH]; cbn [mapR]; intros [e He]; [discriminate|].
    destruct (fn x) as [y|e'] eqn:Ex; cbn [rbind] in He.
    + destruct (mapR fn l) as [ys|e''] eqn:El; cbn [rbind] in He; [discriminate|].
      destruct IH as [x' [Hin Hx']]; [eauto|]. exists x'. split; [right|]; assumption.
    + exists x. split; [left; reflexivity|eauto].
  - intros [x [Hin He]]. apply (mapR_stops fn l x Hin He).
Qed.

Lemma getAbbr_raises (v : JsVal) : (exists e, getAbbr v = Err e) <-> is_string v = false.
Proof.
  unfold getAbbr. destruct v as [|[]]; cbn [Js.call_trim rbind is_string]; split; intros H;
    try discriminate; auto; try (eexists; reflexivity).
  destruct H as [e He]. destruct (Nat.eqb _ 1); discriminate.
Qed.

Lemma pinnedRow_raises (m : TaggedMatch) :
  (exists e, pinnedRow m = Err e)
  <-> (is_string (home m) = false \/ is_string (away m) = false).
Proof.
  unfold pinnedRow. split.
  - intros [e He]. destruct (getAbbr (home m)) as [h|e1] eqn:Eh; cbn [rbind] in He.
    + destruct (getAbbr (away m)) as [a|e2] eqn:Ea; cbn [rbind] in He; [discriminate|].
      right. apply getAbbr_raises. eauto.
    + left. apply getAbbr_raises. eauto.
  - intros [H|H].
    + apply getAbbr_raises in H. destruct H as [e He]. rewrite He. cbn [rbind]. eauto.
    + apply getAbbr_raises in H. destruct H as [e He].
      destruct (getAbbr (home m)); cbn [rbind]; [rewrite He; cbn [rbind]|]; eauto.
Qed.

Lemma pinnedHtml_raises (data : Snapshot) (followed : JsSet) :
  (exists e, pinnedHtml data followed = Err e)
  <-> (exists m, In m (followedMatches data followed)
                 /\ (is_string (home m) = false \/ is_string (away m) = false)).
Proof.
  unfold pinnedHtml. destruct (Nat.eqb (List.length (followedMatches data followed)) 0) eqn:E.
  - apply length_zero_nil in E. rewrite E. split.
    + intros [e He]. discriminate.
    + intros [m [[] _]].
  - split.
    + intros [e He].
      destruct (mapR pinnedRow _) as [rows|e'] eqn:Er; cbn [rbind] in He; [discriminate|].
      destruct (proj1 (mapR_err_iff pinnedRow (followedMatches data followed)))
        as [m [Hin Hm]]; [eauto|].
      exists m. split; [exact Hin|]. apply pinnedRow_raises, Hm.
    + intros [m [Hin Hm]]. apply pinnedRow_raises in Hm.
      destruct (proj2 (mapR_err_iff pinnedRow (followedMatches data followed)))
        as [e He]; [eauto|].
      rewrite He. cbn [rbind]. eauto.
Qed.

(** ** The painters with their exceptions *)

Lemma printable_ToString (v : JsVal) :
  Js.printable v = true -> Js.ToString v = Ok (Js.to_string v).
Proof. unfold Js.ToString. intros ->. reflexivity. Qed.

Lemma mapR_all_ok {A B} (fn : A -> Result B) (g : A -> B) (l : list A) :
  (forall x, In x l -> fn x = Ok (g x)) -> mapR fn l = Ok (map g l).
Proof.
  induction l as [|x l IH]; intros H; cbn [mapR map]; [reflexivity|].
  rewrite (H x (or_introl eq_refl)). cbn [rbind].
  rewrite IH by (intros y Hy; apply H; right; exact Hy). reflexivity.
Qed.

Lemma mapR_ext_in {A B} (fn gn : A -> Result B) (l : list A) :
  (forall x, In x l -> fn x = gn x) -> mapR fn l = mapR gn l.
Proof.
  induction l as [|x l IH]; intros H; cbn [mapR]; [reflexivity|].
  rewrite (H x (or_introl eq_refl)).
  rewrite IH by (intros y Hy; apply H; right; exact Hy). reflexivity.
Qed.

Lemma printable_shown (m : Match) :
  printable_match m = true ->
  Js.printable (shownHome m) = true /\ Js.printable (shownAway m) = true.
Proof.
  unfold printable_match, shownHome, shownAway, Js.or. intros P.
  repeat (apply andb_prop in P; destruct P as [P ?]).
  split.
  - destruct (Js.truthy (J (JStr (homeTeam m)))); [reflexivity|assumption].
  - destruct (Js.truthy (J (JStr (awayTeam m)))); [reflexivity|assumption].
Qed.

Lemma throwing_formatScoreline (m : Match) :
  printable_match m = true -> Throwing.formatScoreline m = Ok (formatScoreline m).
Proof.
  unfold printable_match, Throwing.formatScoreline, formatScoreline. intros P.
  repeat (apply andb_prop in P; destruct P as [P ?]).
  destruct (status m); [|reflexivity].
  rewrite !printable_ToString by assumption. reflexivity.
Qed.

Lemma throwing_formatRightMeta (m : Match) :
  printable_match m = true -> Throwing.formatRightMeta m = Ok (formatRightMeta m).
Proof.
  unfold printable_match, Throwing.formatRightMeta, formatRightMeta. intros P.
  repeat (apply andb_prop in P; destruct P as [P ?]).
  destruct (status m); [|reflexivity].
  rewrite !printable_ToString by assumption. reflexivity.
Qed.

Lemma throwing_followedPill (m : TaggedMatch) :
  printable_match m = true -> Throwing.followedPill m = Ok (followedPill m).
Proof.
  intros P. unfold Throwing.followedPill, followedPill.
  destruct (printable_shown m P) as [Ph Pa].
  rewrite (throwing_formatScoreline m P), (throwing_formatRightMeta m P).
  unfold printable_match in P.
  repeat (apply andb_prop in P; destruct P as [P ?]).
  rewrite !printable_ToString by assumption. reflexivity.
Qed.

Lemma throwing_renderMatchRow (m : Match) (lg : string * string) (followed : JsSet) :
  printable_match m = true ->
  Throwing.renderMatchRow m lg followed = Ok (renderMatchRow m lg followed).
Proof.
  intros P. unfold Throwing.renderMatchRow, renderMatchRow.
  destruct (printable_shown m P) as [Ph Pa].
  rewrite (throwing_formatScoreline m P).
  unfold printable_match in P.
  repeat (apply andb_prop in P; destruct P as [P ?]).
  cbn zeta. rewrite !printable_ToString by assumption. reflexivity.
Qed.

Lemma throwing_pinnedRow (m : TaggedMatch) :
  printable_match m = true -> Throwing.pinnedRow m = pinnedRow m.
Proof.
  intros P. unfold Throwing.pinnedRow, pinnedRow.
  rewrite (throwing_formatScoreline m P), (throwing_formatRightMeta m P).
  destruct (getAbbr (home m)); cbn [rbind]; [|reflexivity].
  destruct (getAbbr (away m)); reflexivity.
Qed.

(** The matches of a printable snapshot are printable, league by league
    and all together; the followed matches are among them. *)
Lemma printable_snapshot_league (data : Snapshot) (key : string) (l : list Match) (m : Match) :
  printable_snapshot data = true -> Js.assoc key data = Some l -> In m l ->
  printable_match m = true.
Proof.
  unfold printable_snapshot. induction data as [|[k ms] rest IH]; cbn [forallb Js.assoc snd];
    intros P A Hin; [discriminate|].
  apply andb_prop in P. destruct P as [Pm Prest].
  destruct (k =? key).
  - injection A as <-. exact (proj1 (forallb_forall _ _) Pm m Hin).
  - exact (IH Prest A Hin).
Qed.

Lemma printable_snapshot_all (data : Snapshot) (tm : TaggedMatch) :
  printable_snapshot data = true -> In tm (allMatches data) -> printable_match tm = true.
Proof.
  unfold printable_snapshot, allMatches. intros P Hin.
  apply in_flat_map in Hin. destruct Hin as [[k ms] [He Hm]].
  apply in_map_iff in Hm. destruct Hm as [m [<- Hm]]. cbn [the_match].
  pose proof (proj1 (forallb_forall _ _) P (k, ms) He) as Pm. cbn [snd] in Pm.
  exact (proj1 (forallb_forall _ _) Pm m Hm).
Qed.

Lemma followedMatches_in (data : Snapshot) (followed : JsSet) (tm : TaggedMatch) :
  In tm (followedMatches data followed) -> In tm (allMatches data).
Proof.
  unfold followedMatches. intros Hin. apply in_flat_map in Hin.
  destruct Hin as [id_ [_ Hm]]. unfold findMatchById in Hm.
  destruct (find _ (allMatches data)) as [tm'|] eqn:F; [|contradiction].
  destruct Hm as [<-|[]]. exact (proj1 (find_some _ _ F)).
Qed.

Lemma throwing_followedHtml (data : Snapshot) (followed : JsSet) :
  printable_snapshot data = true ->
  Throwing.followedHtml data followed = Ok (followedHtml data followed).
Proof.
  intros P. unfold Throwing.followedHtml, followedHtml.
  destruct (Nat.eqb _ 0); [reflexivity|].
  rewrite (mapR_all_ok Throwing.followedPill followedPill).
  - reflexivity.
  - intros tm Hin. apply throwing_followedPill.
    exact (printable_snapshot_all data tm P (followedMatches_in data followed tm Hin)).
Qed.

Lemma throwing_leagueSection (data : Snapshot) (followed : JsSet) (lg : string * string) :
  printable_snapshot data = true ->
  Throwing.leagueSection data followed lg = Ok (leagueSection data followed lg).
Proof.
  intros P. unfold Throwing.leagueSection, leagueSection.
  destruct (Js.assoc (fst lg) data) as [l|] eqn:A; [|reflexivity].
  cbn zeta.
  assert (Hl : forall m, In m l -> printable_match m = true)
    by (intros m Hm; exact (printable_snapshot_league data (fst lg) l m P A Hm)).
  assert (Hrows : forall rows, (forall m, In m rows -> In m l) ->
            mapR (fun m => Throwing.renderMatchRow m lg followed) rows
            = Ok (map (fun m => renderMatchRow m lg followed) rows)).
  { intros rows Hsub. apply mapR_all_ok. intros m Hm.
    apply throwing_renderMatchRow, Hl, Hsub, Hm. }
  destruct (negb (Nat.eqb (List.length (filter is_live l)) 0)); cbn [negb Nat.eqb].
  - destruct (negb (Nat.eqb (List.length (filter is_live l)) 0)); [|reflexivity].
    rewrite Hrows by (intros m Hm; apply filter_In in Hm; tauto). reflexivity.
  - destruct (negb (Nat.eqb (List.length (filter is_upcoming l)) 0)).
    + destruct (negb (Nat.eqb (List.length (filter is_upcoming l)) 0)); [|reflexivity].
      rewrite Hrows by (intros m Hm; apply filter_In in Hm; tauto). reflexivity.
    + reflexivity.
Qed.

Lemma throwing_leaguesHtml (data : Snapshot) (followed : JsSet) (filter_ : string) :
  printable_snapshot data = true ->
  Throwing.leaguesHtml data followed filter_ = Ok (leaguesHtml data followed filter_).
Proof.
  intros P. unfold Throwing.leaguesHtml, leaguesHtml.
  rewrite (mapR_all_ok (Throwing.leagueSection data followed) (leagueSection data followed)).
  - reflexivity.
  - intros lg _. apply throwing_leagueSection, P.
Qed.

Lemma throwing_pinnedHtml (data : Snapshot) (followed : JsSet) :
  printable_snapshot data = true ->
  Throwing.pinnedHtml data followed = pinnedHtml data followed.
Proof.
  intros P. unfold Throwing.pinnedHtml, pinnedHtml.
  destruct (Nat.eqb _ 0); [reflexivity|].
  rewrite (mapR_ext_in Throwing.pinnedRow pinnedRow); [reflexivity|].
  intros tm Hin. apply throwing_pinnedRow.
  exact (printable_snapshot_all data tm P (followedMatches_in data followed tm Hin)).
Qed.

(** [render], stage by stage. *)
Lemma throwing_render_unfold (w : World) :
  Throwing.render w =
  match Throwing.followedHtml (LIVE_DATA w) (followedOf w) with
  | Err e => Raised e (prepared w)
  | Ok fh =>
      match Throwing.leaguesHtml (LIVE_DATA w) (followedOf w) (filterOf w) with
      | Err e => Raised e (set_page (set_followedEl fh (page (prepared w))) (prepared w))
      | Ok lh =>
          if pinned_open w
          then match Throwing.pinnedHtml (LIVE_DATA w) (followedOf w) with
               | Ok html =>
                   Done tt (set_pipWin (Some (mkPip false (Some html)))
                              (set_page (set_leaguesEl lh (set_followedEl fh (page (prepared w))))
                                        (prepared w)))
               | Err e =>
                   Raised e (set_page (set_leaguesEl lh (set_followedEl fh (page (prepared w))))
                                      (prepared w))
               end
          else Done tt (set_page (set_leaguesEl lh (set_followedEl fh (page (prepared w))))
                                 (prepared w))
      end
  end.
Proof.
  unfold Throwing.render, bind at 1. unfold modify at 1.
  unfold bind at 1. rewrite loadFollowedSet_done.
  rewrite (followedOf_same_storage (log EvRender w) w eq_refl).
  unfold loadLeagueFilter, gets, renderFilterControls, renderQuickActions,
    Throwing.renderFollowed, Throwing.renderLeagues, Throwing.renderPinnedWindow,
    modify, ret, liftR, pinned_open, prepared, filterOf, loadLeagueFilter, gets, bind.
  set (fH := Throwing.followedHtml). set (lH := Throwing.leaguesHtml).
  set (pH := Throwing.pinnedHtml).
  destruct w as [data st pg pip tr]. destruct pg as [le fe bt bar ts]. cbn.
  destruct bar as [bar|]; cbn;
    (destruct (fH data _) as [fh|e]; [|reflexivity]); cbn;
    (destruct (lH data _ _) as [lh|e]; [|reflexivity]); cbn;
    destruct pip as [[[|] [pl|]]|]; cbn; try reflexivity;
    destruct (pH data _); reflexivity.
Qed.

(** On a snapshot whose matches are all printable the painters with their
    exceptions are the painters of the text. *)
Lemma throwing_render_agrees (w : World) :
  printable_snapshot (LIVE_DATA w) = true -> Throwing.render w = render w.
Proof.
  intros P. rewrite throwing_render_unfold, render_unfold.
  rewrite (throwing_followedHtml _ _ P), (throwing_leaguesHtml _ _ _ P),
    (throwing_pinnedHtml _ _ P).
  reflexivity.
Qed.

Lemma throwing_pinnedRow_stops (m : TaggedMatch) :
  is_string (home m) = false \/ is_string (away m) = false ->
  exists e, Throwing.pinnedRow m = Err e.
Proof.
  unfold Throwing.pinnedRow. intros [H|H]; apply getAbbr_raises in H; destruct H as [e He].
  - rewrite He. cbn [rbind]. eauto.
  - destruct (getAbbr (home m)); cbn [rbind]; [|eauto].
    destruct (Throwing.formatScoreline m); cbn [rbind]; [|eauto].
    rewrite He. cbn [rbind]. eauto.
Qed.

Lemma throwing_pinnedHtml_stops (data : Snapshot) (followed : JsSet) :
  (exists m, In m (followedMatches data followed)
             /\ (is_string (home m) = false \/ is_string (away m) = false)) ->
  exists e, Throwing.pinnedHtml data followed = Err e.
Proof.
  intros [m [Hin Hs]]. unfold Throwing.pinnedHtml.
  destruct (Nat.eqb (List.length (followedMatches data followed)) 0) eqn:E.
  - apply length_zero_nil in E. rewrite E in Hin. contradiction.
  - destruct (mapR_stops Throwing.pinnedRow (followedMatches data followed) m Hin
                (throwing_pinnedRow_stops m Hs)) as [e ->].
    cbn [rbind]. eauto.
Qed.

(** X9. When [render] raises it has not touched the store, the snapshot
    or the pinned window.  On a snapshot whose
    matches all have printable properties (no template literal throws),
    [render] raises only while the pinned window is open, and then exactly
    when a followed match of the snapshot has a [home] or an [away] that is
    not a string (the record named its teams under [homeTeam] or
    [homeName] only): [getAbbr] has nothing to trim.  The page itself is
    painted before that. *)
Theorem render_raises_only_for_pinned_abbreviations (w : World) :
  (forall e w', Throwing.render w = Raised e w' ->
     pipWin w' = pipWin w /\ localStorage w' = localStorage w
     /\ LIVE_DATA w' = LIVE_DATA w)
  /\ (printable_snapshot (LIVE_DATA w) = true ->
      ((exists e w', Throwing.render w = Raised e w')
       <-> (pinned_open w = true
            /\ exists m, In m (followedMatches (LIVE_DATA w) (followedOf w))
                         /\ (is_string (home m) = false \/ is_string (away m) = false)))
      /\ (forall e w', Throwing.render w = Raised e w' -> page w' = page (painted w))).
Proof.
  split.
  - intros e w'. rewrite throwing_render_unfold.
    destruct (Throwing.followedHtml _ _) as [fh|e1];
      [|intros H; injection H as _ <-; repeat split].
    destruct (Throwing.leaguesHtml _ _ _) as [lh|e2];
      [|intros H; injection H as _ <-; repeat split].
    destruct (pinned_open w); [|discriminate].
    destruct (Throwing.pinnedHtml _ _) as [ph|e3]; [discriminate|].
    intros H; injection H as _ <-; repeat split.
  - intros P. rewrite (throwing_render_agrees w P), render_unfold. split.
    + destruct (pinned_open w).
      * rewrite <- pinnedHtml_raises. split.
        -- intros [e [w' H]]. split; [reflexivity|].
           destruct (pinnedHtml _ _); [discriminate|eauto].
        -- intros [_ [e ->]]. eauto.
      * split; [intros [e [w' H]]; discriminate|intros [H _]; discriminate].
    + intros e w' H. destruct (pinned_open w); [|discriminate].
      destruct (pinnedHtml _ _); [discriminate|]. injection H as _ <-. reflexivity.
Qed.

Lemma render_raises_only_for_pinned_abbreviations_witness :
  printable_snapshot (LIVE_DATA Sample2.w3) = true
  /\ exists e w', Throwing.render Sample2.w3 = Raised e w'.
Proof.
  split; [reflexivity|].
  destruct (render_raises_only_for_pinned_abbreviations Sample2.w3) as [_ A].
  apply (proj2 (proj1 (A eq_refl))).
  split; [reflexivity|].
  eexists. split; [left; reflexivity|]. left. reflexivity.
Defined.

(** ** Membership in the follow set *)

Lemma set_has_add (s : JsSet) (y x : JsVal) :
  set_has (set_add s y) x = set_has s x || (Js.strict_eq x y && Js.strict_eq y y).
Proof.
  unfold set_add. destruct (set_has s y) eqn:Hy.
  - destruct (Js.strict_eq x y) eqn:E; [|now rewrite orb_false_r].
    apply strict_eq_true in E. subst x. rewrite Hy. reflexivity.
  - rewrite set_has_app, set_has_cons. cbn [set_has existsb]. rewrite orb_false_r.
    destruct (Js.strict_eq x y) eqn:E; [|reflexivity].
    pose proof (strict_eq_true _ _ E) as Hxy. subst x. rewrite E. reflexivity.
Qed.

Lemma set_has_delete (s : JsSet) (y x : JsVal) :
  set_has (set_delete s y) x = set_has s x && negb (Js.strict_eq x y).
Proof.
  unfold set_delete. induction s as [|z r IH]; cbn [filter]; [reflexivity|].
  rewrite set_has_cons. destruct (Js.strict_eq y z) eqn:Eyz; cbn [negb].
  - apply strict_eq_true in Eyz. subst z. rewrite IH.
    destruct (Js.strict_eq x y); [now rewrite andb_false_r|reflexivity].
  - rewrite set_has_cons, IH.
    destruct (Js.strict_eq x z) eqn:Exz; [|reflexivity].
    apply strict_eq_true in Exz. subst z.
    rewrite strict_eq_sym, Eyz. reflexivity.
Qed.

(** X10. [toggleFollow] changes the membership of its own id only.  After
    following an id (a string or another JSON scalar) the persisted set holds
    that id and, of the others, exactly those it held; after unfollowing an
    id the set holds exactly the others it held.  The league filter and
    the snapshot are not touched. *)
Theorem toggle_changes_one_membership (w : World) (matchId : JsVal) :
  (is_key matchId = true ->
     forall x, set_has (followedOf (final (toggleFollow matchId true w))) x
               = set_has (followedOf w) x || Js.strict_eq x matchId)
  /\ (forall x, set_has (followedOf (final (toggleFollow matchId false w))) x
                = set_has (followedOf w) x && negb (Js.strict_eq x matchId))
  /\ (forall b, filterOf (final (toggleFollow matchId b w)) = filterOf w
                /\ LIVE_DATA (final (toggleFollow matchId b w)) = LIVE_DATA w).
Proof.
  split; [|split].
  - intros K x. rewrite followedOf_toggled by (intros _; apply is_key_defined, K).
    rewrite set_has_add, (strict_eq_key_refl matchId K), andb_true_r. reflexivity.
  - intros x. rewrite followedOf_toggled by discriminate. apply set_has_delete.
  - intros b. split.
    + unfold filterOf, loadLeagueFilter, gets. rewrite toggleFollow_storage. reflexivity.
    + unfold toggleFollow. unfold bind at 1. rewrite loadFollowedSet_done.
      unfold bind. unfold saveFollowedSet at 1, modify at 1.
      match goal with |- context [render ?x] => destruct (render_frame x) as [Hd _]; rewrite Hd end.
      reflexivity.
Qed.

Lemma toggle_changes_one_membership_witness :
  set_has (followedOf (final (toggleFollow (J (JStr "m2")) true Sample.w1))) (J (JStr "m2"))
  = true
  /\ set_has (followedOf (final (toggleFollow (J (JStr "m2")) true Sample.w1)))
             (J (JStr "m9")) = true
  /\ set_has (followedOf (final (toggleFollow (J (JStr "m1")) false Sample.w1)))
             (J (JStr "m1")) = false.
Proof.
  destruct (toggle_changes_one_membership Sample.w1 (J (JStr "m2"))) as [A _].
  destruct (toggle_changes_one_membership Sample.w1 (J (JStr "m1"))) as [_ [B _]].
  split; [rewrite (A eq_refl); reflexivity|].
  split; [rewrite (A eq_refl); reflexivity|rewrite B; reflexivity].
Defined.

(** ** Saving and loading *)

Lemma fold_add_has (l acc : JsSet) (x : JsVal) :
  is_key x = true ->
  set_has (fold_left set_add l acc) x = set_has acc x || existsb (Js.strict_eq x) l.
Proof.
  intros K. revert acc. induction l as [|y l IH]; intros acc; cbn [fold_left existsb].
  - now rewrite orb_false_r.
  - rewrite IH, set_has_add. destruct (Js.strict_eq x y) eqn:E.
    + apply strict_eq_true in E. subst y. rewrite (strict_eq_key_refl x K).
      now rewrite !orb_true_r.
    + now rewrite orb_false_r.
Qed.

Lemma followedOf_saved_any (s : JsSet) (w : World) :
  followedOf (final (saveFollowedSet s w))
  = fold_left set_add (map (fun v => J (jsonify v)) s) [].
Proof.
  rewrite followedOf_stored. cbn. rewrite map_map. reflexivity.
Qed.

(** X11. Saving a follow set and loading it gives back the values in their
    order, each once, with an [undefined] among them read back as [null]; a
    set as [loadFollowedSet], [add] of a defined id and [delete] produce it
    comes back unchanged.  Saving the follow set leaves the league filter
    alone and saving the league filter leaves the follow set alone. *)
Theorem save_then_load_follow_set (s : JsSet) (w : World) :
  followedOf (final (saveFollowedSet s w))
  = fold_left set_add (map (fun v => J (jsonify v)) s) []
  /\ (distinct s -> Forall defined s -> followedOf (final (saveFollowedSet s w)) = s)
  /\ filterOf (final (saveFollowedSet s w)) = filterOf w
  /\ (forall val, followedOf (final (saveLeagueFilter val w)) = followedOf w
                  /\ filterOf (final (saveLeagueFilter val w))
                     = if val =? "" then "all" else val).
Proof.
  split; [apply followedOf_saved_any|]. split; [apply followedOf_saved|].
  split; [reflexivity|]. intros val. split.
  - rewrite !followedOf_stored. reflexivity.
  - unfold filterOf, loadLeagueFilter, gets, saveLeagueFilter, modify. cbn.
    destruct (val =? ""); reflexivity.
Qed.

Lemma save_then_load_follow_set_witness :
  followedOf (final (saveFollowedSet [J (JStr "a"); undefined; J JNull; J (JStr "a")]
                                     Sample.w0))
  = [J (JStr "a"); J JNull]
  /\ followedOf (final (saveFollowedSet [J (JStr "b"); J (JStr "a")] Sample.w0))
     = [J (JStr "b"); J (JStr "a")].
Proof.
  destruct (save_then_load_follow_set [J (JStr "a"); undefined; J JNull; J (JStr "a")]
              Sample.w0) as [A _].
  destruct (save_then_load_follow_set [J (JStr "b"); J (JStr "a")] Sample.w0)
    as [_ [B _]].
  split; [rewrite A; reflexivity|].
  apply B.
  - simpl. auto.
  - repeat constructor; discriminate.
Defined.

(** X12. Loading a stored JSON array gives its items without repetition: a
    scalar is in the loaded set exactly when it is among the items, no value
    occurs twice, and items that are all different are loaded in their
    order. *)
Theorem load_drops_repeated_ids (w : World) (items : list Json) :
  pinscores_followed_match_ids (localStorage w) = Some (JsonText (JArr items)) ->
  distinct (followedOf w)
  /\ (forall x, is_key x = true ->
        set_has (followedOf w) x = existsb (Js.strict_eq x) (map J items))
  /\ (distinct (map J items) -> followedOf w = map J items).
Proof.
  intros Hst. split; [apply followedOf_canonical|].
  rewrite followedOf_stored, Hst. cbn [newSet]. split.
  - intros x K. rewrite (fold_add_has _ [] x K). reflexivity.
  - intros D. apply (fold_add_distinct (map J items) []). exact D.
Qed.

Lemma load_drops_repeated_ids_witness :
  followedOf (set_localStorage
                (mkStorage (Some (JsonText (JArr [JStr "m1"; JStr "m2"; JStr "m1"]))) None)
                Sample.w0)
  = [J (JStr "m1"); J (JStr "m2")]
  /\ distinct (followedOf (set_localStorage
                (mkStorage (Some (JsonText (JArr [JStr "m1"; JStr "m2"; JStr "m1"]))) None)
                Sample.w0)).
Proof.
  destruct (load_drops_repeated_ids
              (set_localStorage
                 (mkStorage (Some (JsonText (JArr [JStr "m1"; JStr "m2"; JStr "m1"]))) None)
                 Sample.w0)
              [JStr "m1"; JStr "m2"; JStr "m1"] eq_refl) as [D _].
  split; [reflexivity|exact D].
Defined.

(** ** The buttons of the page *)

Lemma toast_frame (msg : string) (w : World) :
  exists w',
    toast msg w = Done tt w'
    /\ LIVE_DATA w' = LIVE_DATA w
    /\ localStorage w' = localStorage w
    /\ pipWin w' = pipWin w
    /\ trace w' = trace w
    /\ leaguesEl (page w') = leaguesEl (page w)
    /\ followedEl (page w') = followedEl (page w)
    /\ btnFollowAllLive (page w') = btnFollowAllLive (page w)
    /\ leagueFilterEl (page w') = leagueFilterEl (page w)
    /\ toastEl (page w') = option_map (fun _ => mkToast msg true) (toastEl (page w)).
Proof.
  unfold toast, modify. destruct w as [data st pg pip tr]. cbn.
  destruct (toastEl pg) eqn:E; eexists; (split; [reflexivity|]); cbn; rewrite ?E; repeat split.
Qed.

Lemma key_of_reflexive (x : JsVal) :
  Js.strict_eq x x = true -> defined x -> is_key x = true.
Proof.
  destruct x as [|[]]; simpl; intros H D; try reflexivity; try discriminate.
  exfalso. apply D. reflexivity.
Qed.

Lemma has_gives_member (s : JsSet) (x : JsVal) :
  set_has s x = true -> In x s.
Proof.
  unfold set_has. intros H. apply existsb_exists in H. destruct H as [y [Hy E]].
  apply strict_eq_true in E. now subst.
Qed.

Lemma member_gives_has (s : JsSet) (x : JsVal) :
  In x s -> is_key x = true -> set_has s x = true.
Proof.
  intros H K. unfold set_has. apply existsb_exists. exists x.
  split; [exact H|apply strict_eq_key_refl, K].
Qed.

Lemma in_set_add (s : JsSet) (y v : JsVal) :
  In v (set_add s y) <-> In v s \/ (v = y /\ set_has s y = false).
Proof.
  unfold set_add. destruct (set_has s y).
  - split; [auto|]. intros [H|[_ H]]; [exact H|discriminate].
  - rewrite in_app_iff. simpl. split.
    + intros [H|[H|[]]]; auto.
    + intros [H|[H _]]; auto.
Qed.

Lemma in_add_ids (live : list TaggedMatch) (s : JsSet) (v : JsVal) :
  In v (fold_left (fun acc (m : TaggedMatch) => set_add acc (id m)) live s) ->
  In v s \/ exists m, In m live /\ v = id m.
Proof.
  revert s. induction live as [|m live IH]; intros s; cbn [fold_left]; [auto|].
  intros H. apply IH in H. destruct H as [H|[m' [Hm' ->]]].
  - apply in_set_add in H. destruct H as [H|[-> _]]; [auto|].
    right. exists m. split; [left|]; reflexivity.
  - right. exists m'. split; [right|]; auto.
Qed.

Lemma add_ids_keeps (live : list TaggedMatch) (s : JsSet) (v : JsVal) :
  In v s -> In v (fold_left (fun acc (m : TaggedMatch) => set_add acc (id m)) live s).
Proof.
  revert s. induction live as [|m live IH]; intros s H; cbn [fold_left]; [exact H|].
  apply IH, in_set_add. auto.
Qed.

Lemma add_ids_adds (live : list TaggedMatch) (s : JsSet) (m : TaggedMatch) :
  In m live -> is_key (id m) = true ->
  In (id m) (fold_left (fun acc (m : TaggedMatch) => set_add acc (id m)) live s).
Proof.
  revert s. induction live as [|m' live IH]; intros s Hin K; [contradiction|].
  cbn [fold_left]. destruct Hin as [->|Hin]; [|apply IH; assumption].
  apply add_ids_keeps, in_set_add.
  destruct (set_has s (id m)) eqn:H; [left; apply has_gives_member, H|right; auto].
Qed.

Lemma reload_has (s : JsSet) (x : JsVal) :
  is_key x = true ->
  set_has (fold_left set_add (map (fun v => J (jsonify v)) s) []) x
  = existsb (fun v => Js.strict_eq x (J (jsonify v))) s.
Proof.
  intros K. rewrite (fold_add_has _ [] x K). cbn [set_has existsb orb].
  induction s as [|v s IH]; cbn [map existsb]; [reflexivity|]. now rewrite IH.
Qed.

Lemma jsonify_defined (v : JsVal) : defined v -> J (jsonify v) = v.
Proof. destruct v; [intros D; exfalso; apply D; reflexivity|reflexivity]. Qed.

Lemma onFollowAllLive_none (w : World) :
  filter (fun m : TaggedMatch => is_live m) (allMatches (LIVE_DATA w)) = [] ->
  onFollowAllLive w = toast "No live matches right now" w.
Proof.
  intros H. unfold onFollowAllLive, bind at 1. unfold gets. rewrite H. reflexivity.
Qed.

Lemma onFollowAllLive_some (w : World) :
  let live := filter (fun m : TaggedMatch => is_live m) (allMatches (LIVE_DATA w)) in
  live <> [] ->
  onFollowAllLive w
  = render (final (toast ("Following " ++ Js.nat_to_string (List.length live)
                          ++ " live match"
                          ++ (if Nat.eqb (List.length live) 1 then "" else "es"))
                         (final (saveFollowedSet
                                   (fold_left (fun s (m : TaggedMatch) => set_add s (id m))
                                              live (followedOf w)) w)))).
Proof.
  intros live Hlive. unfold onFollowAllLive, bind at 1. unfold gets. fold live.
  destruct live as [|m0 rest] eqn:E; [contradiction|].
  cbn [List.length Nat.eqb]. unfold bind at 1. rewrite loadFollowedSet_done.
  unfold bind at 1. unfold saveFollowedSet at 1, modify at 1.
  unfold bind at 1.
  match goal with |- context [toast ?msg ?x] =>
    destruct (toast_frame msg x) as [w' [Ht _]] end.
  unfold saveFollowedSet, modify. cbn [final]. rewrite Ht. reflexivity.
Qed.

(** X13. The quick action.  With no LIVE match in the snapshot the click
    only shows a toast: the store, the snapshot and the page regions stay
    as they are and [render] is not called.  With LIVE matches it follows
    them: every id followed before is still followed, every LIVE match with
    a scalar id is followed afterwards, nothing else is added (a LIVE match
    without an id adds [null]), the toast tells how many, and [render] is
    called once. *)
Theorem follow_all_live_follows_the_live (w : World) :
  (filter (fun m : TaggedMatch => is_live m) (allMatches (LIVE_DATA w)) = [] ->
     localStorage (final (onFollowAllLive w)) = localStorage w
     /\ LIVE_DATA (final (onFollowAllLive w)) = LIVE_DATA w
     /\ renders (final (onFollowAllLive w)) = renders w
     /\ leaguesEl (page (final (onFollowAllLive w))) = leaguesEl (page w)
     /\ followedEl (page (final (onFollowAllLive w))) = followedEl (page w)
     /\ toastEl (page (final (onFollowAllLive w)))
        = option_map (fun _ => mkToast "No live matches right now" true) (toastEl (page w)))
  /\ (filter (fun m : TaggedMatch => is_live m) (allMatches (LIVE_DATA w)) <> [] ->
      (forall x, set_has (followedOf w) x = true ->
                 set_has (followedOf (final (onFollowAllLive w))) x = true)
      /\ (forall m : TaggedMatch,
            In m (allMatches (LIVE_DATA w)) -> is_live m = true -> is_key (id m) = true ->
            set_has (followedOf (final (onFollowAllLive w))) (id m) = true)
      /\ (forall x, is_key x = true ->
            set_has (followedOf (final (onFollowAllLive w))) x = true ->
            set_has (followedOf w) x = true
            \/ exists m : TaggedMatch,
                 In m (allMatches (LIVE_DATA w)) /\ is_live m = true
                 /\ (x = id m \/ (x = J JNull /\ id m = undefined)))
      /\ renders (final (onFollowAllLive w)) = S (renders w)
      /\ toastEl (page (final (onFollowAllLive w)))
         = option_map
             (fun _ => mkToast
                ("Following "
                 ++ Js.nat_to_string
                      (List.length (filter (fun m : TaggedMatch => is_live m)
                                           (allMatches (LIVE_DATA w))))
                 ++ " live match"
                 ++ (if Nat.eqb (List.length (filter (fun m : TaggedMatch => is_live m)
                                                     (allMatches (LIVE_DATA w)))) 1
                     then "" else "es")) true)
             (toastEl (page w))).
Proof.
  split.
  - intros Hnone. rewrite (onFollowAllLive_none w Hnone).
    destruct (toast_frame "No live matches right now" w)
      as [w' [-> [Hd [Hs [_ [Ht [Hl [Hf [_ [_ Hto]]]]]]]]]].
    cbn [final]. unfold renders. rewrite Ht. repeat split; assumption.
  - intros Hsome. rewrite (onFollowAllLive_some w Hsome).
    set (live := filter (fun m : TaggedMatch => is_live m) (allMatches (LIVE_DATA w))) in *.
    set (set' := fold_left (fun s (m : TaggedMatch) => set_add s (id m)) live (followedOf w)).
    set (saved := final (saveFollowedSet set' w)).
    match goal with |- context [toast ?msg saved] =>
      destruct (toast_frame msg saved) as [w1 [Ht [_ [Hs1 [_ [Htr1 [_ [_ [_ [_ Hto1]]]]]]]]]];
      rewrite Ht end.
    cbn [final]. destruct (render_frame w1) as [_ [Hs2 [Htr2 Hp2]]].
    assert (Hafter : followedOf (final (render w1))
                     = fold_left set_add (map (fun v => J (jsonify v)) set') []).
    { rewrite (followedOf_same_storage _ saved) by (rewrite Hs2, Hs1; reflexivity).
      apply followedOf_saved_any. }
    destruct (followedOf_canonical w) as [_ Hdef].
    rewrite Hafter. split; [|split; [|split; [|split]]].
    + intros x Hx. pose proof (has_gives_member _ _ Hx) as Hin.
      assert (Dx : defined x) by (apply (proj1 (Forall_forall _ _) Hdef x Hin)).
      assert (Kx : is_key x = true).
      { apply key_of_reflexive; [|exact Dx].
        unfold set_has in Hx. apply existsb_exists in Hx. destruct Hx as [y [_ E]].
        pose proof (strict_eq_true _ _ E). now subst. }
      rewrite (reload_has _ x Kx). apply existsb_exists. exists x. split.
      * apply add_ids_keeps, Hin.
      * rewrite (jsonify_defined x Dx). apply strict_eq_key_refl, Kx.
    + intros m Hm Hl K. rewrite (reload_has _ _ K). apply existsb_exists.
      exists (id m). split.
      * apply add_ids_adds; [|exact K]. unfold live. apply filter_In. auto.
      * rewrite (jsonify_defined _ (is_key_defined _ K)). apply strict_eq_key_refl, K.
    + intros x K Hx. rewrite (reload_has _ x K) in Hx.
      apply existsb_exists in Hx. destruct Hx as [v [Hv E]].
      apply in_add_ids in Hv. destruct Hv as [Hv|[m [Hm ->]]].
      * left. assert (Dv : defined v) by (apply (proj1 (Forall_forall _ _) Hdef v Hv)).
        rewrite (jsonify_defined v Dv) in E. unfold set_has. apply existsb_exists.
        exists v. auto.
      * right. exists m. unfold live in Hm. apply filter_In in Hm. destruct Hm as [Hm Hl].
        split; [exact Hm|]. split; [exact Hl|].
        apply strict_eq_true in E. destruct (id m); cbn [jsonify] in E; auto.
    + rewrite (renders_trace w1 _ _ Htr2). unfold renders. rewrite Htr1. cbn [trace saved].
      unfold saveFollowedSet, modify. cbn. lia.
    + rewrite Hp2. unfold painted. cbn [page toastEl]. rewrite Hto1. reflexivity.
Qed.

Lemma follow_all_live_follows_the_live_witness :
  followedOf (final (onFollowAllLive Sample2.w2))
  = [J (JStr "m1"); J (JStr "m9"); J (JNum 7)]
  /\ set_has (followedOf (final (onFollowAllLive Sample2.w2))) (J (JStr "m9")) = true
  /\ renders (final (onFollowAllLive Sample.w0)) = renders Sample.w0.
Proof.
  destruct (follow_all_live_follows_the_live Sample2.w2) as [_ B].
  destruct (follow_all_live_follows_the_live Sample.w0) as [A _].
  destruct B as [B1 _]; [discriminate|].
  destruct A as [_ [_ [A3 _]]]; [reflexivity|].
  split; [reflexivity|]. split; [apply B1; reflexivity|exact A3].
Defined.

Lemma throwing_onClearFollows_unfold (w : World) :
  Throwing.onClearFollows w
  = Throwing.render (final (toast "Cleared followed matches" (final (saveFollowedSet [] w)))).
Proof.
  unfold Throwing.onClearFollows, bind at 1. unfold saveFollowedSet at 1, modify at 1.
  unfold bind at 1.
  match goal with |- context [toast ?msg ?x] =>
    destruct (toast_frame msg x) as [w' [Ht _]] end.
  unfold saveFollowedSet, modify. cbn [final]. rewrite Ht. reflexivity.
Qed.

(** X14. Clearing the follows leaves the key in the store, holding the
    empty array; the follow set read back is empty, the followed region
    shows its empty-state message and the league filter is kept, whether or
    not [render] gets through.  On a snapshot whose matches all have
    printable properties the handler returns normally, and an open pinned
    window then shows [No followed matches]. *)
Theorem clear_empties_the_follow_set (w : World) :
  pinscores_followed_match_ids (localStorage (final (Throwing.onClearFollows w)))
  = Some (JsonText (JArr []))
  /\ followedOf (final (Throwing.onClearFollows w)) = []
  /\ filterOf (final (Throwing.onClearFollows w)) = filterOf w
  /\ followedEl (page (final (Throwing.onClearFollows w)))
     = q "<div class='empty'>No followed matches. Tap “Follow” on a match to pin it.</div>"
  /\ (printable_snapshot (LIVE_DATA w) = true ->
      (pinned_open w = true ->
       pipWin (final (Throwing.onClearFollows w))
       = Some (mkPip false (Some (q "<div class='empty'>No followed matches</div>"))))
      /\ exists w', Throwing.onClearFollows w = Done tt w').
Proof.
  rewrite throwing_onClearFollows_unfold.
  set (saved := final (saveFollowedSet [] w)).
  destruct (toast_frame "Cleared followed matches" saved)
    as [w1 [Ht [Hd1 [Hs1 [Hp1 _]]]]].
  rewrite Ht. cbn [final].
  assert (Hf : followedOf w1 = []).
  { rewrite (followedOf_same_storage w1 saved Hs1). apply followedOf_saved; constructor. }
  assert (Hopen : pinned_open w1 = pinned_open w).
  { unfold pinned_open. rewrite Hp1. reflexivity. }
  assert (Hfil : filterOf w1 = filterOf w).
  { unfold filterOf, loadLeagueFilter, gets. rewrite Hs1. reflexivity. }
  assert (Hkey : pinscores_followed_match_ids (localStorage w1) = Some (JsonText (JArr []))).
  { rewrite Hs1. reflexivity. }
  rewrite (throwing_render_unfold w1), Hf, Hopen.
  assert (Hfh : Throwing.followedHtml (LIVE_DATA w1) []
                = Ok (q "<div class='empty'>No followed matches. Tap “Follow” on a match to pin it.</div>"))
    by reflexivity.
  assert (Hpin : Throwing.pinnedHtml (LIVE_DATA w1) []
                 = Ok (q "<div class='empty'>No followed matches</div>")) by reflexivity.
  rewrite Hfh, Hpin.
  assert (Hframe : forall pg pip,
            let w' := mkWorld (LIVE_DATA w1) (localStorage w1) pg pip
                              (trace w1 ++ [EvRender])%list in
            pinscores_followed_match_ids (localStorage w') = Some (JsonText (JArr []))
            /\ followedOf w' = [] /\ filterOf w' = filterOf w).
  { intros pg pip w'. split; [exact Hkey|]. split.
    - rewrite (followedOf_same_storage w' w1 eq_refl). exact Hf.
    - rewrite <- Hfil. unfold filterOf, loadLeagueFilter, gets. reflexivity. }
  split; [|split; [|split; [|split]]].
  - destruct (Throwing.leaguesHtml _ _ _); [destruct (pinned_open w)|];
      cbn [final]; apply Hframe.
  - destruct (Throwing.leaguesHtml _ _ _); [destruct (pinned_open w)|];
      cbn [final]; apply Hframe.
  - destruct (Throwing.leaguesHtml _ _ _); [destruct (pinned_open w)|];
      cbn [final]; apply Hframe.
  - destruct (Throwing.leaguesHtml _ _ _); [destruct (pinned_open w)|]; reflexivity.
  - intros P.
    assert (Pw1 : printable_snapshot (LIVE_DATA w1) = true) by (rewrite Hd1; exact P).
    rewrite (throwing_leaguesHtml _ _ _ Pw1).
    destruct (pinned_open w); split; try discriminate; try (eexists; reflexivity);
      intros _; reflexivity.
Qed.

Lemma clear_empties_the_follow_set_witness :
  printable_snapshot (LIVE_DATA Sample.w1) = true
  /\ pipWin (final (Throwing.onClearFollows Sample.w1))
     = Some (mkPip false (Some (q "<div class='empty'>No followed matches</div>"))).
Proof.
  split; [reflexivity|].
  destruct (clear_empties_the_follow_set Sample.w1) as [_ [_ [_ [_ A]]]].
  destruct (A eq_refl) as [A1 _]. apply A1. reflexivity.
Defined.


(** The attribute of a row's button is the text of the match id, and an
    [attr_safe] one. *)
Lemma row_attribute_text (m : Match) (attr : string) :
  row_attribute m = Some attr ->
  attr = Js.to_string (id m) /\ attr_safe attr = true /\ Js.printable (id m) = true.
Proof.
  unfold row_attribute, Js.ToString, written_attribute.
  destruct (Js.printable (id m)); [|discriminate].
  destruct (attr_safe (Js.to_string (id m))) eqn:S; [|discriminate].
  intros E. injection E as <-. repeat split. exact S.
Qed.

(** X16. The buttons of a row pass on what their [data-follow] or
    [data-unfollow] attribute reads.  For a match whose id has a text that
    the attribute gives back as written (no quote, ampersand, CR or NUL in
    it): when the id is a string, the row's Follow button makes the row
    followed and its Unfollow button makes it not followed; when the id is
    not a string (a number from the feed), the buttons pass the id's text,
    which is another value, and whether the row counts as followed is the
    same after the click as before. *)
Theorem row_buttons_work_for_string_ids (w : World) (m : Match) (attr : string) :
  row_attribute m = Some attr ->
  (is_string (id m) = true ->
     set_has (followedOf (final (onRowFollow attr w))) (id m) = true
     /\ set_has (followedOf (final (onRowUnfollow attr w))) (id m) = false)
  /\ (is_string (id m) = false ->
        set_has (followedOf (final (onRowFollow attr w))) (id m)
        = set_has (followedOf w) (id m)
        /\ set_has (followedOf (final (onRowUnfollow attr w))) (id m)
           = set_has (followedOf w) (id m)).
Proof.
  intros Hattr. destruct (row_attribute_text m attr Hattr) as [-> _].
  unfold onRowFollow, onRowUnfollow.
  rewrite (followedOf_toggled _ true) by (intros _; discriminate).
  rewrite (followedOf_toggled _ false) by discriminate.
  rewrite set_has_add, set_has_delete. cbn [Js.strict_eq]. rewrite String.eqb_refl, andb_true_r.
  split; intros Hs.
  - destruct (id m) as [|[]]; try discriminate. cbn [Js.to_string Js.json_to_string Js.strict_eq].
    rewrite String.eqb_refl, orb_true_r, andb_false_r. split; reflexivity.
  - destruct (id m) as [|[]]; try discriminate; cbn [Js.strict_eq];
      rewrite orb_false_r, andb_true_r; split; reflexivity.
Qed.

Lemma row_buttons_work_for_string_ids_witness :
  Js.assoc "l2" (LIVE_DATA Sample2.w2) = Some [Sample2.row7]
  /\ row_attribute Sample2.row7 = Some "7"
  /\ row_attribute Sample2.row1 = Some "m1"
  /\ set_has (followedOf Sample2.w2) (id Sample2.row7) = false
  /\ set_has (followedOf (final (onRowFollow "7" Sample2.w2))) (id Sample2.row7)
     = false
  /\ set_has (followedOf (final (onRowFollow "m1" Sample2.w2))) (id Sample2.row1)
     = true
  /\ set_has (followedOf (final (onRowUnfollow "m1" Sample2.w2))) (id Sample2.row1)
     = false.
Proof.
  destruct (row_buttons_work_for_string_ids Sample2.w2 Sample2.row7 "7" eq_refl) as [_ B].
  destruct (row_buttons_work_for_string_ids Sample2.w2 Sample2.row1 "m1" eq_refl) as [A _].
  destruct B as [B _]; [reflexivity|]. destruct A as [A1 A2]; [reflexivity|].
  split; [reflexivity|]. split; [reflexivity|]. split; [reflexivity|].
  split; [reflexivity|]. split; [rewrite B; reflexivity|].
  split; assumption.
Defined.

(** ** The pinned window's buttons *)

(** X17. Opening the pinned window.  Without the capability the click
    only alerts.  When [requestWindow] is rejected the click logs and
    alerts and no window is recorded.  When a window is granted the close
    button is enabled, the window is recorded as open and [render] is
    called.  On a snapshot whose matches all have printable properties the
    page is then repainted and the window's list is what [render] paints
    for the follow set.  When a followed match has a [home] or an [away]
    that is no string, the window stays recorded as open with an empty
    list, although the alert says it could not be opened. *)
Theorem open_pin_outcomes (b : Browser) :
  Throwing.onOpenPin NoCapability b
  = mkBrowser (world b) (btnClosePin_disabled b)
              (alerts b ++ ["Document PiP not supported. Use Chrome."])%list
  /\ (forall e,
        pipWin (world (Throwing.onOpenPin (RequestRejected e) b)) = pipWin (world b)
        /\ page (world (Throwing.onOpenPin (RequestRejected e) b)) = page (world b)
        /\ btnClosePin_disabled (Throwing.onOpenPin (RequestRejected e) b)
           = btnClosePin_disabled b
        /\ alerts (Throwing.onOpenPin (RequestRejected e) b)
           = (alerts b ++ [could_not_open])%list)
  /\ btnClosePin_disabled (Throwing.onOpenPin WindowGranted b) = false
  /\ pinned_open (world (Throwing.onOpenPin WindowGranted b)) = true
  /\ localStorage (world (Throwing.onOpenPin WindowGranted b)) = localStorage (world b)
  /\ LIVE_DATA (world (Throwing.onOpenPin WindowGranted b)) = LIVE_DATA (world b)
  /\ (printable_snapshot (LIVE_DATA (world b)) = true ->
        page (world (Throwing.onOpenPin WindowGranted b)) = page (painted (world b))
        /\ forall html,
             Throwing.pinnedHtml (LIVE_DATA (world b)) (followedOf (world b)) = Ok html ->
             pipWin (world (Throwing.onOpenPin WindowGranted b))
             = Some (mkPip false (Some html))
             /\ alerts (Throwing.onOpenPin WindowGranted b) = alerts b)
  /\ ((exists m, In m (followedMatches (LIVE_DATA (world b)) (followedOf (world b)))
                 /\ (is_string (home m) = false \/ is_string (away m) = false)) ->
        pipWin (world (Throwing.onOpenPin WindowGranted b)) = Some (mkPip false (Some ""))
        /\ alerts (Throwing.onOpenPin WindowGranted b)
           = (alerts b ++ [could_not_open])%list).
Proof.
  split; [reflexivity|]. split; [intros e; repeat split|].
  unfold Throwing.onOpenPin.
  set (w1 := set_pipWin (Some (mkPip false (Some ""))) (world b)).
  assert (Hf : followedOf w1 = followedOf (world b))
    by (apply followedOf_same_storage; reflexivity).
  assert (Hfil : filterOf w1 = filterOf (world b))
    by (apply filterOf_same_storage; reflexivity).
  assert (Hpage : page (painted w1) = page (painted (world b))).
  { unfold painted. cbn [page]. rewrite Hf, Hfil. reflexivity. }
  rewrite (throwing_render_unfold w1).
  replace (pinned_open w1) with true by reflexivity.
  replace (LIVE_DATA w1) with (LIVE_DATA (world b)) by reflexivity.
  rewrite Hf, Hfil.
  split; [|split; [|split; [|split; [|split]]]].
  - destruct (Throwing.followedHtml _ _); [|reflexivity].
    destruct (Throwing.leaguesHtml _ _ _); [|reflexivity].
    destruct (Throwing.pinnedHtml _ _); reflexivity.
  - destruct (Throwing.followedHtml _ _); [|reflexivity].
    destruct (Throwing.leaguesHtml _ _ _); [|reflexivity].
    destruct (Throwing.pinnedHtml _ _); reflexivity.
  - destruct (Throwing.followedHtml _ _); [|reflexivity].
    destruct (Throwing.leaguesHtml _ _ _); [|reflexivity].
    destruct (Throwing.pinnedHtml _ _); reflexivity.
  - destruct (Throwing.followedHtml _ _); [|reflexivity].
    destruct (Throwing.leaguesHtml _ _ _); [|reflexivity].
    destruct (Throwing.pinnedHtml _ _); reflexivity.
  - intros P.
    rewrite (throwing_followedHtml _ _ P), (throwing_leaguesHtml _ _ _ P).
    split.
    + rewrite <- Hpage. unfold painted. rewrite Hf, Hfil.
      destruct (Throwing.pinnedHtml _ _); reflexivity.
    + intros html ->. split; reflexivity.
  - intros Hm. destruct (throwing_pinnedHtml_stops _ _ Hm) as [e ->].
    destruct (Throwing.followedHtml _ _); [|split; reflexivity].
    destruct (Throwing.leaguesHtml _ _ _); split; reflexivity.
Qed.

Lemma open_pin_outcomes_witness :
  printable_snapshot (LIVE_DATA (world Sample2.browser0)) = true
  /\ pipWin (world (Throwing.onOpenPin WindowGranted Sample2.browser0))
     = Some (mkPip false
               (Some (q "<div class='row'><div class='left'>ARS 1 : 0 CF</div>"
                      ++ q "<div class='right'>" ++ "23'</div></div>")))
  /\ pipWin (world (Throwing.onOpenPin WindowGranted
                      (mkBrowser (set_pipWin None Sample2.w3) true [])))
     = Some (mkPip false (Some ""))
  /\ alerts (Throwing.onOpenPin WindowGranted
               (mkBrowser (set_pipWin None Sample2.w3) true []))
     = [could_not_open].
Proof.
  destruct (open_pin_outcomes Sample2.browser0) as [_ [_ [_ [_ [_ [_ [A _]]]]]]].
  destruct (open_pin_outcomes (mkBrowser (set_pipWin None Sample2.w3) true []))
    as [_ [_ [_ [_ [_ [_ [_ B]]]]]]].
  split; [reflexivity|]. split.
  - destruct (A eq_refl) as [_ A'].
    apply (A' (q "<div class='row'><div class='left'>ARS 1 : 0 CF</div>"
              ++ q "<div class='right'>" ++ "23'</div></div>")).
    reflexivity.
  - apply B. eexists. split; [left; reflexivity|]. left. reflexivity.
Defined.

(** X18. Closing the pinned window.  The close button and the window's
    [pagehide] do the same: no window is recorded any more and the close
    button is disabled, nothing else changes, and doing it again changes
    nothing.  From then on, on a snapshot whose matches all have printable
    properties, [render] returns normally and records no window. *)
Theorem close_pin_is_idempotent (b : Browser) :
  onClosePin (onClosePin b) = onClosePin b
  /\ onPagehide b = onClosePin b
  /\ (forall r, pipWin (world (onClosePin (Throwing.onOpenPin r b))) = None
                /\ btnClosePin_disabled (onClosePin (Throwing.onOpenPin r b)) = true)
  /\ pinned_open (world (onClosePin b)) = false
  /\ btnClosePin_disabled (onClosePin b) = true
  /\ alerts (onClosePin b) = alerts b
  /\ LIVE_DATA (world (onClosePin b)) = LIVE_DATA (world b)
  /\ localStorage (world (onClosePin b)) = localStorage (world b)
  /\ page (world (onClosePin b)) = page (world b)
  /\ (printable_snapshot (LIVE_DATA (world b)) = true ->
      exists w', Throwing.render (world (onClosePin b)) = Done tt w' /\ pipWin w' = None).
Proof.
  repeat split.
  intros P. rewrite (throwing_render_agrees (world (onClosePin b)) P), render_unfold.
  cbn. eexists; split; reflexivity.
Qed.

Lemma close_pin_is_idempotent_witness :
  printable_snapshot (LIVE_DATA (world Sample2.browser0)) = true
  /\ exists w', Throwing.render
                  (world (onClosePin (Throwing.onOpenPin WindowGranted Sample2.browser0)))
                = Done tt w' /\ pipWin w' = None.
Proof.
  split; [reflexivity|].
  destruct (close_pin_is_idempotent (Throwing.onOpenPin WindowGranted Sample2.browser0))
    as [_ [_ [_ [_ [_ [_ [_ [_ [_ A]]]]]]]]].
  apply A. reflexivity.
Defined.

(** ** Polling, over time *)

Section PollingExtras.
Context {host : Host}.

Lemma run_effect (res : Fetched) (w : World) :
  LIVE_DATA (final (run res w))
  = match installs res with
    | Some next => next
    | None => LIVE_DATA w
    end
  /\ renders (final (run res w))
     = (renders w + match installs res with Some _ => 1 | None => 0 end)%nat
  /\ localStorage (final (run res w)) = localStorage w.
Proof.
  assert (Hfail : forall e, fetchScores res w = Raised e w ->
            LIVE_DATA (final (run res w)) = LIVE_DATA w
            /\ renders (final (run res w)) = (renders w + 0)%nat
            /\ localStorage (final (run res w)) = localStorage w).
  { intros e He. unfold run, try_catch. rewrite He.
    destruct (reportFailure_frame e w) as [w' [-> [Hd [Hs [_ [Ht _]]]]]].
    cbn [final]. rewrite (renders_trace w w' _ Ht). auto. }
  destruct res as [msg|st [data|]]; cbn [installs].
  - apply (Hfail (TransportError msg)). reflexivity.
  - destruct (res_ok st) eqn:Hok.
    + destruct (mergeSnapshot (J data)) as [next|e] eqn:Hm.
      * destruct (run_installed st data next w Hok Hm) as [A B].
        split; [exact A|]. split; [rewrite B; lia|].
        unfold run, try_catch. rewrite (fetchScores_installed st data next w Hok Hm).
        set (w2 := log _ (set_LIVE_DATA next w)).
        destruct (render_frame w2) as [_ [Hs _]].
        destruct (render w2) as [[] w3|e w3]; cbn [final] in *; [exact Hs|].
        destruct (reportFailure_frame e w3) as [w' [-> [_ [Hs' _]]]].
        cbn [final]. rewrite Hs', Hs. reflexivity.
      * apply (Hfail e). unfold fetchScores. rewrite Hok. cbn [negb].
        unfold bind, liftR. rewrite Hm. reflexivity.
    + apply (Hfail (ApiError st)). unfold fetchScores. rewrite Hok. reflexivity.
  - destruct (res_ok st) eqn:Hok.
    + apply (Hfail SyntaxError). unfold fetchScores. rewrite Hok. reflexivity.
    + apply (Hfail (ApiError st)). unfold fetchScores. rewrite Hok. reflexivity.
Qed.

Lemma mergeSnapshot_keys (data : JsVal) (next : Snapshot) :
  mergeSnapshot data = Ok next -> map fst next = LEAGUE_KEYS.
Proof.
  rewrite mergeSnapshot_spec. unfold spec_merge. intros E.
  league_ok E "pl". league_ok E "ch". league_ok E "l1". league_ok E "l2".
  injection E as <-. reflexivity.
Qed.

Lemma installs_keys (res : Fetched) (next : Snapshot) :
  installs res = Some next -> map fst next = LEAGUE_KEYS.
Proof.
  destruct res as [msg|st [data|]]; cbn [installs]; try discriminate.
  destruct (res_ok st); [|discriminate].
  destruct (mergeSnapshot (J data)) as [n|e] eqn:E; [|discriminate].
  intros H. injection H as <-. apply (mergeSnapshot_keys _ _ E).
Qed.

(** X19. Over any sequence of poll answers the page keeps the last good
    data: the snapshot after the polling is the one of the last answer that
    installed one (the snapshot before, if none did); [render] has been
    called once for each answer that installed a snapshot; the store is
    untouched; and the snapshot keeps the four league keys in the fixed
    order if it had them. *)
Theorem polling_keeps_last_good_snapshot (answers : list Fetched) (w : World) :
  LIVE_DATA (final (startPolling answers w)) = lastGood answers (LIVE_DATA w)
  /\ renders (final (startPolling answers w)) = (renders w + goodAnswers answers)%nat
  /\ localStorage (final (startPolling answers w)) = localStorage w
  /\ (map fst (LIVE_DATA w) = LEAGUE_KEYS ->
      map fst (LIVE_DATA (final (startPolling answers w))) = LEAGUE_KEYS).
Proof.
  revert w. induction answers as [|res later IH]; intros w.
  - cbn. unfold goodAnswers. cbn. repeat split; auto.
  - cbn [startPolling]. unfold bind.
    destruct (run_returns res w) as [w1 Hrun].
    destruct (run_effect res w) as [Hd [Hr Hs]].
    rewrite Hrun in *. cbn [final] in Hd, Hr, Hs.
    destruct (IH w1) as [Id [Ir [Is Ik]]].
    cbn [lastGood]. split; [|split; [|split]].
    + rewrite Id, Hd. reflexivity.
    + rewrite Ir, Hr. unfold goodAnswers. cbn [filter].
      destruct (installs res); cbn [List.length]; lia.
    + rewrite Is, Hs. reflexivity.
    + intros Hk. apply Ik. rewrite Hd.
      destruct (installs res) as [next|] eqn:E; [apply (installs_keys res next E)|exact Hk].
Qed.

End PollingExtras.

Lemma polling_keeps_last_good_snapshot_witness :
  LIVE_DATA (final (@startPolling utcHost
                      [Responded 200 (Some Sample.feed); Responded 503 None;
                       Rejected "Failed to fetch"; Responded 200 None]
                      Sample.w0))
  = Sample.next0
  /\ map fst (LIVE_DATA (final (@startPolling utcHost
                      [Responded 200 (Some Sample.feed); Responded 503 None;
                       Rejected "Failed to fetch"; Responded 200 None]
                      Sample.w0))) = LEAGUE_KEYS.
Proof.
  destruct (@polling_keeps_last_good_snapshot utcHost
              [Responded 200 (Some Sample.feed); Responded 503 None;
               Rejected "Failed to fetch"; Responded 200 None] Sample.w0)
    as [A [_ [_ K]]].
  split; [rewrite A; reflexivity|apply K; reflexivity].
Defined.

(** ** The older revision, further *)

Section LegacyExtras.
Context {host : Host}.

Lemma legacy_toMatchModel_defined (f : JsVal) :
  Js.nullish f = false ->
  Legacy.toMatchModel f
  = (let? meta :=
       (if Js.truthy (Js.optprop f "isLive")
        then Ok (Js.or (Js.optprop f "minute") (JStr ""))
        else
          (let? shown := isoToLocalKickoff (Js.optprop f "kickoffISO") in
           Ok (if negb (shown =? "") then J (JStr ("KO " ++ shown)) else J (JStr "")))) in
     Ok (Legacy.mkMatch
           (Js.optprop f "id") (Js.optprop f "home") (Js.optprop f "away")
           (Js.coalesce (Js.optprop f "homeGoals") (JNum 0))
           (Js.coalesce (Js.optprop f "awayGoals") (JNum 0))
           (if Js.truthy (Js.optprop f "isLive") then LIVE else UPCOMING)
           meta))%result.
Proof.
  intros Hf. unfold Legacy.toMatchModel.
  rewrite !(prop_defined f _ Hf). cbn [rbind].
  destruct (Js.truthy (Js.optprop f "isLive")); cbn [rbind]; [reflexivity|].
  destruct (isoToLocalKickoff (Js.optprop f "kickoffISO")) as [shown|e]; cbn [rbind];
    [|reflexivity].
  destruct (negb (shown =? "")); reflexivity.
Qed.

Lemma legacy_accepts_what_current_accepts (f : JsVal) (m : Match) :
  toMatchModel f = Ok m -> Legacy.toMatchModel f = Ok (as_legacy m).
Proof.
  destruct (Js.nullish f) eqn:Hf.
  - destruct (toMatchModel_null f Hf) as [e ->]. discriminate.
  - rewrite (legacy_toMatchModel_defined f Hf), (toMatchModel_defined f Hf).
    cbn zeta. kickoff_ok. both_trims_ok. intros E. injection E as <-.
    destruct (Js.truthy (Js.optprop f "isLive")); reflexivity.
Qed.

(** X20. The normaliser of the older revision raises only on a [null]
    record and on a record that is not live and whose timestamp does not
    convert to a primitive ([new Date] throws; for a live record the older
    revision never looks at the timestamp).  It never trims, so a team name
    of any type passes.  Whenever the current normaliser accepts a record,
    the older one accepts it too and gives the same id, home, away, goals,
    status and minute text. *)
Theorem legacy_normaliser_agrees (f : JsVal) :
  ((exists e, Legacy.toMatchModel f = Err e)
   <-> (Js.nullish f = true
        \/ (Js.truthy (Js.optprop f "isLive") = false
            /\ Js.printable (Js.optprop f "kickoffISO") = false)))
  /\ (forall m, toMatchModel f = Ok m -> Legacy.toMatchModel f = Ok (as_legacy m)).
Proof.
  split; [|apply legacy_accepts_what_current_accepts].
  destruct (Js.nullish f) eqn:Hf.
  - split; [intros _; left; reflexivity|]. intros _. unfold Legacy.toMatchModel.
    destruct (prop_nullish f "homeGoals" Hf) as [e ->]. eexists; reflexivity.
  - rewrite (legacy_toMatchModel_defined f Hf).
    destruct (Js.truthy (Js.optprop f "isLive")); cbn [rbind].
    + split; [intros [e He]; discriminate|].
      intros [H|[H _]]; discriminate.
    + destruct (isoToLocalKickoff (Js.optprop f "kickoffISO")) as [shown|e0] eqn:Ek;
        cbn [rbind].
      * split; [intros [e He]; discriminate|].
        intros [H|[_ P]]; [discriminate|].
        destruct (proj2 (isoToLocalKickoff_raises _) P) as [e He]. congruence.
      * split; [|intros _; eexists; reflexivity].
        intros _. right. split; [reflexivity|].
        apply isoToLocalKickoff_raises. eauto.
Qed.

Lemma legacy_mapR_agrees (key : string) (l : list Json) (ms : list Match) :
  mapR (stamp key) l = Ok ms ->
  mapR (fun f => Legacy.toMatchModel (J f)) l = Ok (map as_legacy ms).
Proof.
  revert ms. induction l as [|f l IH]; cbn [mapR]; intros ms E.
  - injection E as <-. reflexivity.
  - unfold stamp at 1 in E.
    destruct (toMatchModel (J f)) as [m|e] eqn:Ef; cbn [rbind] in E; [|discriminate].
    destruct (mapR (stamp key) l) as [ms'|e] eqn:El; cbn [rbind] in E; [|discriminate].
    injection E as <-.
    rewrite (legacy_accepts_what_current_accepts (J f) m Ef).
    cbn [rbind]. rewrite (IH ms' eq_refl). reflexivity.
Qed.

Lemma tidy_field_cases (v : JsVal) :
  tidy_field v = true -> v = undefined \/ Js.isArray v = true.
Proof. destruct v as [|[]]; simpl; intros H; try discriminate; auto. Qed.

Lemma legacy_mergeLeague_tidy (data : JsVal) (ls : list (string * Json))
  (key : string) (ms : list Match) :
  Js.optprop data "leagues" = J (JObj ls) ->
  tidy_bucket (bucketOf data key) = true ->
  mapR (stamp key) (chosenFor data key) = Ok ms ->
  Legacy.mergeLeague (J (JObj ls)) key = Ok (map as_legacy ms).
Proof.
  intros Hls Htidy Hms. unfold chosenFor in Hms. unfold bucketOf in *.
  rewrite Hls in *. unfold Legacy.mergeLeague.
  rewrite (prop_defined (J (JObj ls)) key eq_refl). cbn [rbind].
  destruct (Js.optprop (J (JObj ls)) key) as [|[| | | | |fields]]; try discriminate.
  cbn [tidy_bucket] in Htidy. apply andb_prop in Htidy. destruct Htidy as [Hl Hu].
  rewrite (legacy_pickList_agrees fields
             (tidy_field_cases _ Hl) (tidy_field_cases _ Hu)).
  cbn [rbind Legacy.call_map]. apply (legacy_mapR_agrees key _ _ Hms).
Qed.

(** X21. On a feed of the documented shape (a [leagues] object with a
    bucket for each of the four leagues, [live] and [upcoming] arrays or
    absent) the two revisions build the same snapshot: whenever the
    current merger produces one, the older merger produces the same
    leagues with the same matches in the same order, seen through the
    properties the older revision keeps. *)
Theorem revisions_agree_on_tidy_feed (data : JsVal) (next : Snapshot) :
  tidy_feed data = true ->
  mergeSnapshot data = Ok next ->
  Legacy.mergeSnapshot data
  = Ok (map (fun entry => (fst entry, map as_legacy (snd entry))) next).
Proof.
  unfold tidy_feed. intros Htidy.
  destruct (Js.optprop data "leagues") as [|[| | | | |ls]] eqn:Hls; try discriminate.
  assert (Hdata : Js.nullish data = false).
  { destruct data as [|[]]; try reflexivity; discriminate Hls. }
  cbn [forallb LEAGUE_KEYS] in Htidy.
  apply andb_prop in Htidy. destruct Htidy as [Tpl Htidy].
  apply andb_prop in Htidy. destruct Htidy as [Tch Htidy].
  apply andb_prop in Htidy. destruct Htidy as [Tl1 Htidy].
  apply andb_prop in Htidy. destruct Htidy as [Tl2 _].
  rewrite mergeSnapshot_spec. unfold spec_merge. intros E.
  destruct (mapR (stamp "pl") _) as [pl|] eqn:Epl; [|discriminate]. cbn [rbind] in E.
  destruct (mapR (stamp "ch") _) as [ch|] eqn:Ech; [|discriminate]. cbn [rbind] in E.
  destruct (mapR (stamp "l1") _) as [l1|] eqn:El1; [|discriminate]. cbn [rbind] in E.
  destruct (mapR (stamp "l2") _) as [l2|] eqn:El2; [|discriminate]. cbn [rbind] in E.
  injection E as <-.
  unfold Legacy.mergeSnapshot. rewrite (prop_defined data "leagues" Hdata), Hls.
  cbn [rbind Legacy.mergeKeys LEAGUE_KEYS].
  rewrite (legacy_mergeLeague_tidy data ls "pl" pl Hls Tpl Epl). cbn [rbind].
  rewrite (legacy_mergeLeague_tidy data ls "ch" ch Hls Tch Ech). cbn [rbind].
  rewrite (legacy_mergeLeague_tidy data ls "l1" l1 Hls Tl1 El1). cbn [rbind].
  rewrite (legacy_mergeLeague_tidy data ls "l2" l2 Hls Tl2 El2). cbn [rbind].
  reflexivity.
Qed.

(** X22. The merger of the older revision has no fallback at all: it
    produces no snapshot when the body has no [leagues], when a league's
    bucket is absent or [null], when a bucket's [live] is a non-empty
    string, or when, [live] being absent, its [upcoming] is a number other
    than 0. *)
Theorem legacy_merger_stops_on_bad_bucket (leagues rest : list (string * Json))
  (key : string) :
  In key LEAGUE_KEYS ->
  (Js.assoc key leagues = None
   \/ Js.assoc key leagues = Some JNull
   \/ (exists fields s,
         Js.assoc key leagues = Some (JObj fields)
         /\ Js.assoc "live" fields = Some (JStr s) /\ s <> "")
   \/ (exists fields n,
         Js.assoc key leagues = Some (JObj fields)
         /\ Js.assoc "live" fields = None
         /\ Js.assoc "upcoming" fields = Some (JNum n) /\ n <> 0%Z)) ->
  (exists e, Legacy.mergeSnapshot (J (JObj (("leagues", JObj leagues) :: rest))) = Err e)
  /\ (exists e, Legacy.mergeSnapshot (J (JObj [])) = Err e)
  /\ (exists e, Legacy.mergeSnapshot (J JNull) = Err e).
Proof.
  intros Hin Hbad. split; [|split; eexists; reflexivity].
  unfold Legacy.mergeSnapshot. cbn [Js.prop Js.assoc].
  replace ("leagues" =? "leagues") with true by reflexivity. cbn [rbind].
  apply (legacy_mergeKeys_stops _ key _ Hin).
  unfold Legacy.mergeLeague. cbn [Js.prop].
  destruct Hbad as [H|[H|[[fields [s [H [Hl Hs]]]]|[fields [n [H [Hl [Hu Hn]]]]]]]];
    rewrite H; cbn [rbind].
  - eexists; reflexivity.
  - eexists; reflexivity.
  - unfold Legacy.pickList. cbn [Js.prop]. rewrite Hl. cbn [rbind].
    destruct s as [|c s]; [contradiction|]. cbn. eexists; reflexivity.
  - unfold Legacy.pickList. cbn [Js.prop]. rewrite Hl, Hu. cbn.
    destruct (n =? 0)%Z eqn:E; [apply Z.eqb_eq in E; contradiction|].
    unfold Js.or. cbn. rewrite E. cbn. eexists; reflexivity.
Qed.

End LegacyExtras.

Lemma revisions_agree_on_tidy_feed_witness :
  exists next,
    @mergeSnapshot utcHost (J Sample2.fullFeed) = Ok next
    /\ @Legacy.mergeSnapshot utcHost (J Sample2.fullFeed)
       = Ok (map (fun entry => (fst entry, map as_legacy (snd entry))) next).
Proof.
  destruct (@mergeSnapshot utcHost (J Sample2.fullFeed)) as [next|e] eqn:E;
    [|discriminate E].
  exists next. split; [reflexivity|].
  apply (@revisions_agree_on_tidy_feed utcHost (J Sample2.fullFeed) next);
    [reflexivity|exact E].
Defined.

Lemma legacy_merger_stops_on_bad_bucket_witness :
  exists e, @Legacy.mergeSnapshot utcHost (J Sample.feed) = Err e.
Proof.
  destruct (@legacy_merger_stops_on_bad_bucket utcHost
              [("pl", JObj [("live", JArr [Sample.m1]); ("upcoming", JArr [Sample.m3])]);
               ("l1", JObj [("upcoming", JArr [Sample.m2])]);
               ("ch", JNum 5)] [] "l2") as [A _].
  - simpl. auto 6.
  - left. reflexivity.
  - exact A.
Defined.

(** X23. In the older revision the score line of a LIVE match never shows
    the goals: it prints the [homeScore] and [awayScore] properties, which
    its match objects do not have, so the text is [undefined : undefined]
    whatever the record held; and the kickoff of an UPCOMING followed match
    prints as [KO undefined], its match objects having no [kickoff]. *)
Theorem legacy_score_line_ignores_goals (m : Legacy.Match) :
  (Legacy.status m = LIVE ->
     LegacyPaint.formatScoreline m = "undefined : undefined"
     /\ LegacyPaint.formatRightMeta m = Js.to_string (Legacy.minute m) ++ "'")
  /\ (Legacy.status m = UPCOMING ->
        LegacyPaint.formatScoreline m = "vs"
        /\ LegacyPaint.formatRightMeta m = "KO undefined").
Proof.
  unfold LegacyPaint.formatScoreline, LegacyPaint.formatRightMeta, LegacyPaint.read.
  split; intros ->; split; reflexivity.
Qed.

Lemma legacy_score_line_ignores_goals_witness :
  exists m, @Legacy.toMatchModel utcHost (J Sample.m1) = Ok m
            /\ Legacy.homeGoals m = J (JNum 1)
            /\ LegacyPaint.formatScoreline m = "undefined : undefined".
Proof.
  destruct (@Legacy.toMatchModel utcHost (J Sample.m1)) as [m|e] eqn:E; [|discriminate E].
  exists m. split; [reflexivity|].
  vm_compute in E. injection E as <-.
  split; [reflexivity|].
  apply (proj1 (legacy_score_line_ignores_goals _)). reflexivity.
Defined.
